(** * MemoryCache: a page-granularity read-through cache (JsDbg)

    Shallow embedding of [src/extensions/memorycache/memorycache.js], and
    the properties of it that are proved below.

    Conventions of the embedding.
    - bigInt values (addresses, pages) and the integral JS numbers (sizes,
      counts, hit counters, array indices) are [Z]; the counters stay far
      below 2^53. bigInt's [mod] keeps the sign of the dividend and [divide]
      truncates, so they are [Z.rem] and [Z.quot].
    - [null] and [undefined] are [None]; the source only ever tests them
      with [== null], [!= null] and [== undefined], which do not tell them
      apart.
    - The closures of the source are defunctionalised: a closure is a
      constructor holding the variables it captures, and running it is a
      function of the model.
    - Objects that closures share (cache entries, the activation record of
      [requestPages]) live in stores inside the state and are referred to by
      their index, so that aliasing is kept. The code never holds an index
      that its store lacks; reading one yields a default object.
    - The code runs in turns of the event loop. JsDbg is asynchronous: a
      call on it returns at once and its continuation runs in a later turn,
      once. A continuation supplied by a client is opaque: calling it is
      recorded, and it does not call back into the module within the turn.
    - [new PointerMath.Pointer(address).value()] turns its argument into an
      absolute bigInt; the operations below take the address already in
      that form. *)

From Stdlib Require Import ZArith List Lia Bool.
From stdpp Require Import base option list gmap.

Open Scope Z_scope.

Module MemoryCache.

(** ** Constants *)

Definition PAGE_SIZE : Z := 4096.
Definition RETRIEVAL_SIZE : Z := 4.
Definition CACHE_TRIGGER : Z := 1.

(** ** Page arithmetic *)

Definition getPage (address : Z) : Z :=
  address - Z.rem address PAGE_SIZE.

(** [address.mod(PAGE_SIZE).divide(size)]; bigInt raises "Cannot divide by
    zero" when [size] is 0, which is [None] here. *)
Definition getOffset (address size : Z) : option Z :=
  if size =? 0 then None else Some (Z.quot (Z.rem address PAGE_SIZE) size).

(** ** Typed views *)

Inductive viewer : Type :=
| Int8Array | Int16Array | Int32Array
| Uint8Array | Uint16Array | Uint32Array
| Float32Array | Float64Array.

Definition floatArrays : list (option viewer) :=
  [Some Float32Array; Some Float64Array].
Definition unsignedArrays : list (option viewer) :=
  [Some Uint8Array; Some Uint16Array; None; Some Uint32Array;
   None; None; None; None].
Definition signedArrays : list (option viewer) :=
  [Some Int8Array; Some Int16Array; None; Some Int32Array;
   None; None; None; None].

(** [table[k]] for a table of constructors: the element when [k] is an index
    of the table, [undefined] otherwise. *)
Definition tableGet (table : list (option viewer)) (k : Z) : option viewer :=
  if k <? 0 then None else mjoin (table !! Z.to_nat k).

(** [size / 4 - 1] is a division of JS numbers: it is an integer only when
    4 divides [size], and any other property name is [undefined]. *)
Definition getArrayViewer (size : Z) (isUnsigned isFloat : bool)
  : option viewer :=
  if isFloat then
    (if Z.rem size 4 =? 0 then tableGet floatArrays (Z.quot size 4 - 1)
     else None)
  else if isUnsigned then tableGet unsignedArrays (size - 1)
  else tableGet signedArrays (size - 1).

(** [BYTES_PER_ELEMENT] of each typed-array constructor. *)
Definition bytesPerElement (v : viewer) : Z :=
  match v with
  | Int8Array | Uint8Array => 1
  | Int16Array | Uint16Array => 2
  | Int32Array | Uint32Array | Float32Array => 4
  | Float64Array => 8
  end.

(** A JS value read out of a typed array. An integer element is its value;
    a float element is kept as its IEEE-754 bit pattern, the numeric value
    of which is not interpreted here. *)
Inductive jsval : Type :=
| JNumber (z : Z)
| JFloat32 (bits : Z)
| JFloat64 (bits : Z)
| JUndefined.

(** Bytes are integers in 0..255; buffers are byte lists, and typed arrays
    use the byte order of the platform, little-endian here. *)
Fixpoint leDecode (bytes : list Z) : Z :=
  match bytes with
  | [] => 0
  | b :: rest => b + 256 * leDecode rest
  end.

Fixpoint leEncode (n : nat) (x : Z) : list Z :=
  match n with
  | O => []
  | S n' => x mod 256 :: leEncode n' (x / 256)
  end.

Definition toSigned (bits u : Z) : Z :=
  if u <? 2 ^ (bits - 1) then u else u - 2 ^ bits.

Definition decodeElement (v : viewer) (bytes : list Z) : jsval :=
  match v with
  | Uint8Array | Uint16Array | Uint32Array => JNumber (leDecode bytes)
  | Int8Array => JNumber (toSigned 8 (leDecode bytes))
  | Int16Array => JNumber (toSigned 16 (leDecode bytes))
  | Int32Array => JNumber (toSigned 32 (leDecode bytes))
  | Float32Array => JFloat32 (leDecode bytes)
  | Float64Array => JFloat64 (leDecode bytes)
  end.

(** [view.length] of [new v(buffer)]. *)
Definition viewLength (v : viewer) (buffer : list Z) : Z :=
  Z.of_nat (length buffer) / bytesPerElement v.

(** [view[i]]: the element, or [undefined] outside the view. *)
Definition viewGet (v : viewer) (buffer : list Z) (i : Z) : jsval :=
  if (0 <=? i) && (i <? viewLength v buffer) then
    decodeElement v
      (take (Z.to_nat (bytesPerElement v))
         (drop (Z.to_nat (i * bytesPerElement v)) buffer))
  else JUndefined.

(** ToUint32 on an integral number. *)
Definition toUint32 (x : Z) : Z := x mod 2 ^ 32.

(** The body of the page-fetch continuation that fills the page buffer:
    [new ArrayBuffer(PAGE_SIZE)], a [Uint32Array] over it, and
    [view[i] = result.array[i]] for every index of the view. A missing
    [result.array[i]] is [undefined], which a [Uint32Array] stores as 0. *)
Definition fillPage (array : list Z) : list Z :=
  flat_map (fun i => leEncode 4 (toUint32 (nth i array 0)))
    (seq 0 (Z.to_nat (PAGE_SIZE / RETRIEVAL_SIZE))).

(** ** The pages an array spans *)

(** The [while] loop of [calculatePagesForArray]; [fuel] bounds the number
    of iterations. *)
Fixpoint pagesLoop (fuel : nat) (currentPage lastAddress : Z) : list Z :=
  match fuel with
  | O => []
  | S fuel' =>
      if currentPage <? lastAddress
      then currentPage :: pagesLoop fuel' (currentPage + PAGE_SIZE) lastAddress
      else []
  end.

Definition pagesFuel (currentPage lastAddress : Z) : nat :=
  Z.to_nat ((lastAddress - currentPage) / PAGE_SIZE + 1).

Definition calculatePagesForArray (address itemSize count : Z) : list Z :=
  let lastAddress := address + itemSize * count in
  let currentPage := getPage address in
  pagesLoop (pagesFuel currentPage lastAddress) currentPage lastAddress.

(** ** Values that cross the interface *)

(** Identity of a continuation supplied by a client of the cache. *)
Definition userCallback : Type := nat.

(** A result object of JsDbg whose [error] property is set. The cache never
    looks inside it. *)
Definition errorObject : Type := Z.

(** What a page continuation receives: a typed view of the page buffer or
    the error object. *)
Inductive view : Type :=
| ViewOf (v : viewer) (buffer : list Z)
| ViewError (e : errorObject).

(** What ends up in [cacheEntry.memory]: the [ArrayBuffer] of the page or
    the failed result object. *)
Inductive memoryValue : Type :=
| Buffer (bytes : list Z)
| ErrorResult (e : errorObject).

(** What a client continuation receives: an error object, [{value: x}] or
    [{array: xs}]. *)
Inductive result : Type :=
| ErrorOf (e : errorObject)
| ValueOf (x : jsval)
| ArrayOf (xs : list jsval).

(** A call of a client continuation made by the cache. *)
Inductive event : Type :=
| Called (callback : userCallback) (r : result).

(** ** Closures *)

(** The [callback] argument of [loadPage]: the anonymous function of
    [readNumber], or [pageLoaded] of [requestPages] for page [i] of the
    activation record [frame]. *)
Inductive pageCallback : Type :=
| NumberLoaded (address size : Z) (callback : userCallback)
| PageLoaded (frame : nat) (i : nat).

(** [memoryCallback] of [loadPage]; it captures [viewer] and [callback]. *)
Record memoryCallback : Type := MemoryCallback {
  mc_viewer : viewer;
  mc_callback : pageCallback
}.

(** The continuations handed to JsDbg: the page-fetch continuation of
    [loadPage] (it captures [cacheEntry]), a client continuation passed
    through unchanged, and the retry closure of [readPointer]. *)
Inductive continuation : Type :=
| PageFetched (entry : nat)
| Client (callback : userCallback)
| PointerSizeKnown (address : Z) (callback : userCallback).

(** Calls made on JsDbg. *)
Inductive request : Type :=
| ReadArrayRequest (address itemSize : Z) (isUnsigned isFloat : bool)
    (count : Z) (k : continuation)
| ReadNumberRequest (address size : Z) (isUnsigned isFloat : bool)
    (k : continuation)
| GetPointerSizeRequest (k : continuation).

(** ** Mutable objects *)

Record cacheEntry : Type := CacheEntry {
  hits : Z;
  memory : option memoryValue;
  error : option errorObject;
  inflight : bool;
  callbacks : list memoryCallback
}.

Definition newCacheEntry : cacheEntry :=
  {| hits := 0; memory := None; error := None; inflight := false;
     callbacks := [] |}.

(** The activation record of one call of [requestPages], together with the
    variables of [readArray] that the continuation it was given captures. *)
Record frame : Type := Frame {
  areAllPagesEligible : bool;
  loadedViews : list (option view);
  remainingViews : Z;
  fr_address : Z;
  fr_itemSize : Z;
  fr_count : Z;
  fr_callback : userCallback
}.

Definition noFrame : frame :=
  {| areAllPagesEligible := false; loadedViews := []; remainingViews := 0;
     fr_address := 0; fr_itemSize := 0; fr_count := 0; fr_callback := O |}.

(** ** The state of the module and of its environment

    [cache] maps a page to the cache entry it owns. The source keys the
    object by [page.toString(16)], which is one-to-one on integers and never
    the name of a property of [Object.prototype], so the page itself is the
    key. [heap] holds every cache entry object ever allocated: an entry that
    [clearCache] drops from [cache] is still reachable from the page-fetch
    continuation that captured it. [requests] logs the calls made on JsDbg
    (the position in the log names the call), [answered] the ones JsDbg has
    answered, and [trace] the calls of client continuations. *)
Record State : Type := MkState {
  pointerSize : option Z;
  cache : gmap Z nat;
  heap : list cacheEntry;
  frames : list frame;
  requests : list request;
  answered : gset nat;
  trace : list event
}.

Definition init : State :=
  {| pointerSize := None; cache := ∅; heap := []; frames := [];
     requests := []; answered := ∅; trace := [] |}.

Definition setPointerSize (x : option Z) (s : State) : State :=
  {| pointerSize := x; cache := cache s; heap := heap s;
     frames := frames s; requests := requests s; answered := answered s;
     trace := trace s |}.
Definition setCache (x : gmap Z nat) (s : State) : State :=
  {| pointerSize := pointerSize s; cache := x; heap := heap s;
     frames := frames s; requests := requests s; answered := answered s;
     trace := trace s |}.
Definition setHeap (x : list cacheEntry) (s : State) : State :=
  {| pointerSize := pointerSize s; cache := cache s; heap := x;
     frames := frames s; requests := requests s; answered := answered s;
     trace := trace s |}.
Definition setFrames (x : list frame) (s : State) : State :=
  {| pointerSize := pointerSize s; cache := cache s; heap := heap s;
     frames := x; requests := requests s; answered := answered s;
     trace := trace s |}.
Definition setRequests (x : list request) (s : State) : State :=
  {| pointerSize := pointerSize s; cache := cache s; heap := heap s;
     frames := frames s; requests := x; answered := answered s;
     trace := trace s |}.
Definition setAnswered (x : gset nat) (s : State) : State :=
  {| pointerSize := pointerSize s; cache := cache s; heap := heap s;
     frames := frames s; requests := requests s; answered := x;
     trace := trace s |}.
Definition setTrace (x : list event) (s : State) : State :=
  {| pointerSize := pointerSize s; cache := cache s; heap := heap s;
     frames := frames s; requests := requests s; answered := answered s;
     trace := x |}.

Definition entryAt (l : nat) (s : State) : cacheEntry :=
  default newCacheEntry (heap s !! l).
Definition frameAt (r : nat) (s : State) : frame :=
  default noFrame (frames s !! r).

(** ** The monad of the code: state, and an uncaught JS exception

    [Throw s] is an exception that escapes to the event loop, leaving the
    module in state [s]. *)
Inductive outcome (A : Type) : Type :=
| Ok (a : A) (s : State)
| Throw (s : State).
Arguments Ok {A} a s.
Arguments Throw {A} s.

Definition M (A : Type) : Type := State -> outcome A.

Definition ret {A} (a : A) : M A := fun s => Ok a s.
Definition bind {A B} (m : M A) (k : A -> M B) : M B :=
  fun s => match m s with
           | Ok a s' => k a s'
           | Throw s' => Throw s'
           end.
Definition throw {A} : M A := fun s => Throw s.
Definition gets {A} (f : State -> A) : M A := fun s => Ok (f s) s.
Definition modify (f : State -> State) : M unit := fun s => Ok tt (f s).

Declare Scope m_scope.
Delimit Scope m_scope with M.
Notation "'let*' x := m 'in' k" := (bind m (fun x => k))
  (at level 10, x name, m at level 100, k at level 200) : m_scope.
Notation "m ;;; k" := (bind m (fun _ => k))
  (at level 100, k at level 200, right associativity) : m_scope.
Open Scope m_scope.

(** The state an operation leaves behind, however it ends. *)
Definition stateOf {A} (o : outcome A) : State :=
  match o with
  | Ok _ s => s
  | Throw s => s
  end.

(** [xs.forEach(f)] where [f] also takes the index. *)
Fixpoint forEachFrom {A} (i : nat) (f : A -> nat -> M unit) (xs : list A)
  : M unit :=
  match xs with
  | [] => ret tt
  | x :: rest => f x i ;;; forEachFrom (S i) f rest
  end.
Definition forEach {A} (f : A -> M unit) (xs : list A) : M unit :=
  forEachFrom 0 (fun x _ => f x) xs.

Definition updateEntry (l : nat) (f : cacheEntry -> cacheEntry) : M unit :=
  modify (fun s => setHeap (alter f l (heap s)) s).
Definition updateFrame (r : nat) (f : frame -> frame) : M unit :=
  modify (fun s => setFrames (alter f r (frames s)) s).
Definition emit (e : event) : M unit :=
  modify (fun s => setTrace (trace s ++ [e]) s).
(** A call on JsDbg: it is logged and returns at once; JsDbg runs the
    continuation in a later turn of the event loop. *)
Definition callJsDbg (r : request) : M unit :=
  modify (fun s => setRequests (requests s ++ [r]) s).

(** ** The code of the module *)

Definition clearCache : M unit :=
  modify (setCache ∅).

Definition getCacheEntry (page : Z) : M nat :=
  let* found := gets (fun s => cache s !! page) in
  match found with
  | Some l => ret l
  | None =>
      let* l := gets (fun s => length (heap s)) in
      modify (fun s => setHeap (heap s ++ [newCacheEntry]) s) ;;;
      modify (fun s => setCache (<[page := l]> (cache s)) s) ;;;
      ret l
  end.

(** [loadedViews[i] = view]; a JS array grows when the index is past its
    end, leaving holes in between. *)
Definition arraySet {A} (i : nat) (x : A) (xs : list (option A))
  : list (option A) :=
  if (i <? length xs)%nat then <[i := Some x]> xs
  else xs ++ replicate (i - length xs) None ++ [Some x].

(** The [for] loop that pushes [view[i]] for [i] from [from] up to [to]. *)
Definition gather (v : viewer) (buffer : list Z) (from to : Z) : list jsval :=
  map (fun k => viewGet v buffer (from + Z.of_nat k))
    (seq 0 (Z.to_nat (to - from))).

(** The local variables of the continuation that [readArray] gives to
    [requestPages]. *)
Record assembly : Type := Assembly {
  asm_result : list jsval;
  indexInCurrentPage : Z;
  firstError : option errorObject
}.

(** The function given to [views.forEach]. [forEach] does not visit the
    holes of an array, so an empty slot leaves the variables as they are. *)
Definition assembleView (count : Z) (acc : assembly) (slot : option view)
  : assembly :=
  match slot with
  | None => acc
  | Some view =>
      match firstError acc with
      | Some _ => acc
      | None =>
          match view with
          | ViewError e =>
              {| asm_result := asm_result acc;
                 indexInCurrentPage := indexInCurrentPage acc;
                 firstError := Some e |}
          | ViewOf v buffer =>
              let remainingElements :=
                count - Z.of_nat (length (asm_result acc)) in
              let lastIndexInCurrentPage :=
                Z.min (indexInCurrentPage acc + remainingElements)
                  (viewLength v buffer) in
              {| asm_result :=
                   asm_result acc ++
                   gather v buffer (indexInCurrentPage acc)
                     lastIndexInCurrentPage;
                 indexInCurrentPage := 0;
                 firstError := None |}
          end
      end
  end.

Definition assemble (index count : Z) (views : list (option view))
  : assembly :=
  fold_left (assembleView count) views
    {| asm_result := []; indexInCurrentPage := index; firstError := None |}.

Definition assembled (acc : assembly) : result :=
  match firstError acc with
  | Some e => ErrorOf e
  | None => ArrayOf (asm_result acc)
  end.

(** The continuation that [readArray] gives to [requestPages]. *)
Definition arrayLoaded (address itemSize count : Z) (callback : userCallback)
    (views : list (option view)) : M unit :=
  match getOffset address itemSize with
  | None => throw
  | Some index => emit (Called callback (assembled (assemble index count views)))
  end.

(** [pageLoaded] of [requestPages], for page [i] of activation record [r]. *)
Definition pageLoaded (r i : nat) (view : view) : M unit :=
  updateFrame r (fun f =>
    {| areAllPagesEligible := areAllPagesEligible f;
       loadedViews := arraySet i view (loadedViews f);
       remainingViews := remainingViews f - 1;
       fr_address := fr_address f; fr_itemSize := fr_itemSize f;
       fr_count := fr_count f; fr_callback := fr_callback f |}) ;;;
  let* f := gets (frameAt r) in
  if (remainingViews f =? 0) && areAllPagesEligible f
  then arrayLoaded (fr_address f) (fr_itemSize f) (fr_count f)
         (fr_callback f) (loadedViews f)
  else ret tt.

(** The anonymous continuation of [readNumber]. *)
Definition numberLoaded (address size : Z) (callback : userCallback)
    (view : view) : M unit :=
  match view with
  | ViewError e => emit (Called callback (ErrorOf e))
  | ViewOf v buffer =>
      match getOffset address size with
      | None => throw
      | Some offset =>
          emit (Called callback (ValueOf (viewGet v buffer offset)))
      end
  end.

Definition runPageCallback (callback : pageCallback) (view : view) : M unit :=
  match callback with
  | NumberLoaded address size cb => numberLoaded address size cb view
  | PageLoaded r i => pageLoaded r i view
  end.

(** [new viewer(memory)]: a RangeError unless the byte length of the buffer
    is a multiple of the element size. *)
Definition newView (v : viewer) (buffer : list Z) : M view :=
  if Z.rem (Z.of_nat (length buffer)) (bytesPerElement v) =? 0
  then ret (ViewOf v buffer)
  else throw.

(** Running [memoryCallback(memory)]. *)
Definition runMemoryCallback (c : memoryCallback) (m : memoryValue) : M unit :=
  match m with
  | ErrorResult e => runPageCallback (mc_callback c) (ViewError e)
  | Buffer bytes =>
      let* view := newView (mc_viewer c) bytes in
      runPageCallback (mc_callback c) view
  end.

Definition setHits (x : Z) (e : cacheEntry) : cacheEntry :=
  {| hits := x; memory := memory e; error := error e;
     inflight := inflight e; callbacks := callbacks e |}.
Definition setMemory (x : option memoryValue) (e : cacheEntry) : cacheEntry :=
  {| hits := hits e; memory := x; error := error e;
     inflight := inflight e; callbacks := callbacks e |}.
Definition setInflight (x : bool) (e : cacheEntry) : cacheEntry :=
  {| hits := hits e; memory := memory e; error := error e;
     inflight := x; callbacks := callbacks e |}.
Definition setCallbacks (x : list memoryCallback) (e : cacheEntry)
  : cacheEntry :=
  {| hits := hits e; memory := memory e; error := error e;
     inflight := inflight e; callbacks := x |}.

Definition pushCallback (c : memoryCallback) (e : cacheEntry) : cacheEntry :=
  setCallbacks (callbacks e ++ [c]) e.

Definition loadPage (page : Z) (viewer : option viewer)
    (callback : pageCallback) : M bool :=
  match viewer with
  | None => ret false
  | Some v =>
      let* l := getCacheEntry page in
      updateEntry l (fun e => setHits (hits e + 1) e) ;;;
      let memoryCallback := MemoryCallback v callback in
      let* cacheEntry := gets (entryAt l) in
      match memory cacheEntry with
      | Some m => runMemoryCallback memoryCallback m ;;; ret true
      | None =>
          if hits cacheEntry =? CACHE_TRIGGER then
            updateEntry l (setInflight true) ;;;
            updateEntry l (pushCallback memoryCallback) ;;;
            callJsDbg (ReadArrayRequest page RETRIEVAL_SIZE true false
                         (PAGE_SIZE / RETRIEVAL_SIZE) (PageFetched l)) ;;;
            ret true
          else if inflight cacheEntry then
            updateEntry l (pushCallback memoryCallback) ;;;
            ret true
          else ret false
      end
  end.

(** What JsDbg.ReadArray hands to its continuation. *)
Inductive arrayResult : Type :=
| ArrayError (e : errorObject)
| ArrayData (array : list Z).

(** The page-fetch continuation of [loadPage], for the entry it captured. *)
Definition pageFetched (l : nat) (result : arrayResult) : M unit :=
  match result with
  | ArrayError e => updateEntry l (setMemory (Some (ErrorResult e)))
  | ArrayData array =>
      updateEntry l (setInflight false) ;;;
      updateEntry l (setMemory (Some (Buffer (fillPage array))))
  end ;;;
  let* cacheEntry := gets (entryAt l) in
  forEach (fun c =>
             let* cacheEntry := gets (entryAt l) in
             match memory cacheEntry with
             | Some m => runMemoryCallback c m
             | None => throw
             end)
    (callbacks cacheEntry) ;;;
  updateEntry l (setCallbacks []).

Definition readNumber (address size : Z) (isUnsigned isFloat : bool)
    (callback : userCallback) : M unit :=
  let viewer := getArrayViewer size isUnsigned isFloat in
  let* loaded :=
    loadPage (getPage address) viewer (NumberLoaded address size callback) in
  if negb loaded
  then callJsDbg (ReadNumberRequest address size isUnsigned isFloat
                    (Client callback))
  else ret tt.

Definition readPointer (address : Z) (callback : userCallback) : M unit :=
  let* size := gets pointerSize in
  match size with
  | None =>
      callJsDbg (GetPointerSizeRequest (PointerSizeKnown address callback))
  | Some size => readNumber address size true false callback
  end.

(** The continuation that [readPointer] gives to JsDbg.GetPointerSize;
    [result.pointerSize] may be missing. *)
Definition pointerSizeKnown (address : Z) (callback : userCallback)
    (resultPointerSize : option Z) : M unit :=
  modify (setPointerSize resultPointerSize) ;;;
  readPointer address callback.

(** [requestPages]; the last four arguments are the variables captured by
    the continuation that [readArray] passes in. *)
Definition requestPages (pages : list Z) (viewer : option viewer)
    (address itemSize count : Z) (callback : userCallback) : M bool :=
  let* r := gets (fun s => length (frames s)) in
  modify (fun s => setFrames (frames s ++
    [{| areAllPagesEligible := true;
        loadedViews := replicate (length pages) None;
        remainingViews := Z.of_nat (length pages);
        fr_address := address; fr_itemSize := itemSize;
        fr_count := count; fr_callback := callback |}]) s) ;;;
  forEachFrom 0 (fun page i =>
    let* loaded := loadPage page viewer (PageLoaded r i) in
    if negb loaded
    then updateFrame r (fun f =>
           {| areAllPagesEligible := false;
              loadedViews := loadedViews f;
              remainingViews := remainingViews f;
              fr_address := fr_address f; fr_itemSize := fr_itemSize f;
              fr_count := fr_count f; fr_callback := fr_callback f |})
    else ret tt) pages ;;;
  gets (fun s => areAllPagesEligible (frameAt r s)).

Definition readArray (address itemSize : Z) (isUnsigned isFloat : bool)
    (count : Z) (callback : userCallback) : M unit :=
  let viewer := getArrayViewer itemSize isUnsigned isFloat in
  let pagesToRequest := calculatePagesForArray address itemSize count in
  let* canUseCache :=
    requestPages pagesToRequest viewer address itemSize count callback in
  if negb canUseCache
  then callJsDbg (ReadArrayRequest address itemSize isUnsigned isFloat count
                    (Client callback))
  else ret tt.

(** ** Turns of the event loop

    A turn is a call of the public interface, the break listener, or JsDbg
    running a continuation it was given. JsDbg answers a call once. The
    continuation of an uncached read is the client's own, so its turn runs
    no code of the module. *)
Inductive op : Type :=
| CallReadPointer (address : Z) (callback : userCallback)
| CallReadNumber (address size : Z) (isUnsigned isFloat : bool)
    (callback : userCallback)
| CallReadArray (address itemSize : Z) (isUnsigned isFloat : bool)
    (count : Z) (callback : userCallback)
| BreakFired
| ReadArrayDone (id : nat) (result : arrayResult)
| GetPointerSizeDone (id : nat) (resultPointerSize : option Z).

Definition markAnswered (id : nat) : M unit :=
  modify (fun s => setAnswered ({[id]} ∪ answered s) s).

Definition turn (o : op) : M unit :=
  match o with
  | CallReadPointer address callback => readPointer address callback
  | CallReadNumber address size isUnsigned isFloat callback =>
      readNumber address size isUnsigned isFloat callback
  | CallReadArray address itemSize isUnsigned isFloat count callback =>
      readArray address itemSize isUnsigned isFloat count callback
  | BreakFired => clearCache
  | ReadArrayDone id result =>
      let* req := gets (fun s => requests s !! id) in
      let* done := gets (fun s => bool_decide (id ∈ answered s)) in
      match req, done with
      | Some (ReadArrayRequest _ _ _ _ _ (PageFetched l)), false =>
          markAnswered id ;;; pageFetched l result
      | _, _ => ret tt
      end
  | GetPointerSizeDone id resultPointerSize =>
      let* req := gets (fun s => requests s !! id) in
      let* done := gets (fun s => bool_decide (id ∈ answered s)) in
      match req, done with
      | Some (GetPointerSizeRequest (PointerSizeKnown address callback)),
        false =>
          markAnswered id ;;;
          pointerSizeKnown address callback resultPointerSize
      | _, _ => ret tt
      end
  end.

Definition step (o : op) (s : State) : State := stateOf (turn o s).

Definition run (ops : list op) (s : State) : State :=
  fold_left (fun s o => step o s) ops s.

Definition reachable (s : State) : Prop := exists ops, s = run ops init.

End MemoryCache.

Import MemoryCache.

(** ** Definitions used to state the properties *)

(** The number of iterations the loop of [calculatePagesForArray] makes. *)
Definition pageCount (currentPage lastAddress : Z) : nat :=
  Z.to_nat ((lastAddress - currentPage + (PAGE_SIZE - 1)) / PAGE_SIZE).

(** All the elements of the typed view [new v(buffer)], in index order. *)
Definition viewElements (v : viewer) (buffer : list Z) : list jsval :=
  map (fun k => viewGet v buffer (Z.of_nat k))
    (seq 0 (Z.to_nat (viewLength v buffer))).

(** The first error among the views of the pages, in page order. *)
Fixpoint firstErrorOf (views : list (option view)) : option errorObject :=
  match views with
  | [] => None
  | Some (ViewError e) :: _ => Some e
  | _ :: rest => firstErrorOf rest
  end.

(** A page-fetch call whose continuation captured cache entry [l]. *)
Definition isFetchOf (l : nat) (r : request) : bool :=
  match r with
  | ReadArrayRequest _ _ _ _ _ (PageFetched l') => Nat.eqb l l'
  | _ => false
  end.

(** How many page fetches have been issued for cache entry [l]. *)
Definition fetchesOf (l : nat) (s : State) : nat :=
  length (List.filter (isFetchOf l) (requests s)).

Definition isFetchAt (id l : nat) (s : State) : Prop :=
  exists r, requests s !! id = Some r /\ isFetchOf l r = true.

(** A queued [memoryCallback] can run: the size its closure divides by is
    not zero, and the activation record it captured exists. *)
Definition callbackOk (fs : list frame) (c : memoryCallback) : Prop :=
  match mc_callback c with
  | NumberLoaded _ size _ => size <> 0
  | PageLoaded r _ => exists f, fs !! r = Some f /\ fr_itemSize f <> 0
  end.

Record entryOk (s : State) (l : nat) (e : cacheEntry) : Prop := {
  eo_hits : 1 <= hits e;
  eo_inflight : memory e = None -> inflight e = true;
  eo_buffer : forall b,
    memory e = Some (Buffer b) -> length b = Z.to_nat PAGE_SIZE;
  eo_callbacks : Forall (callbackOk (frames s)) (callbacks e);
  eo_fetch : fetchesOf l s = 1%nat;
  eo_unique : forall id id', isFetchAt id l s -> isFetchAt id' l s -> id = id';
  eo_answered : forall id,
    isFetchAt id l s -> (id ∈ answered s <-> memory e <> None)
}.

(** The invariant of the states the module can be in between two turns. *)
Record Inv (s : State) : Prop := {
  inv_cache : forall p l, cache s !! p = Some l -> (l < length (heap s))%nat;
  inv_entries : forall l e, heap s !! l = Some e -> entryOk s l e;
  inv_requests : forall id l, isFetchAt id l s -> (l < length (heap s))%nat;
  inv_answered : forall id, id ∈ answered s -> (id < length (requests s))%nat
}.

(** What running a page continuation may change in an activation record:
    the views and the count of the views still awaited. *)
Record sameFrame (f f' : frame) : Prop := {
  sf_eligible : areAllPagesEligible f' = areAllPagesEligible f;
  sf_remaining : remainingViews f' <= remainingViews f;
  sf_address : fr_address f' = fr_address f;
  sf_itemSize : fr_itemSize f' = fr_itemSize f;
  sf_count : fr_count f' = fr_count f;
  sf_callback : fr_callback f' = fr_callback f
}.

(** What running page continuations may change in the state. *)
Record callbackEffect (s s' : State) : Prop := {
  ce_pointerSize : pointerSize s' = pointerSize s;
  ce_cache : cache s' = cache s;
  ce_heap : heap s' = heap s;
  ce_requests : requests s' = requests s;
  ce_answered : answered s' = answered s;
  ce_frames : Forall2 sameFrame (frames s) (frames s');
  ce_trace : exists t, trace s' = trace s ++ t
}.

(** A turn started by a client that passes continuation [cb]. *)
Definition usesCallback (cb : userCallback) (o : op) : Prop :=
  match o with
  | CallReadPointer _ c => c = cb
  | CallReadNumber _ _ _ _ c => c = cb
  | CallReadArray _ _ _ _ _ c => c = cb
  | _ => False
  end.

Definition isUncachedFor (cb : userCallback) (r : request) : bool :=
  match r with
  | ReadArrayRequest _ _ _ _ _ (Client c) => Nat.eqb c cb
  | ReadNumberRequest _ _ _ _ (Client c) => Nat.eqb c cb
  | _ => false
  end.

(** The uncached reads issued on behalf of continuation [cb]. *)
Definition uncachedFor (cb : userCallback) (s : State) : list request :=
  List.filter (isUncachedFor cb) (requests s).

(** The calls of continuation [cb] the cache itself has made. *)
Definition callsOf (cb : userCallback) (s : State) : list result :=
  omap (fun e => match e with
                 | Called c r => if Nat.eqb c cb then Some r else None
                 end) (trace s).

(** No closure of the module can still call [cb]: no queued continuation
    of [readNumber] holds it, no retry closure of [readPointer] holds it,
    and an activation record of [requestPages] that holds it cannot fire
    any more (it lost a page, or its count of awaited views is past 0). *)
Record quiet (cb : userCallback) (s : State) : Prop := {
  q_number : forall l e c a size,
    heap s !! l = Some e -> c ∈ callbacks e ->
    mc_callback c <> NumberLoaded a size cb;
  q_frame : forall r f,
    frames s !! r = Some f -> fr_callback f = cb ->
    areAllPagesEligible f = false \/ remainingViews f <= 0;
  q_pointer : forall id a,
    requests s !! id <> Some (GetPointerSizeRequest (PointerSizeKnown a cb))
}.

(** The steps of [loadPage], as changes of the state. *)

(** The entry [getCacheEntry] returns for a page, and the state it leaves. *)
Definition entryOf (page : Z) (s : State) : nat :=
  match cache s !! page with
  | Some l => l
  | None => length (heap s)
  end.

Definition withEntry (page : Z) (s : State) : State :=
  match cache s !! page with
  | Some _ => s
  | None =>
      setCache (<[page := length (heap s)]> (cache s))
        (setHeap (heap s ++ [newCacheEntry]) s)
  end.

(** [cacheEntry.hits += 1] *)
Definition touch (l : nat) (s : State) : State :=
  setHeap (alter (fun e => setHits (hits e + 1) e) l (heap s)) s.

(** [cacheEntry.callbacks.push(c)] *)
Definition enqueue (l : nat) (c : memoryCallback) (s : State) : State :=
  setHeap (alter (pushCallback c) l (heap s)) s.

Definition fetchRequest (page : Z) (l : nat) : request :=
  ReadArrayRequest page RETRIEVAL_SIZE true false (PAGE_SIZE / RETRIEVAL_SIZE)
    (PageFetched l).

(** The branch of [loadPage] that starts the fetch of the page. *)
Definition issueFetch (page : Z) (l : nat) (c : memoryCallback) (s : State)
  : State :=
  let s1 := enqueue l c (setHeap (alter (setInflight true) l (heap s)) s) in
  setRequests (requests s1 ++ [fetchRequest page l]) s1.

(** [notified m cs s s']: starting in [s], the continuations [cs] were run
    one after the other, in the order of the list, each once, each with
    [m], each returning normally; [s'] is the state at the end. *)
Inductive notified (m : memoryValue)
  : list memoryCallback -> State -> State -> Prop :=
| notified_nil (s : State) : notified m [] s s
| notified_cons (c : memoryCallback) (cs : list memoryCallback)
    (s s1 s2 : State) :
    runMemoryCallback c m s = Ok tt s1 ->
    notified m cs s1 s2 ->
    notified m (c :: cs) s s2.

(** The call a queued continuation of [readNumber] makes on the client when
    it is run with [m]; a continuation of [requestPages] calls nobody by
    itself. *)
Definition numberCall (m : memoryValue) (c : memoryCallback) : list event :=
  match mc_callback c with
  | NumberLoaded address size cb =>
      match m, getOffset address size with
      | ErrorResult e, _ => [Called cb (ErrorOf e)]
      | Buffer b, Some offset =>
          [Called cb (ValueOf (viewGet (mc_viewer c) b offset))]
      | Buffer _, None => []
      end
  | PageLoaded _ _ => []
  end.

Definition isNumberLoaded (c : memoryCallback) : Prop :=
  exists address size cb, mc_callback c = NumberLoaded address size cb.

(** What [cacheEntry.memory] holds once the fetch of the page has ended. *)
Definition fetchedMemory (result : arrayResult) : memoryValue :=
  match result with
  | ArrayError e => ErrorResult e
  | ArrayData array => Buffer (fillPage array)
  end.

(** The state in which the page-fetch continuation starts to notify: the
    answer is recorded and stored in the entry. *)
Definition stored (id l : nat) (result : arrayResult) (s : State) : State :=
  let s1 := setAnswered ({[id]} ∪ answered s) s in
  match result with
  | ArrayError e =>
      setHeap (alter (setMemory (Some (ErrorResult e))) l (heap s1)) s1
  | ArrayData array =>
      let s2 := setHeap (alter (setInflight false) l (heap s1)) s1 in
      setHeap (alter (setMemory (Some (Buffer (fillPage array)))) l (heap s2)) s2
  end.

(** [cacheEntry.callbacks = []] *)
Definition emptied (l : nat) (s : State) : State :=
  setHeap (alter (setCallbacks []) l (heap s)) s.

(** The activation record [requestPages] starts with. *)
Definition newFrame (pages : list Z) (address itemSize count : Z)
    (callback : userCallback) : frame :=
  {| areAllPagesEligible := true;
     loadedViews := replicate (length pages) None;
     remainingViews := Z.of_nat (length pages);
     fr_address := address; fr_itemSize := itemSize;
     fr_count := count; fr_callback := callback |}.

(** [areAllPagesEligible = false] *)
Definition ineligible (f : frame) : frame :=
  {| areAllPagesEligible := false;
     loadedViews := loadedViews f;
     remainingViews := remainingViews f;
     fr_address := fr_address f; fr_itemSize := fr_itemSize f;
     fr_count := fr_count f; fr_callback := fr_callback f |}.

(** The function [requestPages] gives to [pages.forEach]. *)
Definition requestPage (viewer : option viewer) (r : nat) (page : Z) (i : nat)
  : M unit :=
  let* loaded := loadPage page viewer (PageLoaded r i) in
  if negb loaded then updateFrame r ineligible else ret tt.

(** The function the page-fetch continuation gives to
    [cacheEntry.callbacks.forEach]. *)
Definition notify (l : nat) (c : memoryCallback) : M unit :=
  let* cacheEntry := gets (entryAt l) in
  match memory cacheEntry with
  | Some m => runMemoryCallback c m
  | None => throw
  end.

(** What the page-fetch continuation assigns to the fields of its entry
    before it notifies. *)
Definition storeResult (result : arrayResult) (e : cacheEntry) : cacheEntry :=
  match result with
  | ArrayError x => setMemory (Some (ErrorResult x)) e
  | ArrayData array =>
      setMemory (Some (Buffer (fillPage array))) (setInflight false e)
  end.

(** Nothing in the module can call [cb], and the calls and the uncached
    reads made so far on its behalf are [calls] and [reads]. *)
Record silent (cb : userCallback) (calls : list result) (reads : list request)
    (s : State) : Prop := {
  sl_quiet : quiet cb s;
  sl_calls : callsOf cb s = calls;
  sl_reads : uncachedFor cb s = reads
}.

(** [keeps I m]: running [m] in a state of [I] leaves a state of [I],
    whether [m] returns or raises. *)
Definition keeps {A} (I : State -> Prop) (m : M A) : Prop :=
  forall s, I s -> I (stateOf (m s)).

(** A page continuation that holds the client continuation [cb]. *)
Definition holds (cb : userCallback) (c : pageCallback) : Prop :=
  match c with
  | NumberLoaded _ _ c' => c' = cb
  | PageLoaded _ _ => False
  end.

(** Page [p] is cached in entry [l], whose fetch has ended with [m]. *)
Record settled (p : Z) (l : nat) (m : memoryValue) (s : State) : Prop := {
  st_cache : cache s !! p = Some l;
  st_memory : exists e, heap s !! l = Some e /\ memory e = Some m
}.

(** The pointer width is known and no query for it is under way. *)
Record widthKnown (size : Z) (s : State) : Prop := {
  wk_size : pointerSize s = Some size;
  wk_idle : forall id k,
    requests s !! id = Some (GetPointerSizeRequest k) -> id ∈ answered s
}.

(** Modelled from the spec: the remote memory source, JsDbg.ReadArray, is an
    external collaborator whose code is not part of the module. Consistent
    with itself means that its answers are all decoded from one byte
    content [mem] of the debuggee's memory: an unsigned integer element of
    [size] bytes at [address] is the little-endian value of the bytes
    there, and an array is its elements one after the other. *)
Definition remoteElement (mem : Z -> Z) (address size : Z) : Z :=
  leDecode (map (fun k => mem (address + Z.of_nat k)) (seq 0 (Z.to_nat size))).

(** Modelled from the spec: what JsDbg.ReadArray hands to its continuation
    for an array of [count] unsigned integers of [itemSize] bytes at
    [address], read from the byte content [mem]. *)
Definition remoteReadArray (mem : Z -> Z) (address itemSize count : Z)
  : list Z :=
  map (fun i => remoteElement mem (address + itemSize * Z.of_nat i) itemSize)
    (seq 0 (Z.to_nat count)).

(** Modelled from the spec: the answer of JsDbg.ReadArray to the fetch of a
    page that [loadPage] issues, read from the byte content [mem]. *)
Definition remotePage (mem : Z -> Z) (page : Z) : arrayResult :=
  ArrayData (remoteReadArray mem page RETRIEVAL_SIZE (PAGE_SIZE / RETRIEVAL_SIZE)).

(** An entry right after the first touch of its page by [pageLoaded] of
    activation record [r] for page [i]: the fetch is under way. *)
Definition waiting (r i : nat) : cacheEntry :=
  {| hits := 1; memory := None; error := None; inflight := true;
     callbacks := [MemoryCallback Uint32Array (PageLoaded r i)] |}.

(** The state after [readArray] has asked for two pages, [p0] and [p1],
    that were not cached, with nothing else going on. *)
Definition started (address : Z) (cb : userCallback) (c : gmap Z nat)
    (p0 p1 : Z) : State :=
  {| pointerSize := None;
     cache := c;
     heap := [waiting 0 0; waiting 0 1];
     frames := [newFrame [p0; p1] address 4 8 cb];
     requests := [fetchRequest p0 0; fetchRequest p1 1];
     answered := ∅;
     trace := [] |}.

(** Page [page] is cached and its entry holds the buffer [b]. *)
Definition holdsBytes (s : State) (page : Z) (b : list Z) : Prop :=
  exists l, cache s !! page = Some l /\ memory (entryAt l s) = Some (Buffer b).

(** An activation record of [requestPages] with the views [loaded] in its
    first slots and [awaited] empty slots after them. *)
Definition frameWith (loaded : list (option view)) (awaited : nat)
    (address itemSize count : Z) (callback : userCallback) : frame :=
  {| areAllPagesEligible := true;
     loadedViews := loaded ++ replicate awaited None;
     remainingViews := Z.of_nat awaited;
     fr_address := address; fr_itemSize := itemSize;
     fr_count := count; fr_callback := callback |}.

(** ** The elementary changes of state

    [move s s']: one of the changes of state that the code of a turn is
    made of. *)
Inductive move : State -> State -> Prop :=
| move_effect (s s' : State) :
    (* page continuations ran *)
    callbackEffect s s' -> move s s'
| move_frame (s : State) (f : frame) :
    (* [requestPages] was entered *)
    move s (setFrames (frames s ++ [f]) s)
| move_fresh (page : Z) (c : memoryCallback) (s : State) :
    (* [loadPage] on a page with no entry: the fetch is issued *)
    cache s !! page = None ->
    move s (issueFetch page (length (heap s)) c
              (touch (length (heap s)) (withEntry page s)))
| move_wait (page : Z) (l : nat) (c : memoryCallback) (s : State) :
    (* [loadPage] on a page whose fetch is under way: the caller waits *)
    cache s !! page = Some l -> memory (entryAt l s) = None ->
    move s (enqueue l c (touch l s))
| move_hit (page : Z) (l : nat) (m : memoryValue) (s : State) :
    (* [loadPage] on a page whose fetch has ended: the hit is counted *)
    cache s !! page = Some l -> memory (entryAt l s) = Some m ->
    move s (touch l s)
| move_call (r : request) (s : State) :
    (* a call on JsDbg other than a page fetch *)
    (forall l, isFetchOf l r = false) ->
    move s (setRequests (requests s ++ [r]) s)
| move_width (id : nat) (k : continuation) (x : option Z) (s : State) :
    (* JsDbg answered a query of the pointer size *)
    requests s !! id = Some (GetPointerSizeRequest k) -> id ∉ answered s ->
    move s (setPointerSize x (setAnswered ({[id]} ∪ answered s) s))
| move_break (s : State) :
    (* [clearCache] *)
    move s (setCache ∅ s)
| move_fetched (id l : nat) (result : arrayResult) (page size count : Z)
    (u f : bool) (s s2 : State) :
    (* JsDbg answered a page fetch: stored, waiters notified, queue emptied *)
    requests s !! id =
      Some (ReadArrayRequest page size u f count (PageFetched l)) ->
    id ∉ answered s ->
    callbackEffect (stored id l result s) s2 ->
    move s (emptied l s2).

(** A sequence of elementary changes, each starting in a state of the
    invariant. *)
Inductive moves : State -> State -> Prop :=
| moves_refl (s : State) : moves s s
| moves_step (s1 s2 s3 : State) :
    Inv s1 -> move s1 s2 -> moves s2 s3 -> moves s1 s3.

(** The bytes of a page of the byte content [mem]. *)
Definition pageBytes (mem : Z -> Z) (page : Z) : list Z :=
  map (fun k => mem (page + Z.of_nat k)) (seq 0 (Z.to_nat PAGE_SIZE)).

(** The element of kind [v] that the bytes of [mem] at [address] encode. *)
Definition elementAt (mem : Z -> Z) (v : viewer) (address : Z) : jsval :=
  decodeElement v
    (map (fun k => mem (address + Z.of_nat k))
       (seq 0 (Z.to_nat (bytesPerElement v)))).

(** ** A single read that waits for its page *)

(** The queued continuation [k] calls the client continuation [cb]. *)
Definition holdsb (cb : userCallback) (k : memoryCallback) : bool :=
  match mc_callback k with
  | NumberLoaded _ _ c => Nat.eqb c cb
  | PageLoaded _ _ => false
  end.

(** [cb] is held by exactly one closure of the module: the continuation
    [c], queued once in entry [l], whose fetch, call [id] on JsDbg, is
    under way. The calls and the uncached reads made so far on behalf of
    [cb] are [calls] and [reads]. *)
Record awaiting (cb : userCallback) (id l : nat) (c : memoryCallback)
    (calls : list result) (reads : list request) (s : State) : Prop := {
  aw_fetch : isFetchAt id l s;
  aw_entry : exists e,
    heap s !! l = Some e /\ memory e = None /\
    List.filter (holdsb cb) (callbacks e) = [c];
  aw_others : forall l' e k,
    heap s !! l' = Some e -> l' <> l -> k ∈ callbacks e ->
    ~ holds cb (mc_callback k);
  aw_frame : forall r f,
    frames s !! r = Some f -> fr_callback f = cb ->
    areAllPagesEligible f = false \/ remainingViews f <= 0;
  aw_pointer : forall id' a,
    requests s !! id' <> Some (GetPointerSizeRequest (PointerSizeKnown a cb));
  aw_calls : callsOf cb s = calls;
  aw_reads : uncachedFor cb s = reads
}.

(** What the continuation of a single read is called with, given what the
    entry of its page ends up holding. *)
Definition delivered (v : viewer) (address size : Z) (m : memoryValue)
  : result :=
  match m with
  | ErrorResult e => ErrorOf e
  | Buffer b => ValueOf (viewGet v b (Z.quot (Z.rem address PAGE_SIZE) size))
  end.

(** ** An array read that waits for its pages *)

(** The view that [memoryCallback] makes of what an entry holds. *)
Definition viewOf (v : viewer) (m : memoryValue) : view :=
  match m with
  | Buffer b => ViewOf v b
  | ErrorResult e => ViewError e
  end.

(** The queued continuation [k] is a [pageLoaded] of activation record
    [r]. *)
Definition forFrame (r : nat) (k : memoryCallback) : bool :=
  match mc_callback k with
  | PageLoaded r' _ => Nat.eqb r' r
  | NumberLoaded _ _ _ => false
  end.

Definition isNone {A} (x : option A) : bool :=
  match x with
  | None => true
  | Some _ => false
  end.

(** How many pages are still awaited, [got] telling for each page what
    its fetch ended with, if it has ended. *)
Definition awaited (got : list (option memoryValue)) : nat :=
  length (List.filter isNone got).

(** The activation record of [requestPages] when the pages have ended as
    [got] tells. *)
Definition gatherFrame (v : viewer) (address itemSize count : Z)
    (cb : userCallback) (got : list (option memoryValue)) : frame :=
  {| areAllPagesEligible := true;
     loadedViews := map (option_map (viewOf v)) got;
     remainingViews := Z.of_nat (awaited got);
     fr_address := address; fr_itemSize := itemSize;
     fr_count := count; fr_callback := cb |}.

(** The state without its entry objects and with activation record [r]
    out of the game. *)
Definition hidden (r : nat) (s : State) : State :=
  setFrames (alter ineligible r (frames s)) (setHeap [] s).

(** An array read with continuation [cb] and activation record [r] waits
    for its pages: page [i] has entry [l0 + i] and fetch [r0 + i]; [got]
    tells which fetches have ended, and with what. Nothing else in the
    module can call [cb]. *)
Record gathering (cb : userCallback) (r l0 r0 : nat) (v : viewer)
    (address itemSize count : Z) (got : list (option memoryValue))
    (calls : list result) (reads : list request) (s : State) : Prop := {
  ga_frame :
    frames s !! r = Some (gatherFrame v address itemSize count cb got);
  ga_fetch : forall i g,
    got !! i = Some g -> isFetchAt (r0 + i) (l0 + i) s;
  ga_pending : forall i,
    got !! i = Some None ->
    exists e, heap s !! (l0 + i)%nat = Some e /\ memory e = None /\
              List.filter (forFrame r) (callbacks e) =
                [MemoryCallback v (PageLoaded r i)];
  ga_done : forall i m,
    got !! i = Some (Some m) ->
    exists e, heap s !! (l0 + i)%nat = Some e /\ memory e = Some m;
  ga_others : forall l e k,
    heap s !! l = Some e -> k ∈ callbacks e -> forFrame r k = true ->
    exists i, l = (l0 + i)%nat /\ got !! i = Some None;
  ga_number : forall l e k a sz,
    heap s !! l = Some e -> k ∈ callbacks e ->
    mc_callback k <> NumberLoaded a sz cb;
  ga_frames : forall r' f,
    r' <> r -> frames s !! r' = Some f -> fr_callback f = cb ->
    areAllPagesEligible f = false \/ remainingViews f <= 0;
  ga_pointer : forall id a,
    requests s !! id <> Some (GetPointerSizeRequest (PointerSizeKnown a cb));
  ga_calls : callsOf cb s = calls;
  ga_reads : uncachedFor cb s = reads
}.

(** What the first answer of JsDbg to call [id] in the turns [ops] leaves
    in the entry, if there is one. *)
Fixpoint firstAnswer (id : nat) (ops : list op) : option memoryValue :=
  match ops with
  | [] => None
  | ReadArrayDone id' result :: rest =>
      if Nat.eqb id' id then Some (fetchedMemory result)
      else firstAnswer id rest
  | _ :: rest => firstAnswer id rest
  end.

(** What the pages have ended with after the turns [ops], when [got]
    tells what they had ended with before: the fetch of page [i] is call
    [r0 + i] on JsDbg, and only its first answer counts. *)
Definition gotAfter (r0 : nat) (got : list (option memoryValue))
    (ops : list op) : list (option memoryValue) :=
  imap (fun i g => match g with
                   | Some m => Some m
                   | None => firstAnswer (r0 + i) ops
                   end) got.

(** What the fetches [r0], ..., [r0 + n - 1] have brought in the turns
    [ops]. *)
Definition arrived (r0 n : nat) (ops : list op) : list (option memoryValue) :=
  gotAfter r0 (replicate n None) ops.

(** The entry of a page right after [requestPages] touched it first, for
    page [i] of activation record [r]. *)
Definition firstTouched (v : viewer) (r i : nat) : cacheEntry :=
  pushCallback (MemoryCallback v (PageLoaded r i))
    (setInflight true (setHits 1 newCacheEntry)).

(** * Properties *)

(** ** Element kinds *)

Section Viewers.

Lemma tableGet_8 (table : list (option viewer)) (size : Z) :
  length table = 8%nat ->
  tableGet table (size - 1) <> None ->
  size = 1 \/ size = 2 \/ size = 3 \/ size = 4 \/
  size = 5 \/ size = 6 \/ size = 7 \/ size = 8.
Proof.
  intros Hlen. unfold tableGet.
  destruct (Z.ltb_spec (size - 1) 0) as [H|H]; [congruence|].
  destruct (Z.le_gt_cases 8 (size - 1)) as [H8|H8]; [|lia].
  rewrite lookup_ge_None_2 by lia. simpl. congruence.
Qed.

Lemma getArrayViewer_integer (size : Z) (isUnsigned : bool) :
  getArrayViewer size isUnsigned false <> None <->
  size = 1 \/ size = 2 \/ size = 4.
Proof.
  unfold getArrayViewer. split.
  - intros H.
    assert (Hc : size = 1 \/ size = 2 \/ size = 3 \/ size = 4 \/
                 size = 5 \/ size = 6 \/ size = 7 \/ size = 8).
    { destruct isUnsigned;
        [apply (tableGet_8 unsignedArrays) | apply (tableGet_8 signedArrays)];
        auto. }
    destruct isUnsigned;
      destruct Hc as [->|[->|[->|[->|[->|[->|[->| ->]]]]]]];
      cbv in H; try (exfalso; apply H; reflexivity); auto.
  - destruct isUnsigned; intros [->|[->| ->]]; cbv; congruence.
Qed.

Lemma getArrayViewer_float (size : Z) (isUnsigned : bool) :
  getArrayViewer size isUnsigned true <> None <-> size = 4 \/ size = 8.
Proof.
  unfold getArrayViewer. split.
  - destruct (Z.eqb_spec (Z.rem size 4) 0) as [Hr|Hr]; [|congruence].
    pose proof (Z.quot_rem' size 4) as Hq. rewrite Hr in Hq.
    unfold tableGet.
    destruct (Z.ltb_spec (Z.quot size 4 - 1) 0) as [H|H]; [congruence|].
    destruct (Z.le_gt_cases 2 (Z.quot size 4 - 1)) as [H2|H2].
    + rewrite lookup_ge_None_2 by (simpl; lia). simpl. congruence.
    + intros _. lia.
  - intros [-> | ->]; cbv; congruence.
Qed.

Lemma getArrayViewer_size (size : Z) (isUnsigned isFloat : bool) (v : viewer) :
  getArrayViewer size isUnsigned isFloat = Some v -> bytesPerElement v = size.
Proof.
  intros H. destruct isFloat.
  - assert (Hc : size = 4 \/ size = 8).
    { apply (getArrayViewer_float size isUnsigned). congruence. }
    destruct Hc as [-> | ->]; cbv in H; inversion H; reflexivity.
  - assert (Hc : size = 1 \/ size = 2 \/ size = 4).
    { apply (getArrayViewer_integer size isUnsigned). congruence. }
    destruct isUnsigned; destruct Hc as [->|[->| ->]]; cbv in H;
      inversion H; reflexivity.
Qed.

Lemma bytesPerElement_cases (v : viewer) :
  bytesPerElement v = 1 \/ bytesPerElement v = 2 \/
  bytesPerElement v = 4 \/ bytesPerElement v = 8.
Proof. destruct v; simpl; auto. Qed.

Lemma bytesPerElement_pos (v : viewer) : 0 < bytesPerElement v.
Proof. destruct (bytesPerElement_cases v) as [H|[H|[H|H]]]; lia. Qed.

Lemma bytesPerElement_divides_page (v : viewer) :
  bytesPerElement v * (PAGE_SIZE / bytesPerElement v) = PAGE_SIZE.
Proof.
  destruct (bytesPerElement_cases v) as [H|[H|[H|H]]]; rewrite H; reflexivity.
Qed.

End Viewers.

(** ** Page arithmetic *)

Section Pages.

Lemma getOffset_Some (address size : Z) :
  size <> 0 ->
  getOffset address size = Some (Z.quot (Z.rem address PAGE_SIZE) size).
Proof.
  intros H. unfold getOffset. destruct (Z.eqb_spec size 0); [lia|reflexivity].
Qed.

Lemma pageCount_step (c last : Z) :
  c < last -> pageCount c last = S (pageCount (c + PAGE_SIZE) last).
Proof.
  intros H. unfold pageCount, PAGE_SIZE.
  replace (last - c + (4096 - 1)) with ((last - (c + 4096) + (4096 - 1)) + 1 * 4096) by lia.
  rewrite Z.div_add by lia.
  assert (0 <= (last - (c + 4096) + (4096 - 1)) / 4096).
  { apply Z.div_pos; lia. }
  lia.
Qed.

Lemma pageCount_done (c last : Z) : last <= c -> pageCount c last = 0%nat.
Proof.
  intros H. unfold pageCount, PAGE_SIZE.
  assert ((last - c + (4096 - 1)) / 4096 <= 0).
  { apply Z.lt_succ_r. apply Z.div_lt_upper_bound; lia. }
  lia.
Qed.

Lemma pagesLoop_unfold (fuel : nat) (c last : Z) :
  pagesLoop fuel c last =
  map (fun k => c + PAGE_SIZE * Z.of_nat k)
    (seq 0 (Nat.min fuel (pageCount c last))).
Proof.
  revert c. induction fuel as [|fuel IH]; intros c; [reflexivity|].
  simpl pagesLoop. destruct (Z.ltb_spec c last) as [H|H].
  - rewrite (pageCount_step c last H). simpl Nat.min. simpl seq. simpl map.
    f_equal; [lia|]. rewrite IH. rewrite <- seq_shift, map_map.
    apply map_ext. intros k. lia.
  - rewrite (pageCount_done c last H). rewrite Nat.min_0_r. reflexivity.
Qed.

Lemma pagesFuel_enough (c last : Z) : (pageCount c last <= pagesFuel c last)%nat.
Proof.
  unfold pageCount, pagesFuel, PAGE_SIZE.
  assert ((last - c + (4096 - 1)) / 4096 <= (last - c) / 4096 + 1).
  { replace (last - c + (4096 - 1)) with ((last - c - 1) + 1 * 4096) by lia.
    rewrite Z.div_add by lia.
    assert ((last - c - 1) / 4096 <= (last - c) / 4096)
      by (apply Z.div_le_mono; lia).
    lia. }
  lia.
Qed.

(** The loop leaves through its test, never through lack of fuel: any
    larger fuel computes the same pages. *)
Lemma pagesLoop_fuel (fuel : nat) (c last : Z) :
  (pagesFuel c last <= fuel)%nat ->
  pagesLoop fuel c last = pagesLoop (pagesFuel c last) c last.
Proof.
  intros H. rewrite !pagesLoop_unfold.
  pose proof (pagesFuel_enough c last).
  rewrite !Nat.min_r by lia. reflexivity.
Qed.

Lemma calculatePagesForArray_unfold (address itemSize count : Z) :
  calculatePagesForArray address itemSize count =
  map (fun k => getPage address + PAGE_SIZE * Z.of_nat k)
    (seq 0 (pageCount (getPage address) (address + itemSize * count))).
Proof.
  unfold calculatePagesForArray. rewrite pagesLoop_unfold.
  rewrite Nat.min_r by apply pagesFuel_enough. reflexivity.
Qed.

(** The pages cover the whole array. *)
Lemma pageCount_covers (c last : Z) :
  last <= c + PAGE_SIZE * Z.of_nat (pageCount c last).
Proof.
  unfold pageCount, PAGE_SIZE.
  destruct (Z.le_gt_cases last c) as [H|H].
  - lia.
  - assert (0 <= (last - c + (4096 - 1)) / 4096) by (apply Z.div_pos; lia).
    rewrite Z2Nat.id by lia.
    pose proof (Z.div_mod (last - c + (4096 - 1)) 4096).
    pose proof (Z.mod_pos_bound (last - c + (4096 - 1)) 4096). lia.
Qed.

End Pages.

(** ** Page buffers and typed views *)

Section Buffers.

Lemma length_leEncode (n : nat) (x : Z) : length (leEncode n x) = n.
Proof. revert x. induction n; intros x; simpl; [reflexivity | by rewrite IHn]. Qed.

Lemma leDecode_leEncode (n : nat) (x : Z) :
  leDecode (leEncode n x) = x mod 256 ^ Z.of_nat n.
Proof.
  revert x. induction n as [|n IH]; intros x.
  - simpl. by rewrite Z.mod_1_r.
  - simpl leEncode. simpl leDecode. rewrite IH.
    rewrite Nat2Z.inj_succ, Z.pow_succ_r by lia.
    rewrite Z.rem_mul_r by lia. lia.
Qed.

Lemma flat_map_chunk {A} (f : A -> list Z) (n : nat) (xs : list A) (i : nat) (x : A) :
  (forall y, length (f y) = n) ->
  xs !! i = Some x ->
  take n (drop (n * i) (flat_map f xs)) = f x.
Proof.
  intros Hlen. revert i. induction xs as [|y xs IH]; intros i Hi; [done|].
  destruct i as [|i]; simpl in *.
  - inversion Hi; subst. rewrite Nat.mul_0_r, drop_0.
    rewrite take_app_le by (rewrite Hlen; lia).
    apply take_ge. rewrite Hlen. lia.
  - replace (n * S i)%nat with (length (f y) + n * i)%nat by (rewrite Hlen; lia).
    rewrite drop_app_add'; [|reflexivity]. by apply IH.
Qed.

Lemma length_flat_map_const {A} (f : A -> list Z) (n : nat) (xs : list A) :
  (forall y, length (f y) = n) ->
  length (flat_map f xs) = (n * length xs)%nat.
Proof.
  intros Hlen. induction xs as [|y xs IH]; simpl; [lia|].
  rewrite length_app, Hlen, IH. lia.
Qed.

Lemma length_fillPage (array : list Z) :
  length (fillPage array) = Z.to_nat PAGE_SIZE.
Proof.
  unfold fillPage.
  rewrite (length_flat_map_const _ 4) by (intros; apply length_leEncode).
  rewrite length_seq. reflexivity.
Qed.

Lemma viewLength_page (v : viewer) (buffer : list Z) :
  length buffer = Z.to_nat PAGE_SIZE ->
  viewLength v buffer = PAGE_SIZE / bytesPerElement v.
Proof. intros H. unfold viewLength. rewrite H. reflexivity. Qed.

Lemma viewGet_fillPage (array : list Z) (i : Z) :
  0 <= i < PAGE_SIZE / RETRIEVAL_SIZE ->
  viewGet Uint32Array (fillPage array) i =
  JNumber (toUint32 (nth (Z.to_nat i) array 0)).
Proof.
  intros Hi. unfold viewGet.
  rewrite viewLength_page by apply length_fillPage.
  change (PAGE_SIZE / bytesPerElement Uint32Array) with 1024.
  change (PAGE_SIZE / RETRIEVAL_SIZE) with 1024 in Hi.
  destruct (Z.leb_spec 0 i); [|lia]. destruct (Z.ltb_spec i 1024); [|lia].
  simpl andb. cbv iota. unfold decodeElement. f_equal.
  change (Z.to_nat (bytesPerElement Uint32Array)) with 4%nat.
  change (bytesPerElement Uint32Array) with 4.
  replace (Z.to_nat (i * 4)) with (4 * Z.to_nat i)%nat by lia.
  unfold fillPage.
  rewrite (flat_map_chunk _ 4 _ (Z.to_nat i) (Z.to_nat i)).
  - rewrite leDecode_leEncode. unfold toUint32.
    change (256 ^ Z.of_nat 4) with (2 ^ 32). apply Z.mod_mod. lia.
  - intros. apply length_leEncode.
  - apply lookup_seq. change (Z.to_nat (PAGE_SIZE / RETRIEVAL_SIZE)) with 1024%nat.
    lia.
Qed.

End Buffers.

(** ** Assembling an array from the views of its pages *)

Section Assemble.

Lemma length_viewElements (v : viewer) (buffer : list Z) :
  length (viewElements v buffer) = Z.to_nat (viewLength v buffer).
Proof. unfold viewElements. by rewrite length_map, length_seq. Qed.

Lemma viewLength_nonneg (v : viewer) (buffer : list Z) : 0 <= viewLength v buffer.
Proof.
  unfold viewLength. apply Z.div_pos; [lia | apply bytesPerElement_pos].
Qed.

Lemma drop_map_seq {A} (f : nat -> A) (k n : nat) :
  drop k (map f (seq 0 n)) = map f (seq k (n - k)).
Proof. rewrite skipn_map. f_equal. apply drop_seq. Qed.

Lemma take_map_seq {A} (f : nat -> A) (k n m : nat) :
  take m (map f (seq k n)) = map f (seq k (Nat.min m n)).
Proof. rewrite firstn_map. f_equal. apply take_seq. Qed.

Lemma seq_from (k n : nat) : seq k n = map (Nat.add k) (seq 0 n).
Proof.
  change (map (Nat.add k) (seq 0 n)) with (Nat.add k <$> seq 0 n).
  rewrite fmap_add_seq. by rewrite Nat.add_0_r.
Qed.

(** The [for] loop gathers a slice of the elements of the view. *)
Lemma gather_slice (v : viewer) (buffer : list Z) (from to : Z) :
  0 <= from -> to <= viewLength v buffer ->
  gather v buffer from to =
  take (Z.to_nat (to - from)) (drop (Z.to_nat from) (viewElements v buffer)).
Proof.
  intros Hfrom Hto. unfold gather, viewElements.
  rewrite drop_map_seq, take_map_seq.
  rewrite Nat.min_l by lia.
  rewrite (seq_from (Z.to_nat from)), map_map. apply map_ext. intros k. f_equal. lia.
Qed.

Lemma take_min_length {A} (n : nat) (l : list A) :
  take n l = take (Nat.min n (length l)) l.
Proof.
  destruct (Nat.le_gt_cases n (length l)).
  - by rewrite Nat.min_l.
  - rewrite Nat.min_r by lia. rewrite !take_ge by lia. reflexivity.
Qed.

Lemma assembleView_buffer (v : viewer) (count : Z) (buffer : list Z)
    (res : list jsval) (i : Z) :
  0 <= i -> i <= viewLength v buffer -> Z.of_nat (length res) <= count ->
  assembleView count (Assembly res i None) (Some (ViewOf v buffer)) =
  Assembly
    (res ++ take (Z.to_nat (count - Z.of_nat (length res)))
              (drop (Z.to_nat i) (viewElements v buffer)))
    0 None.
Proof.
  intros Hi HiL Hres. unfold assembleView. simpl. f_equal. f_equal.
  rewrite gather_slice by lia.
  rewrite (take_min_length (Z.to_nat (count - _))).
  f_equal. rewrite length_drop, length_viewElements. lia.
Qed.

Lemma assemble_buffers_from (v : viewer) (count : Z) (buffers : list (list Z))
    (res : list jsval) (i : Z) :
  0 <= i -> Z.of_nat (length res) <= count ->
  match buffers with
  | b :: _ => i <= viewLength v b
  | [] => True
  end ->
  let acc := fold_left (assembleView count)
               (map (fun b => Some (ViewOf v b)) buffers)
               (Assembly res i None) in
  asm_result acc =
    res ++ take (Z.to_nat (count - Z.of_nat (length res)))
             (drop (Z.to_nat i) (flat_map (viewElements v) buffers)) /\
  firstError acc = None.
Proof.
  revert res i. induction buffers as [|b bs IH]; intros res i Hi Hres Hfirst.
  - simpl. rewrite drop_nil, take_nil, app_nil_r. done.
  - cbn [map fold_left flat_map].
    rewrite assembleView_buffer by assumption.
    set (D := drop (Z.to_nat i) (viewElements v b)).
    set (G := take (Z.to_nat (count - Z.of_nat (length res))) D).
    assert (HG : length G =
                 Nat.min (Z.to_nat (count - Z.of_nat (length res))) (length D)).
    { unfold G. apply length_take. }
    destruct (IH (res ++ G) 0) as [Hr He].
    + lia.
    + rewrite length_app. lia.
    + destruct bs; [done | apply viewLength_nonneg].
    + cbv zeta. rewrite Hr, He. split; [|done].
      rewrite <- app_assoc. f_equal.
      rewrite drop_app_le by (rewrite length_viewElements; lia).
      fold D. rewrite take_app. fold G. f_equal.
      rewrite drop_0. f_equal. rewrite length_app. lia.
Qed.

(** With a view of bytes for every page, the continuation of [readArray]
    collects the first [count] elements found from the offset on, reading
    the pages in order and each page by increasing index. *)
Lemma assemble_buffers (v : viewer) (index count : Z) (buffers : list (list Z)) :
  0 <= index -> 0 <= count ->
  match buffers with
  | b :: _ => index <= viewLength v b
  | [] => True
  end ->
  assembled (assemble index count (map (fun b => Some (ViewOf v b)) buffers)) =
  ArrayOf (take (Z.to_nat count)
             (drop (Z.to_nat index) (flat_map (viewElements v) buffers))).
Proof.
  intros Hi Hc Hfirst.
  destruct (assemble_buffers_from v count buffers [] index) as [Hr He];
    [done | simpl; lia | done |].
  unfold assembled, assemble. cbv zeta in Hr, He. rewrite He, Hr.
  simpl. by rewrite Z.sub_0_r.
Qed.

Lemma assemble_after_error (count : Z) (views : list (option view))
    (acc : assembly) (e : errorObject) :
  firstError acc = Some e ->
  fold_left (assembleView count) views acc = acc.
Proof.
  revert acc. induction views as [|w views IH]; intros acc He; [done|].
  simpl. assert (Hstep : assembleView count acc w = acc).
  { unfold assembleView. destruct w; [|done]. by rewrite He. }
  rewrite Hstep. by apply IH.
Qed.

Lemma assemble_firstError_from (count : Z) (views : list (option view))
    (acc : assembly) :
  firstError acc = None ->
  firstError (fold_left (assembleView count) views acc) = firstErrorOf views.
Proof.
  revert acc. induction views as [|w views IH]; intros acc He; [done|].
  simpl. destruct w as [[v b|e]|].
  - apply IH. unfold assembleView. by rewrite He.
  - rewrite (assemble_after_error _ _ _ e).
    + unfold assembleView. by rewrite He.
    + unfold assembleView. by rewrite He.
  - by apply IH.
Qed.

(** The continuation reports the first error in page order, and an array
    only when no page carries an error. *)
Lemma assembled_error (index count : Z) (views : list (option view)) :
  assembled (assemble index count views) =
  match firstErrorOf views with
  | Some e => ErrorOf e
  | None => ArrayOf (asm_result (assemble index count views))
  end.
Proof.
  unfold assembled. unfold assemble at 1.
  by rewrite assemble_firstError_from.
Qed.

End Assemble.

(** ** Running continuations *)

Section Callbacks.

Lemma sameFrame_refl (f : frame) : sameFrame f f.
Proof. split; (reflexivity || lia). Qed.

Lemma sameFrame_trans (f g h : frame) :
  sameFrame f g -> sameFrame g h -> sameFrame f h.
Proof.
  intros [sf_eligible sf_remaining sf_address sf_itemSize sf_count sf_callback] [sf_eligible0 sf_remaining0 sf_address0 sf_itemSize0 sf_count0 sf_callback0].
  split; try congruence. lia.
Qed.

Lemma Forall2_sameFrame_refl (fs : list frame) : Forall2 sameFrame fs fs.
Proof. induction fs; constructor; auto using sameFrame_refl. Qed.

Lemma Forall2_sameFrame_trans (fs gs hs : list frame) :
  Forall2 sameFrame fs gs -> Forall2 sameFrame gs hs -> Forall2 sameFrame fs hs.
Proof.
  intros H. revert hs. induction H; intros hs H2; inversion H2; subst;
    constructor; eauto using sameFrame_trans.
Qed.

Lemma Forall2_sameFrame_alter (g : frame -> frame) (r : nat) (fs : list frame) :
  (forall f, sameFrame f (g f)) -> Forall2 sameFrame fs (alter g r fs).
Proof.
  intros Hg. revert r. induction fs as [|f fs IH]; intros r; [constructor|].
  destruct r; simpl; constructor;
    auto using sameFrame_refl, Forall2_sameFrame_refl.
  apply IH.
Qed.

Lemma callbackEffect_refl (s : State) : callbackEffect s s.
Proof.
  split; try reflexivity.
  - apply Forall2_sameFrame_refl.
  - exists []. by rewrite app_nil_r.
Qed.

Lemma callbackEffect_trans (s1 s2 s3 : State) :
  callbackEffect s1 s2 -> callbackEffect s2 s3 -> callbackEffect s1 s3.
Proof.
  intros [ce_pointerSize ce_cache ce_heap ce_requests ce_answered ce_frames ce_trace] [ce_pointerSize0 ce_cache0 ce_heap0 ce_requests0 ce_answered0 ce_frames0 ce_trace0].
  split; try congruence.
  - eauto using Forall2_sameFrame_trans.
  - destruct ce_trace as [t Ht], ce_trace0 as [t' Ht']. exists (t ++ t').
    rewrite Ht', Ht. by rewrite app_assoc.
Qed.

Lemma callbackEffect_emit (e : event) (s : State) :
  callbackEffect s (setTrace (trace s ++ [e]) s).
Proof.
  split; try reflexivity.
  - apply Forall2_sameFrame_refl.
  - by exists [e].
Qed.

Lemma arrayLoaded_effect (address itemSize count : Z) (cb : userCallback)
    (views : list (option view)) (s : State) :
  callbackEffect s (stateOf (arrayLoaded address itemSize count cb views s)).
Proof.
  unfold arrayLoaded. destruct (getOffset address itemSize); simpl.
  - apply callbackEffect_emit.
  - apply callbackEffect_refl.
Qed.

Lemma pageLoaded_effect (r i : nat) (w : view) (s : State) :
  callbackEffect s (stateOf (pageLoaded r i w s)).
Proof.
  unfold pageLoaded, bind, updateFrame, modify, gets.
  match goal with |- context [setFrames (alter ?g r (frames s)) s] =>
    set (s1 := setFrames (alter g r (frames s)) s);
    assert (H1 : callbackEffect s s1)
  end.
  { split; try reflexivity.
    - apply Forall2_sameFrame_alter. intros f. split; simpl; (reflexivity || lia).
    - exists []. by rewrite app_nil_r. }
  destruct (_ && _).
  - eapply callbackEffect_trans; [exact H1|]. apply arrayLoaded_effect.
  - exact H1.
Qed.

Lemma numberLoaded_effect (address size : Z) (cb : userCallback) (w : view)
    (s : State) :
  callbackEffect s (stateOf (numberLoaded address size cb w s)).
Proof.
  unfold numberLoaded. destruct w as [v b|e]; simpl.
  - destruct (getOffset address size); simpl.
    + apply callbackEffect_emit.
    + apply callbackEffect_refl.
  - apply callbackEffect_emit.
Qed.

Lemma runPageCallback_effect (c : pageCallback) (w : view) (s : State) :
  callbackEffect s (stateOf (runPageCallback c w s)).
Proof.
  destruct c; simpl; auto using numberLoaded_effect, pageLoaded_effect.
Qed.

Lemma runMemoryCallback_effect (c : memoryCallback) (m : memoryValue)
    (s : State) :
  callbackEffect s (stateOf (runMemoryCallback c m s)).
Proof.
  unfold runMemoryCallback. destruct m as [b|e].
  - unfold bind, newView. destruct (_ =? 0); simpl.
    + apply runPageCallback_effect.
    + apply callbackEffect_refl.
  - apply runPageCallback_effect.
Qed.

(** *** Continuations that cannot raise *)

Lemma callbackOk_sameFrames (fs fs' : list frame) (c : memoryCallback) :
  Forall2 sameFrame fs fs' -> callbackOk fs c -> callbackOk fs' c.
Proof.
  intros HF. unfold callbackOk. destruct (mc_callback c) as [a sz cb|r i]; [done|].
  intros (f & Hf & Hsz).
  destruct (Forall2_lookup_l _ _ _ _ _ HF Hf) as (f' & Hf' & Hsame).
  exists f'. split; [done|]. destruct Hsame as [sf_eligible sf_remaining sf_address sf_itemSize sf_count sf_callback]. congruence.
Qed.

Lemma callbackOk_app (fs : list frame) (f : frame) (c : memoryCallback) :
  callbackOk fs c -> callbackOk (fs ++ [f]) c.
Proof.
  unfold callbackOk. destruct (mc_callback c) as [a sz cb|r i]; [done|].
  intros (f0 & Hf & Hsz). exists f0. split; [|done].
  by apply lookup_app_l_Some.
Qed.

Lemma newView_page (v : viewer) (b : list Z) (s : State) :
  length b = Z.to_nat PAGE_SIZE -> newView v b s = Ok (ViewOf v b) s.
Proof.
  intros Hb. unfold newView. rewrite Hb.
  destruct v; reflexivity.
Qed.

Lemma arrayLoaded_ok (address itemSize count : Z) (cb : userCallback)
    (views : list (option view)) (s : State) :
  itemSize <> 0 ->
  exists index,
    getOffset address itemSize = Some index /\
    arrayLoaded address itemSize count cb views s =
    Ok tt (setTrace
             (trace s ++ [Called cb (assembled (assemble index count views))]) s).
Proof.
  intros H. unfold arrayLoaded. rewrite (getOffset_Some _ _ H). eauto.
Qed.

Lemma pageLoaded_ok (r i : nat) (w : view) (s : State) (f : frame) :
  frames s !! r = Some f -> fr_itemSize f <> 0 ->
  exists s', pageLoaded r i w s = Ok tt s'.
Proof.
  intros Hf Hsz. unfold pageLoaded, bind, updateFrame, modify, gets.
  match goal with |- context [setFrames (alter ?g r (frames s)) s] =>
    set (s1 := setFrames (alter g r (frames s)) s);
    assert (H1 : frameAt r s1 = g f)
  end.
  { unfold frameAt, s1. simpl. rewrite list_lookup_alter_eq, Hf. done. }
  rewrite H1. simpl.
  destruct (_ && _); [|eauto].
  destruct (arrayLoaded_ok (fr_address f) (fr_itemSize f) (fr_count f)
              (fr_callback f) (arraySet i w (loadedViews f)) s1 Hsz)
    as (index & _ & ->).
  eauto.
Qed.

Lemma runPageCallback_ok (c : memoryCallback) (w : view) (s : State) :
  callbackOk (frames s) c ->
  exists s', runPageCallback (mc_callback c) w s = Ok tt s'.
Proof.
  unfold callbackOk, runPageCallback.
  destruct (mc_callback c) as [a sz cb|r i].
  - intros Hsz. unfold numberLoaded. destruct w; [|unfold emit, modify; eauto].
    rewrite (getOffset_Some _ _ Hsz). unfold emit, modify; eauto.
  - intros (f & Hf & Hsz). eauto using pageLoaded_ok.
Qed.

Lemma runMemoryCallback_ok (c : memoryCallback) (m : memoryValue) (s : State) :
  callbackOk (frames s) c ->
  (forall b, m = Buffer b -> length b = Z.to_nat PAGE_SIZE) ->
  exists s', runMemoryCallback c m s = Ok tt s'.
Proof.
  intros Hc Hm. unfold runMemoryCallback. destruct m as [b|e].
  - unfold bind. rewrite newView_page by auto. by apply runPageCallback_ok.
  - by apply runPageCallback_ok.
Qed.

End Callbacks.

(** ** Admission of a page *)

Section LoadPage.

Lemma getCacheEntry_run (page : Z) (s : State) :
  getCacheEntry page s = Ok (entryOf page s) (withEntry page s).
Proof.
  unfold getCacheEntry, entryOf, withEntry, bind, gets.
  destruct (cache s !! page); reflexivity.
Qed.

Lemma loadPage_None (page : Z) (cb : pageCallback) (s : State) :
  loadPage page None cb s = Ok false s.
Proof. reflexivity. Qed.

Lemma loadPage_run (page : Z) (v : viewer) (cb : pageCallback) (s : State) :
  let l := entryOf page s in
  let s1 := touch l (withEntry page s) in
  let c := MemoryCallback v cb in
  loadPage page (Some v) cb s =
  match memory (entryAt l s1) with
  | Some m =>
      match runMemoryCallback c m s1 with
      | Ok _ s2 => Ok true s2
      | Throw s2 => Throw s2
      end
  | None =>
      if hits (entryAt l s1) =? CACHE_TRIGGER then Ok true (issueFetch page l c s1)
      else if inflight (entryAt l s1) then Ok true (enqueue l c s1)
      else Ok false s1
  end.
Proof.
  cbv zeta. unfold loadPage. unfold bind at 1. rewrite getCacheEntry_run.
  unfold bind, updateEntry, modify, gets. fold (touch (entryOf page s) (withEntry page s)).
  destruct (memory _); [reflexivity|].
  destruct (_ =? _); [reflexivity|].
  destruct (inflight _); reflexivity.
Qed.

Lemma entryAt_alter (g : cacheEntry -> cacheEntry) (l : nat) (s : State) (e : cacheEntry) :
  heap s !! l = Some e ->
  entryAt l (setHeap (alter g l (heap s)) s) = g e.
Proof.
  intros H. unfold entryAt. simpl. by rewrite list_lookup_alter_eq, H.
Qed.

(** *** Fetches in the request log *)

Lemma isFetchAt_app (id l : nat) (s : State) (r : request) (s' : State) :
  requests s' = requests s ++ [r] ->
  isFetchAt id l s' <->
  isFetchAt id l s \/ (id = length (requests s) /\ isFetchOf l r = true).
Proof.
  intros Hr. unfold isFetchAt. rewrite Hr. split.
  - intros (r0 & Hl & Hf). apply lookup_snoc_Some in Hl as [[Hlt Hl]|[-> ->]]; eauto.
  - intros [(r0 & Hl & Hf)|[-> Hf]].
    + exists r0. split; [by apply lookup_app_l_Some | done].
    + exists r. split; [|done]. rewrite lookup_app_r by lia.
      by rewrite Nat.sub_diag.
Qed.

Lemma fetchesOf_app (l : nat) (s s' : State) (r : request) :
  requests s' = requests s ++ [r] ->
  fetchesOf l s' = (fetchesOf l s + (if isFetchOf l r then 1 else 0))%nat.
Proof.
  intros Hr. unfold fetchesOf. rewrite Hr, List.filter_app, length_app. simpl.
  by destruct (isFetchOf l r).
Qed.

Lemma fetchesOf_none (l : nat) (s : State) :
  (forall id, ~ isFetchAt id l s) -> fetchesOf l s = 0%nat.
Proof.
  intros H. unfold fetchesOf.
  destruct (List.filter (isFetchOf l) (requests s)) as [|r rs] eqn:E; [done|].
  assert (Hin : In r (List.filter (isFetchOf l) (requests s)))
    by (rewrite E; by left).
  apply List.filter_In in Hin as [Hin Hf].
  apply list_elem_of_In, list_elem_of_lookup in Hin as [id Hid].
  destruct (H id). by exists r.
Qed.

Lemma isFetchOf_fetchRequest (l l' : nat) (page : Z) :
  isFetchOf l (fetchRequest page l') = true <-> l = l'.
Proof. simpl. apply Nat.eqb_eq. Qed.

(** *** The invariant under the steps of [loadPage] *)

Lemma entryOk_ext (s s' : State) (l : nat) (e : cacheEntry) :
  Forall2 sameFrame (frames s) (frames s') ->
  requests s' = requests s -> answered s' = answered s ->
  entryOk s l e -> entryOk s' l e.
Proof.
  intros Hf Hr Ha [eo_hits eo_inflight eo_buffer eo_callbacks eo_fetch eo_unique eo_answered].
  split; unfold fetchesOf, isFetchAt in *; rewrite ?Hr, ?Ha; auto.
  eapply Forall_impl; [exact eo_callbacks|].
  intros c. by apply callbackOk_sameFrames.
Qed.

Lemma Inv_callbackEffect (s s' : State) :
  Inv s -> callbackEffect s s' -> Inv s'.
Proof.
  intros [inv_cache inv_entries inv_requests inv_answered] [ce_pointerSize ce_cache ce_heap ce_requests ce_answered ce_frames ce_trace].
  split; unfold isFetchAt in *;
    rewrite ?ce_cache, ?ce_heap, ?ce_requests, ?ce_answered; auto.
  intros l e He. apply (entryOk_ext s); eauto.
Qed.

Lemma Inv_alter (g : cacheEntry -> cacheEntry) (l : nat) (e : cacheEntry)
    (s : State) :
  Inv s -> heap s !! l = Some e -> entryOk s l (g e) ->
  Inv (setHeap (alter g l (heap s)) s).
Proof.
  intros [inv_cache inv_entries inv_requests inv_answered] He Hg. split; simpl; rewrite ?length_alter; auto.
  intros l' e' He'.
  destruct (decide (l = l')) as [<-|Hne].
  - rewrite list_lookup_alter_eq, He in He'. inversion He'; subst.
    apply (entryOk_ext s); [apply Forall2_sameFrame_refl | done | done | exact Hg].
  - rewrite list_lookup_alter_ne in He' by done.
    apply (entryOk_ext s); [apply Forall2_sameFrame_refl | done | done | eauto].
Qed.

Lemma alter_snoc {A} (g : A -> A) (h : list A) (x : A) :
  alter g (length h) (h ++ [x]) = h ++ [g x].
Proof.
  replace (length h) with (length h + 0)%nat at 1 by lia.
  by rewrite alter_app_r.
Qed.

Lemma Inv_fresh_fetch (page : Z) (c : memoryCallback) (s : State) :
  Inv s -> cache s !! page = None -> callbackOk (frames s) c ->
  Inv (issueFetch page (length (heap s)) c
         (touch (length (heap s)) (withEntry page s))).
Proof.
  intros HI Hnone Hc. unfold issueFetch, enqueue, touch, withEntry.
  rewrite Hnone. simpl. rewrite !alter_snoc.
  set (E := pushCallback c _).
  set (s2 := setRequests _ _).
  assert (Hreq : requests s2 = requests s ++ [fetchRequest page (length (heap s))])
    by reflexivity.
  assert (Hold : forall id, ~ isFetchAt id (length (heap s)) s).
  { intros id Hid. apply (inv_requests s HI) in Hid. lia. }
  destruct HI as [inv_cache inv_entries inv_requests inv_answered]. split.
  - intros p l. simpl. rewrite length_app. simpl.
    destruct (decide (p = page)) as [->|Hne].
    + rewrite lookup_insert_eq. intros [= <-]. lia.
    + rewrite lookup_insert_ne by done. intros H%inv_cache. lia.
  - intros l e. change (heap s2) with (heap s ++ [E]).
    intros [[Hlt He]|[Hl He]]%lookup_snoc_Some.
    + destruct (inv_entries l e He) as [eo_hits eo_inflight eo_buffer eo_callbacks eo_fetch eo_unique eo_answered]. split; auto.
      * rewrite (fetchesOf_app l s s2 _ Hreq).
        destruct (isFetchOf l _) eqn:Ef; [|lia].
        apply isFetchOf_fetchRequest in Ef. lia.
      * intros id id' [H1|[_ H1]]%(isFetchAt_app _ _ s _ _ Hreq)
                      [H2|[_ H2]]%(isFetchAt_app _ _ s _ _ Hreq); auto;
          apply isFetchOf_fetchRequest in H1 || apply isFetchOf_fetchRequest in H2;
          lia.
      * intros id [H1|[_ H1]]%(isFetchAt_app _ _ s _ _ Hreq); auto.
        apply isFetchOf_fetchRequest in H1. lia.
    + subst l e. unfold E. split; simpl; try done.
      * repeat constructor. exact Hc.
      * rewrite (fetchesOf_app _ s s2 _ Hreq), fetchesOf_none by done.
        simpl. by rewrite Nat.eqb_refl.
      * intros id id' [H1|[-> _]]%(isFetchAt_app _ _ s _ _ Hreq)
                      [H2|[-> _]]%(isFetchAt_app _ _ s _ _ Hreq);
          try done; by destruct (Hold _ ltac:(eassumption)).
      * intros id [H1|[-> _]]%(isFetchAt_app _ _ s _ _ Hreq);
          [by destruct (Hold id)|].
        change (answered s2) with (answered s). split; [|done].
        intros H%inv_answered. lia.
  - intros id l [H1|[-> H1]]%(isFetchAt_app _ _ s _ _ Hreq);
      change (heap s2) with (heap s ++ [E]); rewrite length_app; simpl.
    + apply inv_requests in H1. lia.
    + apply isFetchOf_fetchRequest in H1. lia.
  - intros id. change (answered s2) with (answered s). rewrite Hreq, length_app.
    intros H%inv_answered. lia.
Qed.

Lemma entryAt_lookup (l : nat) (s : State) (e : cacheEntry) :
  heap s !! l = Some e -> entryAt l s = e.
Proof. intros H. unfold entryAt. by rewrite H. Qed.

Lemma Inv_entry (s : State) (page : Z) (l : nat) :
  Inv s -> cache s !! page = Some l ->
  heap s !! l = Some (entryAt l s) /\ entryOk s l (entryAt l s).
Proof.
  intros HI Hc.
  destruct (lookup_lt_is_Some_2 (heap s) l (inv_cache s HI _ _ Hc)) as [e He].
  rewrite (entryAt_lookup _ _ _ He). split; [done|].
  by apply (inv_entries s HI).
Qed.

Lemma Inv_touch (s : State) (page : Z) (l : nat) :
  Inv s -> cache s !! page = Some l -> Inv (touch l s).
Proof.
  intros HI Hc. destruct (Inv_entry s page l HI Hc) as [He Hok].
  unfold touch. eapply Inv_alter; eauto.
  destruct Hok as [eo_hits eo_inflight eo_buffer eo_callbacks eo_fetch eo_unique eo_answered]. split; simpl; auto. lia.
Qed.

Lemma entryAt_touch (s : State) (l : nat) (e : cacheEntry) :
  heap s !! l = Some e -> entryAt l (touch l s) = setHits (hits e + 1) e.
Proof.
  intros H. unfold touch.
  by apply (entryAt_alter (fun e => setHits (hits e + 1) e)).
Qed.

(** The first touch of a page starts its fetch. *)
Lemma loadPage_fresh (page : Z) (v : viewer) (cb : pageCallback) (s : State) :
  cache s !! page = None ->
  loadPage page (Some v) cb s =
  Ok true (issueFetch page (length (heap s)) (MemoryCallback v cb)
             (touch (length (heap s)) (withEntry page s))).
Proof.
  intros Hnone. rewrite loadPage_run. unfold entryOf. rewrite Hnone.
  assert (He : entryAt (length (heap s)) (touch (length (heap s)) (withEntry page s))
               = setHits (hits newCacheEntry + 1) newCacheEntry).
  { apply entryAt_touch. unfold withEntry. rewrite Hnone. simpl.
    rewrite lookup_app_r by lia. by rewrite Nat.sub_diag. }
  rewrite He. reflexivity.
Qed.

(** A touch while the fetch is on its way joins the queue. *)
Lemma loadPage_pending (page : Z) (v : viewer) (cb : pageCallback) (s : State)
    (l : nat) :
  Inv s -> cache s !! page = Some l -> memory (entryAt l s) = None ->
  loadPage page (Some v) cb s =
  Ok true (enqueue l (MemoryCallback v cb) (touch l s)).
Proof.
  intros HI Hc Hm. destruct (Inv_entry s page l HI Hc) as [He Hok].
  rewrite loadPage_run. unfold entryOf, withEntry. rewrite Hc.
  rewrite (entryAt_touch _ _ _ He). simpl. rewrite Hm.
  destruct Hok as [eo_hits eo_inflight eo_buffer eo_callbacks eo_fetch eo_unique eo_answered]. rewrite (eo_inflight Hm).
  destruct (Z.eqb_spec (hits (entryAt l s) + 1) CACHE_TRIGGER) as [H|H];
    [unfold CACHE_TRIGGER in H; lia | reflexivity].
Qed.

(** A touch of a page whose fetch has ended is served at once. *)
Lemma loadPage_served (page : Z) (v : viewer) (cb : pageCallback) (s : State)
    (l : nat) (m : memoryValue) :
  (l < length (heap s))%nat ->
  cache s !! page = Some l -> memory (entryAt l s) = Some m ->
  loadPage page (Some v) cb s =
  match runMemoryCallback (MemoryCallback v cb) m (touch l s) with
  | Ok _ s2 => Ok true s2
  | Throw s2 => Throw s2
  end.
Proof.
  intros Hl Hc Hm. destruct (lookup_lt_is_Some_2 (heap s) l Hl) as [e He].
  rewrite loadPage_run. unfold entryOf, withEntry. rewrite Hc.
  rewrite (entryAt_touch _ _ _ He). simpl.
  rewrite (entryAt_lookup _ _ _ He) in Hm. by rewrite Hm.
Qed.

Lemma Inv_enqueue (s : State) (page : Z) (l : nat) (c : memoryCallback) :
  Inv s -> cache s !! page = Some l -> callbackOk (frames s) c ->
  Inv (enqueue l c s).
Proof.
  intros HI Hc Hok. destruct (Inv_entry s page l HI Hc) as [He Hen].
  unfold enqueue. eapply Inv_alter; eauto.
  destruct Hen as [eo_hits eo_inflight eo_buffer eo_callbacks eo_fetch eo_unique eo_answered]. split; simpl; auto.
  apply Forall_app. split; [done|]. by repeat constructor.
Qed.

(** In a state of the invariant [loadPage] accepts every page of a
    supported element kind, and raises nothing. *)
Lemma loadPage_accepts (page : Z) (v : viewer) (cb : pageCallback) (s : State) :
  Inv s -> callbackOk (frames s) (MemoryCallback v cb) ->
  exists s', loadPage page (Some v) cb s = Ok true s' /\ Inv s' /\
             Forall2 sameFrame (frames s) (frames s').
Proof.
  intros HI Hok. destruct (cache s !! page) as [l|] eqn:Hc.
  - destruct (Inv_entry s page l HI Hc) as [He Hen].
    destruct (memory (entryAt l s)) as [m|] eqn:Hm.
    + rewrite (loadPage_served page v cb s l m); eauto using lookup_lt_Some.
      destruct (runMemoryCallback_ok (MemoryCallback v cb) m (touch l s))
        as [s2 Hs2]; [done| |].
      { intros b ->. by apply (eo_buffer _ _ _ Hen). }
      pose proof (runMemoryCallback_effect (MemoryCallback v cb) m (touch l s))
        as Heff.
      rewrite Hs2 in *. simpl in Heff. exists s2. split; [done|]. split.
      * eapply Inv_callbackEffect; [|exact Heff]. eauto using Inv_touch.
      * apply (ce_frames _ _ Heff).
    + rewrite (loadPage_pending page v cb s l); auto.
      eexists. split; [done|]. split.
      * eapply (Inv_enqueue _ page); eauto using Inv_touch.
      * apply Forall2_sameFrame_refl.
  - rewrite loadPage_fresh by done. eexists. split; [done|]. split.
    + by apply Inv_fresh_fetch.
    + unfold withEntry. rewrite Hc. apply Forall2_sameFrame_refl.
Qed.

End LoadPage.

(** ** Turns of the event loop *)

Section Turns.

Lemma forEachFrom_inv {A} (I : State -> Prop) (f : A -> nat -> M unit)
    (xs : list A) (i : nat) :
  (forall x j s, I s -> x ∈ xs -> exists s', f x j s = Ok tt s' /\ I s') ->
  forall s, I s -> exists s', forEachFrom i f xs s = Ok tt s' /\ I s'.
Proof.
  revert i. induction xs as [|x xs IH]; intros i Hf s Hs.
  - exists s. done.
  - simpl. unfold bind.
    destruct (Hf x i s Hs) as (s1 & -> & Hs1); [by left|].
    apply IH; [|done]. intros y j s2 H2 Hy. apply Hf; [done | by right].
Qed.

(** *** Calls on JsDbg that are not page fetches *)

Lemma Inv_callJsDbg (r : request) (s : State) :
  (forall l, isFetchOf l r = false) ->
  Inv s -> Inv (setRequests (requests s ++ [r]) s).
Proof.
  intros Hr [inv_cache inv_entries inv_requests inv_answered]. set (s' := setRequests _ s).
  assert (Hreq : requests s' = requests s ++ [r]) by reflexivity.
  assert (Hfetch : forall id l, isFetchAt id l s' -> isFetchAt id l s).
  { intros id l [H|[_ H]]%(isFetchAt_app _ _ s _ _ Hreq); [done|].
    by rewrite Hr in H. }
  split.
  - exact inv_cache.
  - intros l e He. destruct (inv_entries l e He) as [eo_hits eo_inflight eo_buffer eo_callbacks eo_fetch eo_unique eo_answered]. split; auto.
    rewrite (fetchesOf_app l s s' r Hreq), Hr. lia.
  - intros id l H. eapply inv_requests. by apply Hfetch.
  - intros id H%inv_answered. rewrite Hreq, length_app. lia.
Qed.

Lemma Inv_setPointerSize (x : option Z) (s : State) :
  Inv s -> Inv (setPointerSize x s).
Proof.
  intros [inv_cache inv_entries inv_requests inv_answered]. split; auto. intros l e He.
  destruct (inv_entries l e He) as [eo_hits eo_inflight eo_buffer eo_callbacks eo_fetch eo_unique eo_answered]. by split.
Qed.

Lemma Inv_clearCache (s : State) : Inv s -> Inv (setCache ∅ s).
Proof.
  intros [inv_cache inv_entries inv_requests inv_answered]. split; auto.
  - intros p l. simpl. by rewrite lookup_empty.
  - intros l e He. destruct (inv_entries l e He) as [eo_hits eo_inflight eo_buffer eo_callbacks eo_fetch eo_unique eo_answered]. by split.
Qed.

Lemma Inv_init : Inv init.
Proof.
  split; simpl.
  - intros p l. by rewrite lookup_empty.
  - intros l e. by rewrite lookup_nil.
  - intros id l (r & H & _). simpl in H. by rewrite lookup_nil in H.
  - intros id H. by apply not_elem_of_empty in H.
Qed.

(** *** [readNumber] and [readPointer] *)

Lemma readNumber_ok (address size : Z) (isUnsigned isFloat : bool)
    (cb : userCallback) (s : State) :
  Inv s ->
  exists s', readNumber address size isUnsigned isFloat cb s = Ok tt s' /\ Inv s'.
Proof.
  intros HI. unfold readNumber, bind.
  destruct (getArrayViewer size isUnsigned isFloat) as [v|] eqn:Hv.
  - destruct (loadPage_accepts (getPage address) v
                (NumberLoaded address size cb) s HI) as (s' & -> & HI' & _).
    + unfold callbackOk. simpl. apply getArrayViewer_size in Hv.
      pose proof (bytesPerElement_pos v). lia.
    + simpl. eauto.
  - rewrite loadPage_None. simpl. unfold callJsDbg, modify.
    eexists. split; [done|]. by apply Inv_callJsDbg.
Qed.

Lemma readPointer_ok (address : Z) (cb : userCallback) (s : State) :
  Inv s -> exists s', readPointer address cb s = Ok tt s' /\ Inv s'.
Proof.
  intros HI. unfold readPointer, bind, gets.
  destruct (pointerSize s) as [size|].
  - by apply readNumber_ok.
  - unfold callJsDbg, modify. eexists. split; [done|]. by apply Inv_callJsDbg.
Qed.

Lemma pointerSizeKnown_ok (address : Z) (cb : userCallback) (x : option Z)
    (s : State) :
  Inv s -> exists s', pointerSizeKnown address cb x s = Ok tt s' /\ Inv s'.
Proof.
  intros HI. unfold pointerSizeKnown, bind, modify.
  apply readPointer_ok. by apply Inv_setPointerSize.
Qed.

(** *** [requestPages] and [readArray] *)

Lemma requestPages_run (pages : list Z) (viewer : option viewer)
    (address itemSize count : Z) (cb : userCallback) (s : State) :
  let r := length (frames s) in
  let s1 := setFrames (frames s ++ [newFrame pages address itemSize count cb]) s in
  requestPages pages viewer address itemSize count cb s =
  match forEachFrom 0 (requestPage viewer r) pages s1 with
  | Ok _ s2 => Ok (areAllPagesEligible (frameAt r s2)) s2
  | Throw s2 => Throw s2
  end.
Proof. reflexivity. Qed.

Lemma requestPage_None (r : nat) (page : Z) (i : nat) (s : State) :
  requestPage None r page i s =
  Ok tt (setFrames (alter ineligible r (frames s)) s).
Proof. reflexivity. Qed.

Lemma requestPages_None_loop (r : nat) (pages : list Z) (i : nat) (s : State) :
  forEachFrom i (requestPage None r) pages s =
  Ok tt (match pages with
         | [] => s
         | _ => setFrames (alter ineligible r (frames s)) s
         end).
Proof.
  revert i s. induction pages as [|p pages IH]; intros i s; [done|].
  cbn [forEachFrom]. unfold bind. rewrite requestPage_None, IH.
  destruct pages; [done|]. simpl.
  rewrite list_alter_alter_eq. reflexivity.
Qed.

(** With no viewer for the element kind every page is declined: nothing
    is touched but the activation record. *)
Lemma requestPages_None (pages : list Z) (address itemSize count : Z)
    (cb : userCallback) (s : State) :
  requestPages pages None address itemSize count cb s =
  match pages with
  | [] => Ok true
            (setFrames (frames s ++ [newFrame pages address itemSize count cb]) s)
  | _ => Ok false
           (setFrames
              (frames s ++ [ineligible (newFrame pages address itemSize count cb)])
              s)
  end.
Proof.
  rewrite requestPages_run. cbv zeta. rewrite requestPages_None_loop.
  destruct pages as [|p pages].
  - unfold frameAt. simpl. rewrite lookup_app_r by lia.
    by rewrite Nat.sub_diag.
  - cbn [frames setFrames]. rewrite alter_snoc.
    unfold frameAt. cbn [frames setFrames]. rewrite lookup_app_r by lia.
    rewrite Nat.sub_diag. reflexivity.
Qed.

Lemma Inv_newFrame (f : frame) (s : State) :
  Inv s -> Inv (setFrames (frames s ++ [f]) s).
Proof.
  intros [inv_cache inv_entries inv_requests inv_answered]. split; auto.
  intros l e He. destruct (inv_entries l e He) as [eo_hits eo_inflight eo_buffer eo_callbacks eo_fetch eo_unique eo_answered]. split; auto.
  simpl. eapply Forall_impl; [exact eo_callbacks|].
  intros c. apply callbackOk_app.
Qed.

Lemma requestPages_Some (pages : list Z) (v : viewer)
    (address itemSize count : Z) (cb : userCallback) (s : State) :
  Inv s -> itemSize <> 0 ->
  exists s', requestPages pages (Some v) address itemSize count cb s = Ok true s'
             /\ Inv s'.
Proof.
  intros HI Hsz. rewrite requestPages_run. cbv zeta.
  set (r := length (frames s)).
  set (s1 := setFrames _ s).
  pose (I := fun s2 => Inv s2 /\ exists f, frames s2 !! r = Some f /\
                        fr_itemSize f <> 0 /\ areAllPagesEligible f = true).
  destruct (forEachFrom_inv I (requestPage (Some v) r) pages 0) with (s := s1)
    as (s2 & -> & HI2 & f & Hf & _ & Hel).
  - intros page j s2 (HI2 & f & Hf & Hsz2 & Hel) _.
    unfold requestPage, bind.
    destruct (loadPage_accepts page v (PageLoaded r j) s2 HI2)
      as (s3 & -> & HI3 & Hfr).
    { unfold callbackOk. simpl. eauto. }
    simpl. exists s3. split; [done|]. split; [done|].
    destruct (Forall2_lookup_l _ _ _ _ _ Hfr Hf) as (f' & Hf' & [sf_eligible sf_remaining sf_address sf_itemSize sf_count sf_callback]).
    exists f'. repeat split; congruence.
  - split; [by apply Inv_newFrame|].
    exists (newFrame pages address itemSize count cb). unfold s1, r. simpl.
    rewrite lookup_app_r by lia. by rewrite Nat.sub_diag.
  - unfold frameAt. rewrite Hf. simpl. rewrite Hel. eauto.
Qed.

Lemma readArray_ok (address itemSize : Z) (isUnsigned isFloat : bool)
    (count : Z) (cb : userCallback) (s : State) :
  Inv s ->
  exists s', readArray address itemSize isUnsigned isFloat count cb s = Ok tt s'
             /\ Inv s'.
Proof.
  intros HI. unfold readArray. unfold bind.
  destruct (getArrayViewer itemSize isUnsigned isFloat) as [v|] eqn:Hv.
  - destruct (requestPages_Some (calculatePagesForArray address itemSize count)
                v address itemSize count cb s HI) as (s' & -> & HI').
    + apply getArrayViewer_size in Hv. pose proof (bytesPerElement_pos v). lia.
    + simpl. eauto.
  - rewrite requestPages_None.
    destruct (calculatePagesForArray address itemSize count); simpl.
    + eexists. split; [done|]. by apply Inv_newFrame.
    + unfold callJsDbg, modify. eexists. split; [done|].
      apply Inv_callJsDbg; [done|]. by apply Inv_newFrame.
Qed.

(** *** The end of a page fetch *)

Lemma turn_fetched_run (id : nat) (result : arrayResult) (s : State)
    (page size count : Z) (u f : bool) (l : nat) :
  requests s !! id = Some (ReadArrayRequest page size u f count (PageFetched l)) ->
  id ∉ answered s ->
  turn (ReadArrayDone id result) s =
  match forEach (notify l) (callbacks (entryAt l (stored id l result s)))
          (stored id l result s) with
  | Ok _ s2 => Ok tt (emptied l s2)
  | Throw s2 => Throw s2
  end.
Proof.
  intros Hreq Hans. unfold turn. unfold bind at 1. unfold gets at 1.
  rewrite Hreq. unfold bind at 1. unfold gets at 1.
  rewrite bool_decide_eq_false_2 by done.
  destruct result; reflexivity.
Qed.

Lemma turn_fetched_skip (id : nat) (result : arrayResult) (s : State) :
  (forall page size count u f l,
     requests s !! id <>
     Some (ReadArrayRequest page size u f count (PageFetched l))) \/
  id ∈ answered s ->
  turn (ReadArrayDone id result) s = Ok tt s.
Proof.
  intros H. unfold turn, bind, gets.
  destruct (requests s !! id) as [[a sz u f n [l|c|a' c]| |]|] eqn:E; try done.
  destruct H as [H|H]; [by destruct (H a sz n u f l)|].
  by rewrite bool_decide_eq_true_2.
Qed.

Lemma stored_heap (id l : nat) (result : arrayResult) (s : State) :
  heap (stored id l result s) = alter (storeResult result) l (heap s).
Proof.
  unfold stored. destruct result; simpl; [done|].
  by rewrite list_alter_alter_eq.
Qed.

Lemma stored_entry (id l : nat) (result : arrayResult) (s : State)
    (e : cacheEntry) :
  heap s !! l = Some e ->
  entryAt l (stored id l result s) = storeResult result e.
Proof.
  intros He. unfold entryAt. rewrite stored_heap, list_lookup_alter_eq, He.
  done.
Qed.

Lemma memory_storeResult (result : arrayResult) (e : cacheEntry) :
  memory (storeResult result e) = Some (fetchedMemory result).
Proof. by destruct result. Qed.

Lemma callbacks_storeResult (result : arrayResult) (e : cacheEntry) :
  callbacks (storeResult result e) = callbacks e.
Proof. by destruct result. Qed.

Lemma fetchedMemory_page (result : arrayResult) (b : list Z) :
  fetchedMemory result = Buffer b -> length b = Z.to_nat PAGE_SIZE.
Proof.
  destruct result; simpl; [done|]. intros [= <-]. apply length_fillPage.
Qed.

Lemma notified_effect (m : memoryValue) (cs : list memoryCallback)
    (s s' : State) :
  notified m cs s s' -> callbackEffect s s'.
Proof.
  induction 1 as [|c cs s s1 s2 Hrun _ IH]; [apply callbackEffect_refl|].
  eapply callbackEffect_trans; [|exact IH].
  pose proof (runMemoryCallback_effect c m s) as H. by rewrite Hrun in H.
Qed.

(** Every queued continuation runs, in queue order, with the memory the
    entry now holds; none of them raises. *)
Lemma notify_loop (l : nat) (m : memoryValue) (cs : list memoryCallback)
    (i : nat) (s : State) :
  memory (entryAt l s) = Some m ->
  (forall b, m = Buffer b -> length b = Z.to_nat PAGE_SIZE) ->
  Forall (callbackOk (frames s)) cs ->
  exists s', forEachFrom i (fun c _ => notify l c) cs s = Ok tt s' /\
             notified m cs s s'.
Proof.
  intros Hm Hb. revert i s Hm. induction cs as [|c cs IH]; intros i s Hm Hcs.
  - exists s. split; [done | constructor].
  - apply Forall_cons in Hcs as [Hc Hcs].
    destruct (runMemoryCallback_ok c m s Hc Hb) as [s1 Hs1].
    pose proof (runMemoryCallback_effect c m s) as Heff.
    rewrite Hs1 in Heff. simpl in Heff.
    destruct (IH (S i) s1) as (s2 & Hs2 & Hn).
    + unfold entryAt. rewrite (ce_heap _ _ Heff). exact Hm.
    + eapply Forall_impl; [exact Hcs|]. intros c'.
      apply callbackOk_sameFrames, (ce_frames _ _ Heff).
    + exists s2. split; [|by econstructor].
      cbn [forEachFrom]. unfold bind at 1. unfold notify at 1.
      unfold bind, gets. rewrite Hm, Hs1. exact Hs2.
Qed.

Lemma Inv_fetched (id : nat) (result : arrayResult) (s s2 : State)
    (page size count : Z) (u f : bool) (l : nat) :
  Inv s ->
  requests s !! id = Some (ReadArrayRequest page size u f count (PageFetched l)) ->
  id ∉ answered s ->
  callbackEffect (stored id l result s) s2 ->
  Inv (emptied l s2).
Proof.
  intros HI Hreq Hans Heff.
  assert (Hfid : isFetchAt id l s).
  { eexists. split; [exact Hreq|]. simpl. apply Nat.eqb_refl. }
  assert (Hreq2 : requests s2 = requests s).
  { rewrite (ce_requests _ _ Heff). by destruct result. }
  assert (Hans2 : answered s2 = {[id]} ∪ answered s).
  { rewrite (ce_answered _ _ Heff). by destruct result. }
  assert (Hfr : Forall2 sameFrame (frames s) (frames s2)).
  { pose proof (ce_frames _ _ Heff) as H. by destruct result. }
  assert (Hheap : heap (emptied l s2) =
                  alter (setCallbacks [] ∘ storeResult result) l (heap s)).
  { unfold emptied. simpl. rewrite (ce_heap _ _ Heff), stored_heap.
    by rewrite list_alter_alter_eq. }
  assert (Hcache : cache s2 = cache s).
  { rewrite (ce_cache _ _ Heff). by destruct result. }
  destruct HI as [inv_cache inv_entries inv_requests inv_answered]. split.
  - intros p l'. change (cache (emptied l s2)) with (cache s2).
    rewrite Hcache, Hheap, length_alter. apply inv_cache.
  - intros l' e'. rewrite Hheap. intros He'.
    destruct (decide (l = l')) as [<-|Hne].
    + rewrite list_lookup_alter_eq in He'.
      destruct (heap s !! l) as [e|] eqn:He; [|done].
      simpl in He'. inversion He'; subst e'. clear He'.
      destruct (inv_entries l e He) as [eo_hits eo_inflight eo_buffer eo_callbacks eo_fetch eo_unique eo_answered].
      split; unfold fetchesOf, isFetchAt in *;
        change (requests (emptied l s2)) with (requests s2);
        change (answered (emptied l s2)) with (answered s2);
        change (frames (emptied l s2)) with (frames s2);
        rewrite ?Hreq2, ?Hans2; simpl; auto.
      * by destruct result.
      * by rewrite memory_storeResult.
      * rewrite memory_storeResult. intros b [= Hb].
        by apply (fetchedMemory_page result).
      * intros id' Hid'. rewrite memory_storeResult.
        rewrite (eo_unique id' id Hid' Hfid). split; [done|]. intros _.
        apply elem_of_union_l. by apply elem_of_singleton.
    + rewrite list_lookup_alter_ne in He' by done.
      destruct (inv_entries l' e' He') as [eo_hits eo_inflight eo_buffer eo_callbacks eo_fetch eo_unique eo_answered].
      split; unfold fetchesOf, isFetchAt in *;
        change (requests (emptied l s2)) with (requests s2);
        change (answered (emptied l s2)) with (answered s2);
        change (frames (emptied l s2)) with (frames s2);
        rewrite ?Hreq2, ?Hans2; auto.
      * eapply Forall_impl; [exact eo_callbacks|]. intros c.
        by apply callbackOk_sameFrames.
      * intros id' Hid'. rewrite <- (eo_answered id' Hid').
        rewrite elem_of_union, elem_of_singleton.
        split; [|by right]. intros [->|H]; [|done].
        destruct Hid' as (r' & Hr' & Hf'). rewrite Hreq in Hr'.
        inversion Hr'; subst r'. simpl in Hf'.
        apply Nat.eqb_eq in Hf'. congruence.
  - intros id' l'. unfold isFetchAt.
    change (requests (emptied l s2)) with (requests s2).
    rewrite Hreq2, Hheap, length_alter. apply inv_requests.
  - intros id'. change (answered (emptied l s2)) with (answered s2).
    change (requests (emptied l s2)) with (requests s2).
    rewrite Hreq2, Hans2, elem_of_union, elem_of_singleton.
    intros [->|H]; [by eapply lookup_lt_Some | by apply inv_answered].
Qed.

(** The turn in which the fetch of a page ends. *)
Lemma turn_fetched (id : nat) (result : arrayResult) (s : State)
    (page size count : Z) (u f : bool) (l : nat) :
  Inv s ->
  requests s !! id = Some (ReadArrayRequest page size u f count (PageFetched l)) ->
  id ∉ answered s ->
  exists s2,
    turn (ReadArrayDone id result) s = Ok tt (emptied l s2) /\
    notified (fetchedMemory result) (callbacks (entryAt l s))
      (stored id l result s) s2 /\
    Inv (emptied l s2).
Proof.
  intros HI Hreq Hans.
  assert (Hfid : isFetchAt id l s).
  { eexists. split; [exact Hreq|]. simpl. apply Nat.eqb_refl. }
  pose proof (inv_requests s HI id l Hfid) as Hl.
  destruct (lookup_lt_is_Some_2 (heap s) l Hl) as [e He].
  pose proof (inv_entries s HI l e He) as Hok.
  rewrite (turn_fetched_run id result s page size count u f l Hreq Hans).
  rewrite (stored_entry id l result s e He), callbacks_storeResult.
  rewrite (entryAt_lookup l s e He).
  destruct (notify_loop l (fetchedMemory result) (callbacks e) 0
              (stored id l result s)) as (s2 & Hs2 & Hn).
  - by rewrite (stored_entry id l result s e He), memory_storeResult.
  - apply fetchedMemory_page.
  - replace (frames (stored id l result s)) with (frames s)
      by (by destruct result).
    apply (eo_callbacks _ _ _ Hok).
  - unfold forEach. rewrite Hs2. exists s2. split; [done|]. split; [done|].
    eapply Inv_fetched; eauto using notified_effect.
Qed.

(** *** Every turn keeps the invariant and raises nothing *)

Lemma turn_ok (o : op) (s : State) :
  Inv s -> exists s', turn o s = Ok tt s' /\ Inv s'.
Proof.
  intros HI. destruct o as [a cb|a sz u f cb|a sz u f n cb| |id result|id x].
  - by apply readPointer_ok.
  - by apply readNumber_ok.
  - by apply readArray_ok.
  - eexists. split; [reflexivity|]. by apply Inv_clearCache.
  - destruct (requests s !! id) as [[a sz u f n [l|c|a' c]| |]|] eqn:E;
      try (rewrite turn_fetched_skip;
           [eauto | left; intros; rewrite E; congruence]).
    destruct (decide (id ∈ answered s)) as [Hin|Hnin].
    + rewrite turn_fetched_skip by (by right). eauto.
    + destruct (turn_fetched id result s a sz n u f l HI E Hnin)
        as (s2 & H1 & _ & H2). eauto.
  - unfold turn, bind, gets.
    destruct (requests s !! id) as [[| |[l|c|a' c]]|] eqn:E; try (by eauto).
    destruct (decide (id ∈ answered s)) as [Hin|Hnin].
    + rewrite bool_decide_eq_true_2 by done. eauto.
    + rewrite bool_decide_eq_false_2 by done. unfold markAnswered, modify.
      apply pointerSizeKnown_ok. destruct HI as [inv_cache inv_entries inv_requests inv_answered]. split; auto.
      * intros l e He. destruct (inv_entries l e He) as [eo_hits eo_inflight eo_buffer eo_callbacks eo_fetch eo_unique eo_answered]. split; auto.
        intros id' Hid'. rewrite <- (eo_answered id' Hid').
        simpl. rewrite elem_of_union, elem_of_singleton.
        split; [|by right]. intros [->|H]; [|done].
        destruct Hid' as (r' & Hr' & Hf'). simpl in Hr'. rewrite E in Hr'.
        inversion Hr'; subst r'. done.
      * intros id'. simpl. rewrite elem_of_union, elem_of_singleton.
        intros [->|H]; [by eapply lookup_lt_Some | by apply inv_answered].
Qed.

Lemma Inv_step (o : op) (s : State) : Inv s -> Inv (step o s).
Proof.
  intros HI. unfold step. destruct (turn_ok o s HI) as (s' & -> & HI'). done.
Qed.

Lemma Inv_run (ops : list op) (s : State) : Inv s -> Inv (run ops s).
Proof.
  revert s. induction ops as [|o ops IH]; intros s HI; [done|].
  simpl. apply IH. by apply Inv_step.
Qed.

Lemma reachable_Inv (s : State) : reachable s -> Inv s.
Proof. intros [ops ->]. apply Inv_run, Inv_init. Qed.

End Turns.

(** ** Continuations the module no longer holds *)

Section Silent.

Lemma keeps_ret {A} (I : State -> Prop) (a : A) : keeps I (ret a).
Proof. intros s H. exact H. Qed.

Lemma keeps_throw {A} (I : State -> Prop) : keeps I (@throw A).
Proof. intros s H. exact H. Qed.

Lemma keeps_gets {A} (I : State -> Prop) (g : State -> A) : keeps I (gets g).
Proof. intros s H. exact H. Qed.

Lemma keeps_modify (I : State -> Prop) (g : State -> State) :
  (forall s, I s -> I (g s)) -> keeps I (modify g).
Proof. intros Hg s H. by apply Hg. Qed.

Lemma keeps_bind {A B} (I : State -> Prop) (m : M A) (k : A -> M B) :
  keeps I m -> (forall a, keeps I (k a)) -> keeps I (bind m k).
Proof.
  intros Hm Hk s H. unfold bind. specialize (Hm s H).
  destruct (m s) as [a s'|s']; [by apply Hk | done].
Qed.

Lemma keeps_forEachFrom {A} (I : State -> Prop) (f : A -> nat -> M unit)
    (xs : list A) (i : nat) :
  (forall x j, x ∈ xs -> keeps I (f x j)) -> keeps I (forEachFrom i f xs).
Proof.
  revert i. induction xs as [|x xs IH]; intros i Hf; [apply keeps_ret|].
  cbn [forEachFrom]. apply keeps_bind; [apply Hf; by left|].
  intros _. apply IH. intros y j Hy. apply Hf. by right.
Qed.

Context (cb : userCallback) (calls : list result) (reads : list request).

Local Abbreviation I := (silent cb calls reads).

Lemma callsOf_emit (c : userCallback) (r : result) (s : State) :
  c <> cb -> callsOf cb (setTrace (trace s ++ [Called c r]) s) = callsOf cb s.
Proof.
  intros Hc. unfold callsOf. simpl. rewrite omap_app. simpl.
  destruct (Nat.eqb_spec c cb); [done|]. by rewrite app_nil_r.
Qed.

Lemma silent_emit (c : userCallback) (r : result) :
  c <> cb -> keeps I (emit (Called c r)).
Proof.
  intros Hc. apply keeps_modify. intros s [[q_number q_frame q_pointer] Hcalls Hreads].
  split; [by split | | done]. by rewrite callsOf_emit.
Qed.

Lemma silent_arrayLoaded (address itemSize count : Z) (c : userCallback)
    (views : list (option view)) :
  c <> cb -> keeps I (arrayLoaded address itemSize count c views).
Proof.
  intros Hc. unfold arrayLoaded. destruct (getOffset address itemSize).
  - by apply silent_emit.
  - apply keeps_throw.
Qed.

Lemma silent_numberLoaded (address size : Z) (c : userCallback) (w : view) :
  c <> cb -> keeps I (numberLoaded address size c w).
Proof.
  intros Hc. unfold numberLoaded. destruct w as [v b|e].
  - destruct (getOffset address size);
      [by apply silent_emit | apply keeps_throw].
  - by apply silent_emit.
Qed.

Lemma quiet_updateFrame (g : frame -> frame) (r : nat) (s : State) :
  (forall f, sameFrame f (g f)) ->
  quiet cb s -> quiet cb (setFrames (alter g r (frames s)) s).
Proof.
  intros Hg [q_number q_frame q_pointer]. split; auto. intros r' f'. simpl. intros Hf' Hcb.
  destruct (decide (r = r')) as [<-|Hne].
  - rewrite list_lookup_alter_eq in Hf'.
    destruct (frames s !! r) as [f|] eqn:Hf; [|done].
    simpl in Hf'. inversion Hf'; subst f'. destruct (Hg f) as [sf_eligible sf_remaining sf_address sf_itemSize sf_count sf_callback].
    destruct (q_frame r f Hf) as [H|H]; [congruence | left; congruence | right; lia].
  - rewrite list_lookup_alter_ne in Hf' by done. eauto.
Qed.

(** An activation record that holds [cb] is past firing, so [pageLoaded]
    only counts. *)
Lemma silent_pageLoaded (r i : nat) (w : view) : keeps I (pageLoaded r i w).
Proof.
  intros s [Hq Hcalls Hreads].
  unfold pageLoaded, bind, updateFrame, modify, gets.
  match goal with |- context [setFrames (alter ?g r (frames s)) s] =>
    set (G := g); set (s1 := setFrames (alter g r (frames s)) s)
  end.
  assert (H1 : I s1).
  { split; [|done|done]. apply quiet_updateFrame; [|done].
    intros f. split; simpl; (reflexivity || lia). }
  destruct (_ && _) eqn:Hfire; [|exact H1].
  apply andb_true_iff in Hfire as [Hrem Hel]. apply Z.eqb_eq in Hrem.
  apply silent_arrayLoaded; [|exact H1].
  intros Hcb. unfold frameAt, s1 in Hrem, Hel, Hcb. simpl in Hrem, Hel, Hcb.
  rewrite list_lookup_alter_eq in Hrem, Hel, Hcb.
  destruct (frames s !! r) as [f|] eqn:Hf; simpl in *; [|done].
  destruct (q_frame cb s Hq r f Hf Hcb) as [H|H]; [congruence | lia].
Qed.

Lemma silent_runPageCallback (c : pageCallback) (w : view) :
  ~ holds cb c -> keeps I (runPageCallback c w).
Proof.
  destruct c as [a sz c|r i]; simpl; intros H.
  - by apply silent_numberLoaded.
  - apply silent_pageLoaded.
Qed.

Lemma silent_runMemoryCallback (c : memoryCallback) (m : memoryValue) :
  ~ holds cb (mc_callback c) -> keeps I (runMemoryCallback c m).
Proof.
  intros H. unfold runMemoryCallback. destruct m as [b|e].
  - apply keeps_bind.
    + unfold newView. destruct (_ =? 0); [apply keeps_ret | apply keeps_throw].
    + intros w. by apply silent_runPageCallback.
  - by apply silent_runPageCallback.
Qed.

Lemma keeps_bind_gets {A B} (J : State -> Prop) (g : State -> A)
    (k : A -> M B) :
  (forall s, J s -> J (stateOf (k (g s) s))) -> keeps J (bind (gets g) k).
Proof. intros H s Hs. unfold bind, gets. by apply H. Qed.

Lemma quiet_heap (h : list cacheEntry) (s : State) :
  (forall l e k, h !! l = Some e -> k ∈ callbacks e ->
     ~ holds cb (mc_callback k)) ->
  quiet cb s -> quiet cb (setHeap h s).
Proof.
  intros Hh [q_number q_frame q_pointer]. split; auto. simpl. intros l e k a sz He Hk Heq.
  apply (Hh l e k He Hk). rewrite Heq. reflexivity.
Qed.

Lemma quiet_holds (s : State) (l : nat) (e : cacheEntry) (k : memoryCallback) :
  quiet cb s -> heap s !! l = Some e -> k ∈ callbacks e ->
  ~ holds cb (mc_callback k).
Proof.
  intros Hq He Hk Hh. destruct (mc_callback k) as [a sz c|r i] eqn:E; [|done].
  simpl in Hh. subst c. by apply (q_number cb s Hq l e k a sz).
Qed.

Lemma silent_updateEntry (l : nat) (g : cacheEntry -> cacheEntry) :
  (forall e k, k ∈ callbacks (g e) ->
     k ∈ callbacks e \/ ~ holds cb (mc_callback k)) ->
  keeps I (updateEntry l g).
Proof.
  intros Hg. apply keeps_modify. intros s [Hq Hc Hr].
  split; [|done|done]. apply quiet_heap; [|done].
  intros l' e' k He' Hk.
  destruct (decide (l = l')) as [<-|Hne].
  - rewrite list_lookup_alter_eq in He'.
    destruct (heap s !! l) as [e|] eqn:He; [|done].
    simpl in He'. inversion He'; subst e'.
    destruct (Hg e k Hk) as [H|H]; [|done]. eauto using quiet_holds.
  - rewrite list_lookup_alter_ne in He' by done. eauto using quiet_holds.
Qed.

Lemma silent_getCacheEntry (page : Z) : keeps I (getCacheEntry page).
Proof.
  unfold getCacheEntry. apply keeps_bind; [apply keeps_gets|].
  intros [l|]; [apply keeps_ret|].
  apply keeps_bind; [apply keeps_gets|]. intros l.
  apply keeps_bind.
  { apply keeps_modify. intros s [Hq Hc Hr]. split; [|done|done].
    apply quiet_heap; [|done]. intros l' e' k He' Hk.
    apply lookup_snoc_Some in He' as [[_ He']|[_ <-]];
      [eauto using quiet_holds|].
    simpl in Hk. by apply not_elem_of_nil in Hk. }
  intros _. apply keeps_bind; [|intros; apply keeps_ret].
  apply keeps_modify. intros s [[q_number q_frame q_pointer] Hc Hr]. by split.
Qed.

Lemma silent_callJsDbg (r : request) :
  isUncachedFor cb r = false ->
  (forall a, r <> GetPointerSizeRequest (PointerSizeKnown a cb)) ->
  keeps I (callJsDbg r).
Proof.
  intros Hu Hp. apply keeps_modify. intros s [[q_number q_frame q_pointer] Hc Hr]. split; [split| |]; auto.
  - intros id a. simpl. intros [[_ H]|[_ H]]%lookup_snoc_Some.
    + by apply (q_pointer id a).
    + by apply (Hp a).
  - unfold uncachedFor in *. simpl. rewrite List.filter_app. simpl.
    rewrite Hu. by rewrite app_nil_r.
Qed.

Lemma silent_push (l : nat) (c : memoryCallback) :
  ~ holds cb (mc_callback c) -> keeps I (updateEntry l (pushCallback c)).
Proof.
  intros Hc. apply silent_updateEntry. intros e k. simpl.
  intros [H|H%list_elem_of_singleton]%elem_of_app; [by left | right; by subst].
Qed.

(** [loadPage] for a continuation that does not hold [cb]. *)
Lemma silent_loadPage (page : Z) (viewer : option viewer) (c : pageCallback) :
  ~ holds cb c -> keeps I (loadPage page viewer c).
Proof.
  intros Hc. unfold loadPage. destruct viewer as [v|]; [|apply keeps_ret].
  apply keeps_bind; [apply silent_getCacheEntry|]. intros l.
  apply keeps_bind; [apply silent_updateEntry; intros e k; by left|].
  intros _. apply keeps_bind; [apply keeps_gets|]. intros e.
  destruct (memory e) as [m|].
  - apply keeps_bind; [by apply silent_runMemoryCallback | intros; apply keeps_ret].
  - destruct (_ =? _).
    + apply keeps_bind; [apply silent_updateEntry; intros e' k; by left|].
      intros _. apply keeps_bind; [by apply silent_push|].
      intros _. apply keeps_bind; [by apply silent_callJsDbg|].
      intros _. apply keeps_ret.
    + destruct (inflight e); [|apply keeps_ret].
      apply keeps_bind; [by apply silent_push | intros; apply keeps_ret].
Qed.

Lemma silent_readNumber (address size : Z) (u f : bool) (c : userCallback) :
  c <> cb -> keeps I (readNumber address size u f c).
Proof.
  intros Hc. unfold readNumber. apply keeps_bind; [by apply silent_loadPage|].
  intros [|]; simpl; [apply keeps_ret|].
  apply silent_callJsDbg; [|done]. simpl. by apply Nat.eqb_neq.
Qed.

Lemma silent_readPointer (address : Z) (c : userCallback) :
  c <> cb -> keeps I (readPointer address c).
Proof.
  intros Hc. unfold readPointer. apply keeps_bind; [apply keeps_gets|].
  intros [size|]; [by apply silent_readNumber|].
  apply silent_callJsDbg; [done|]. congruence.
Qed.

Lemma silent_updateFrame (r : nat) (g : frame -> frame) :
  (forall f, fr_callback (g f) = fr_callback f /\
             (areAllPagesEligible (g f) = false \/
              areAllPagesEligible (g f) = areAllPagesEligible f /\
              remainingViews (g f) <= remainingViews f)) ->
  keeps I (updateFrame r g).
Proof.
  intros Hg. apply keeps_modify. intros s [[q_number q_frame q_pointer] Hc Hr].
  split; [split|done|done]; auto.
  intros r' f'. simpl. intros Hf' Hcb.
  destruct (decide (r = r')) as [<-|Hne].
  - rewrite list_lookup_alter_eq in Hf'.
    destruct (frames s !! r) as [f|] eqn:Hf; [|done].
    simpl in Hf'. inversion Hf'; subst f'.
    destruct (Hg f) as [H1 [H2|[H2 H3]]]; [by left|].
    destruct (q_frame r f Hf) as [H|H];
      [congruence | left; congruence | right; lia].
  - rewrite list_lookup_alter_ne in Hf' by done. eauto.
Qed.

Lemma silent_requestPages (pages : list Z) (viewer : option viewer)
    (address itemSize count : Z) (c : userCallback) :
  c <> cb -> keeps I (requestPages pages viewer address itemSize count c).
Proof.
  intros Hc. unfold requestPages.
  apply keeps_bind; [apply keeps_gets|]. intros r.
  apply keeps_bind.
  { apply keeps_modify. intros s [[q_number q_frame q_pointer] Hcalls Hr].
    split; [split|done|done]; auto.
    intros r' f'. simpl. intros Hf' Hcb.
    apply lookup_snoc_Some in Hf' as [[_ H]|[_ <-]]; [eauto|].
    simpl in Hcb. congruence. }
  intros _. apply keeps_bind; [|intros; apply keeps_gets].
  apply keeps_forEachFrom. intros page j _.
  apply keeps_bind; [apply silent_loadPage; simpl; tauto|].
  intros [|]; simpl; [apply keeps_ret|].
  apply silent_updateFrame. intros f. simpl. auto.
Qed.

Lemma silent_readArray (address itemSize : Z) (u f : bool) (count : Z)
    (c : userCallback) :
  c <> cb -> keeps I (readArray address itemSize u f count c).
Proof.
  intros Hc. unfold readArray.
  apply keeps_bind; [by apply silent_requestPages|].
  intros [|]; simpl; [apply keeps_ret|].
  apply silent_callJsDbg; [|done]. simpl. by apply Nat.eqb_neq.
Qed.

Lemma silent_pageFetched (l : nat) (result : arrayResult) :
  keeps I (pageFetched l result).
Proof.
  unfold pageFetched. apply keeps_bind.
  { destruct result.
    - apply silent_updateEntry. intros e0 k. by left.
    - apply keeps_bind; [|intros _]; apply silent_updateEntry;
        intros e0 k; by left. }
  intros _. apply keeps_bind_gets. intros s Hs.
  assert (Hcs : forall k, k ∈ callbacks (entryAt l s) ->
                          ~ holds cb (mc_callback k)).
  { intros k. unfold entryAt. destruct (heap s !! l) as [e|] eqn:He; simpl.
    - destruct Hs as [Hq _ _]. eauto using quiet_holds.
    - intros H. by apply not_elem_of_nil in H. }
  refine (keeps_bind _ _ _ _ _ s Hs).
  - unfold forEach. apply keeps_forEachFrom. intros k j Hk.
    apply keeps_bind; [apply keeps_gets|]. intros e.
    destruct (memory e); [|apply keeps_throw].
    apply silent_runMemoryCallback. by apply Hcs.
  - intros _. apply silent_updateEntry. intros e k. simpl.
    intros H. by apply not_elem_of_nil in H.
Qed.

Lemma silent_turn (o : op) : ~ usesCallback cb o -> keeps I (turn o).
Proof.
  destruct o as [a c|a sz u f c|a sz u f n c| |id result|id x]; simpl; intros Ho.
  - by apply silent_readPointer.
  - by apply silent_readNumber.
  - by apply silent_readArray.
  - apply keeps_modify. intros s [[q_number q_frame q_pointer] Hc Hr]. by split.
  - apply keeps_bind; [apply keeps_gets|]. intros req.
    apply keeps_bind; [apply keeps_gets|]. intros done.
    destruct req as [[a sz u f n [l|c|a' c]| |]|], done; try apply keeps_ret.
    apply keeps_bind; [|intros _; apply silent_pageFetched].
    apply keeps_modify. intros s [[q_number q_frame q_pointer] Hc Hr]. by split.
  - apply keeps_bind_gets. intros s Hs.
    destruct (requests s !! id) as [req|] eqn:E; [|exact Hs].
    refine (keeps_bind _ _ _ (keeps_gets _ _) _ s Hs). intros done.
    destruct req as [| |[l|c|a c]], done; try apply keeps_ret.
    apply keeps_bind.
    { apply keeps_modify. intros s' [[q_number q_frame q_pointer] Hc Hr]. by split. }
    intros _. unfold pointerSizeKnown. apply keeps_bind.
    { apply keeps_modify. intros s' [[q_number q_frame q_pointer] Hc Hr]. by split. }
    intros _. apply silent_readPointer. intros ->.
    destruct Hs as [Hq _ _]. by apply (q_pointer cb s Hq id a).
Qed.

(** A continuation the module does not hold is never called, and no
    uncached read is issued for it, whatever turns follow. *)
Lemma silent_run (ops : list op) (s : State) :
  Forall (fun o => ~ usesCallback cb o) ops -> I s -> I (run ops s).
Proof.
  revert s. induction ops as [|o ops IH]; intros s Hops Hs; [done|].
  apply Forall_cons in Hops as [Ho Hops]. simpl.
  apply IH; [done|]. unfold step. by apply silent_turn.
Qed.

End Silent.

(** ** Array reads that do not go through the cache *)

Section Fallback.

Lemma pages_of_empty_aligned (address itemSize : Z) :
  Z.rem address PAGE_SIZE = 0 ->
  calculatePagesForArray address itemSize 0 = [].
Proof.
  intros H. rewrite calculatePagesForArray_unfold.
  rewrite pageCount_done; [done|]. unfold getPage. lia.
Qed.

Lemma silent_newFrame (cb : userCallback) (s : State) (f : frame) :
  quiet cb s ->
  areAllPagesEligible f = false \/ remainingViews f <= 0 ->
  silent cb (callsOf cb s) (uncachedFor cb s) (setFrames (frames s ++ [f]) s).
Proof.
  intros [q_number q_frame q_pointer] Hf. split; [split|done|done]; auto.
  intros r f'. simpl. intros Hf' Hcb.
  apply lookup_snoc_Some in Hf' as [[_ H]|[_ <-]]; eauto.
Qed.

(** In a state of the invariant only the capability gate declines. *)
Lemma loadPage_declined_viewer (page : Z) (viewer : option viewer)
    (pc : pageCallback) (s s' : State) :
  Inv s -> loadPage page viewer pc s = Ok false s' -> viewer = None.
Proof.
  intros HI H. destruct viewer as [v|]; [exfalso|done].
  destruct (cache s !! page) as [l|] eqn:Hc.
  - destruct (Inv_entry s page l HI Hc) as [He Hen].
    destruct (memory (entryAt l s)) as [m|] eqn:Hm.
    + rewrite (loadPage_served page v pc s l m) in H;
        eauto using lookup_lt_Some.
      by destruct (runMemoryCallback _ _ _).
    + by rewrite (loadPage_pending page v pc s l) in H.
  - by rewrite loadPage_fresh in H.
Qed.

End Fallback.

(** C10. An array read of no elements at a page-aligned address spans no
    page. The call returns normally having touched neither the trace nor
    the request log, and, provided the continuation it was given is one the
    module did not hold before, the module never calls that continuation and
    never issues an uncached read for it in any later turn: the call
    delivers no result at all. *)
Theorem C10_empty_aligned_read_is_silent (s : State) (address itemSize : Z)
    (isUnsigned isFloat : bool) (cb : userCallback) (ops : list op) :
  Z.rem address PAGE_SIZE = 0 ->
  quiet cb s ->
  Forall (fun o => ~ usesCallback cb o) ops ->
  calculatePagesForArray address itemSize 0 = [] /\
  exists s1,
    turn (CallReadArray address itemSize isUnsigned isFloat 0 cb) s = Ok tt s1 /\
    trace s1 = trace s /\ requests s1 = requests s /\
    callsOf cb (run ops s1) = callsOf cb s /\
    uncachedFor cb (run ops s1) = uncachedFor cb s.
Proof.
  intros Hal Hq Hops.
  pose proof (pages_of_empty_aligned address itemSize Hal) as Hpages.
  split; [done|].
  set (s1 := setFrames (frames s ++ [newFrame [] address itemSize 0 cb]) s).
  assert (Hturn : turn (CallReadArray address itemSize isUnsigned isFloat 0 cb) s
                  = Ok tt s1).
  { simpl. unfold readArray. unfold bind at 1.
    rewrite requestPages_run, Hpages. cbn [forEachFrom ret].
    unfold frameAt. cbn [frames setFrames].
    rewrite lookup_app_r by lia. rewrite Nat.sub_diag. reflexivity. }
  exists s1. split; [done|]. split; [done|]. split; [done|].
  destruct (silent_run cb (callsOf cb s) (uncachedFor cb s) ops s1 Hops)
    as [_ Hc Hr]; [|done].
  apply silent_newFrame; [done|]. right. simpl. lia.
Qed.

Lemma C10_witness :
  calculatePagesForArray 8192 4 0 = [] /\
  exists s1,
    turn (CallReadArray 8192 4 true false 0 7%nat) init = Ok tt s1 /\
    trace s1 = trace init /\ requests s1 = requests init /\
    callsOf 7%nat
      (run [CallReadNumber 8192 4 true false 1%nat;
            ReadArrayDone 0 (ArrayData [5]); BreakFired] s1) =
    callsOf 7%nat init /\
    uncachedFor 7%nat
      (run [CallReadNumber 8192 4 true false 1%nat;
            ReadArrayDone 0 (ArrayData [5]); BreakFired] s1) =
    uncachedFor 7%nat init.
Proof.
  apply (C10_empty_aligned_read_is_silent init 8192 4 true false 7%nat).
  - reflexivity.
  - split; simpl; intros; rewrite lookup_nil in *; congruence.
  - repeat constructor; simpl; (lia || tauto).
Defined.

(** C3. In a reachable state, when [loadPage] declines one of the pages an
    array read spans, the read issues exactly one call on JsDbg, the
    uncached read of the whole range with the client's own continuation,
    and the cache never calls that continuation itself, in this turn or in
    any later one: the continuation that assembles a result from cached
    pages does not run. *)
Theorem C3_declined_page_falls_back (s : State) (address itemSize : Z)
    (isUnsigned isFloat : bool) (count : Z) (cb : userCallback)
    (ops : list op) (i : nat) (page : Z) (sd : State) :
  reachable s ->
  quiet cb s ->
  Forall (fun o => ~ usesCallback cb o) ops ->
  calculatePagesForArray address itemSize count !! i = Some page ->
  loadPage page (getArrayViewer itemSize isUnsigned isFloat)
    (PageLoaded (length (frames s)) i) s = Ok false sd ->
  let uncached :=
    ReadArrayRequest address itemSize isUnsigned isFloat count (Client cb) in
  exists s1,
    turn (CallReadArray address itemSize isUnsigned isFloat count cb) s
      = Ok tt s1 /\
    trace s1 = trace s /\
    requests s1 = requests s ++ [uncached] /\
    callsOf cb (run ops s1) = callsOf cb s /\
    uncachedFor cb (run ops s1) = uncachedFor cb s ++ [uncached].
Proof.
  intros Hreach Hq Hops Hpage Hdecl uncached.
  apply reachable_Inv in Hreach.
  apply (loadPage_declined_viewer _ _ _ _ _ Hreach) in Hdecl.
  set (pages := calculatePagesForArray address itemSize count) in *.
  set (f := ineligible (newFrame pages address itemSize count cb)).
  set (s0 := setFrames (frames s ++ [f]) s).
  set (s1 := setRequests (requests s0 ++ [uncached]) s0).
  assert (Hturn :
    turn (CallReadArray address itemSize isUnsigned isFloat count cb) s
    = Ok tt s1).
  { simpl. unfold readArray. unfold bind at 1. rewrite Hdecl.
    rewrite requestPages_None. fold pages.
    destruct pages as [|p ps]; [by rewrite lookup_nil in Hpage|].
    reflexivity. }
  exists s1. split; [done|]. split; [done|]. split; [done|].
  assert (H0 : silent cb (callsOf cb s) (uncachedFor cb s) s0).
  { apply silent_newFrame; [done|]. by left. }
  assert (H1 : silent cb (callsOf cb s) (uncachedFor cb s ++ [uncached]) s1).
  { destruct H0 as [[q_number q_frame q_pointer] Hc Hr]. split; [split| |]; auto.
    - intros id a. simpl. intros [[_ H]|[_ H]]%lookup_snoc_Some; [|done].
      by apply (q_pointer id a).
    - unfold uncachedFor in *. simpl. rewrite List.filter_app. simpl.
      rewrite Nat.eqb_refl. reflexivity. }
  by destruct (silent_run cb _ _ ops s1 Hops H1).
Qed.

Lemma C3_witness :
  exists s1,
    turn (CallReadArray 4090 3 true false 4 7%nat) init = Ok tt s1 /\
    trace s1 = trace init /\
    requests s1 = requests init ++
      [ReadArrayRequest 4090 3 true false 4 (Client 7%nat)] /\
    callsOf 7%nat (run [CallReadNumber 4090 2 true false 1%nat;
                        ReadArrayDone 1 (ArrayData [5])] s1) =
    callsOf 7%nat init /\
    uncachedFor 7%nat (run [CallReadNumber 4090 2 true false 1%nat;
                            ReadArrayDone 1 (ArrayData [5])] s1) =
    uncachedFor 7%nat init ++
      [ReadArrayRequest 4090 3 true false 4 (Client 7%nat)].
Proof.
  apply (C3_declined_page_falls_back init 4090 3 true false 4 7%nat
           [CallReadNumber 4090 2 true false 1%nat;
            ReadArrayDone 1 (ArrayData [5])] 1%nat 4096 init).
  - by exists [].
  - split; simpl; intros; rewrite lookup_nil in *; congruence.
  - repeat constructor; simpl; (lia || tauto).
  - reflexivity.
  - reflexivity.
Defined.

(** ** What stays once a fetch has ended *)

Section Settled.

Context (p : Z) (l : nat) (m : memoryValue).

Local Abbreviation J := (settled p l m).

Lemma settled_ext (s s' : State) :
  heap s' = heap s -> cache s' = cache s -> J s -> J s'.
Proof. intros Hh Hc [Hcache Hmem]. split; by rewrite ?Hh, ?Hc. Qed.

Lemma settled_updateEntry (l' : nat) (g : cacheEntry -> cacheEntry) :
  (forall e, memory (g e) = memory e) \/ l' <> l ->
  keeps J (updateEntry l' g).
Proof.
  intros Hg. apply keeps_modify. intros s [Hc (e & He & Hm)].
  split; [done|]. simpl.
  destruct (decide (l' = l)) as [->|Hne].
  - destruct Hg as [Hg|Hg]; [|done]. exists (g e).
    rewrite list_lookup_alter_eq, He. split; [done|]. by rewrite Hg.
  - exists e. by rewrite list_lookup_alter_ne.
Qed.

Lemma settled_getCacheEntry (page : Z) : keeps J (getCacheEntry page).
Proof.
  intros s [Hc (e & He & Hm)]. rewrite getCacheEntry_run. simpl.
  unfold withEntry. destruct (cache s !! page) eqn:E; [by split; eauto|].
  split; simpl.
  - rewrite lookup_insert_ne; [done|]. congruence.
  - exists e. split; [by apply lookup_app_l_Some | done].
Qed.

Lemma settled_effect (c : memoryCallback) (m' : memoryValue) :
  keeps J (runMemoryCallback c m').
Proof.
  intros s Hs. destruct (runMemoryCallback_effect c m' s) as [ce_pointerSize ce_cache ce_heap ce_requests ce_answered ce_frames ce_trace].
  by apply (settled_ext s).
Qed.

Lemma settled_frame (g : State -> State) :
  (forall s, heap (g s) = heap s /\ cache (g s) = cache s) ->
  keeps J (modify g).
Proof.
  intros Hg. apply keeps_modify. intros s Hs. destruct (Hg s).
  by apply (settled_ext s).
Qed.

Lemma settled_loadPage (page : Z) (viewer : option viewer) (c : pageCallback) :
  keeps J (loadPage page viewer c).
Proof.
  unfold loadPage. destruct viewer as [v|]; [|apply keeps_ret].
  apply keeps_bind; [apply settled_getCacheEntry|]. intros l'.
  apply keeps_bind; [apply settled_updateEntry; by left|].
  intros _. apply keeps_bind; [apply keeps_gets|]. intros e.
  destruct (memory e) as [m'|].
  - apply keeps_bind; [apply settled_effect | intros; apply keeps_ret].
  - destruct (_ =? _).
    + apply keeps_bind; [apply settled_updateEntry; by left|].
      intros _. apply keeps_bind; [apply settled_updateEntry; by left|].
      intros _. apply keeps_bind; [by apply settled_frame|].
      intros _. apply keeps_ret.
    + destruct (inflight e); [|apply keeps_ret].
      apply keeps_bind; [apply settled_updateEntry; by left|].
      intros; apply keeps_ret.
Qed.

Lemma settled_readNumber (address size : Z) (u f : bool) (c : userCallback) :
  keeps J (readNumber address size u f c).
Proof.
  unfold readNumber. apply keeps_bind; [apply settled_loadPage|].
  intros [|]; simpl; [apply keeps_ret | by apply settled_frame].
Qed.

Lemma settled_readPointer (address : Z) (c : userCallback) :
  keeps J (readPointer address c).
Proof.
  unfold readPointer. apply keeps_bind; [apply keeps_gets|].
  intros [size|]; [apply settled_readNumber | by apply settled_frame].
Qed.

Lemma settled_readArray (address itemSize : Z) (u f : bool) (count : Z)
    (c : userCallback) :
  keeps J (readArray address itemSize u f count c).
Proof.
  unfold readArray. apply keeps_bind.
  - unfold requestPages. apply keeps_bind; [apply keeps_gets|]. intros r.
    apply keeps_bind; [by apply settled_frame|]. intros _.
    apply keeps_bind; [|intros; apply keeps_gets].
    apply keeps_forEachFrom. intros page j _.
    apply keeps_bind; [apply settled_loadPage|].
    intros [|]; simpl; [apply keeps_ret | by apply settled_frame].
  - intros [|]; simpl; [apply keeps_ret | by apply settled_frame].
Qed.

Lemma settled_pageFetched (l' : nat) (result : arrayResult) :
  l' <> l -> keeps J (pageFetched l' result).
Proof.
  intros Hne. unfold pageFetched. apply keeps_bind.
  { destruct result.
    - apply settled_updateEntry. by right.
    - apply keeps_bind; [|intros _]; apply settled_updateEntry; by right. }
  intros _. apply keeps_bind; [apply keeps_gets|]. intros e.
  apply keeps_bind.
  - unfold forEach. apply keeps_forEachFrom. intros k j _.
    apply keeps_bind; [apply keeps_gets|]. intros e'.
    destruct (memory e'); [apply settled_effect | apply keeps_throw].
  - intros _. apply settled_updateEntry. by right.
Qed.

(** No turn but the break listener's undoes what a finished fetch left. *)
Lemma settled_step (o : op) (s : State) :
  Inv s -> o <> BreakFired -> J s -> J (step o s).
Proof.
  intros HI Ho Hs. unfold step.
  destruct o as [a c|a sz u f c|a sz u f n c| |id result|id x]; simpl.
  - by apply settled_readPointer.
  - by apply settled_readNumber.
  - by apply settled_readArray.
  - done.
  - unfold bind, gets.
    destruct (requests s !! id) as [[a sz u f n [l'|c|a' c]| |]|] eqn:E;
      try exact Hs.
    destruct (bool_decide (id ∈ answered s)) eqn:Hans; [exact Hs|].
    apply bool_decide_eq_false in Hans.
    unfold markAnswered, modify.
    apply settled_pageFetched; [|apply (settled_ext s); done].
    intros ->. destruct Hs as [_ (e & He & Hm)].
    pose proof (inv_entries s HI l e He) as Hok.
    apply Hans. apply (eo_answered s l e Hok id); [|congruence].
    eexists. split; [exact E|]. simpl. apply Nat.eqb_refl.
  - unfold bind, gets.
    destruct (requests s !! id) as [[| |[l'|c|a c]]|] eqn:E; try exact Hs.
    destruct (bool_decide (id ∈ answered s)); [exact Hs|].
    unfold markAnswered, modify, pointerSizeKnown, bind.
    apply settled_readPointer. apply (settled_ext s); done.
Qed.

Lemma settled_run (ops : list op) (s : State) :
  Inv s -> Forall (fun o => o <> BreakFired) ops -> J s -> J (run ops s).
Proof.
  revert s. induction ops as [|o ops IH]; intros s HI Hops Hs; [done|].
  apply Forall_cons in Hops as [Ho Hops]. simpl.
  apply IH; [by apply Inv_step | done | by apply settled_step].
Qed.

End Settled.

(** ** Coalescing, fan-out and errors *)

Section Coalescing.

Lemma Inv_pending (s : State) (id l : nat) (e : cacheEntry) :
  Inv s -> isFetchAt id l s -> id ∉ answered s -> heap s !! l = Some e ->
  memory e = None.
Proof.
  intros HI Hid Hans He. pose proof (inv_entries s HI l e He) as Hok.
  destruct (memory e) eqn:Hm; [|done].
  destruct Hans. apply (eo_answered s l e Hok id Hid). congruence.
Qed.

Lemma entryAt_enqueue (l : nat) (c : memoryCallback) (s : State) (e : cacheEntry) :
  heap s !! l = Some e ->
  entryAt l (enqueue l c s) = pushCallback c e.
Proof. intros He. unfold enqueue. by apply entryAt_alter. Qed.

(** Queued continuations of [readNumber] call their clients in the order
    of the queue. *)
Lemma notified_trace (m : memoryValue) (cs : list memoryCallback)
    (s s' : State) :
  notified m cs s s' -> Forall isNumberLoaded cs ->
  trace s' = trace s ++ flat_map (numberCall m) cs.
Proof.
  induction 1 as [s|c cs s s1 s2 Hrun _ IH]; intros Hcs.
  - simpl. by rewrite app_nil_r.
  - apply Forall_cons in Hcs as [(a & sz & cb & Hc) Hcs].
    rewrite (IH Hcs). cbn [flat_map]. rewrite app_assoc. f_equal.
    unfold numberCall. rewrite Hc.
    unfold runMemoryCallback in Hrun. rewrite Hc in Hrun.
    destruct m as [b|e].
    + unfold bind, newView in Hrun.
      destruct (_ =? 0); [|discriminate Hrun].
      simpl in Hrun. destruct (getOffset a sz); [|discriminate Hrun].
      by inversion Hrun.
    + simpl in Hrun. by inversion Hrun.
Qed.

(** The turn in which JsDbg answers the fetch of a page, in full. *)
Lemma fetch_answered (s : State) (id : nat)
    (page size count : Z) (u f : bool) (l : nat) (result : arrayResult) :
  Inv s ->
  requests s !! id =
    Some (ReadArrayRequest page size u f count (PageFetched l)) ->
  id ∉ answered s ->
  (exists s0,
     turn (ReadArrayDone id result) s = Ok tt (emptied l s0) /\
     notified (fetchedMemory result) (callbacks (entryAt l s))
       (stored id l result s) s0 /\
     memory (entryAt l (stored id l result s)) = Some (fetchedMemory result) /\
     memory (entryAt l (emptied l s0)) = Some (fetchedMemory result) /\
     callbacks (entryAt l (emptied l s0)) = [] /\
     (Forall isNumberLoaded (callbacks (entryAt l s)) ->
      trace (emptied l s0) =
      trace s ++
      flat_map (numberCall (fetchedMemory result)) (callbacks (entryAt l s)))) /\
  (forall c, callbacks (entryAt l (enqueue l c s)) =
             callbacks (entryAt l s) ++ [c]).
Proof.
  intros HI Hreq Hans.
  assert (Hfid : isFetchAt id l s).
  { eexists. split; [exact Hreq|]. simpl. apply Nat.eqb_refl. }
  pose proof (inv_requests s HI id l Hfid) as Hl.
  destruct (lookup_lt_is_Some_2 (heap s) l Hl) as [e He].
  split.
  - destruct (turn_fetched id result s page size count u f l HI Hreq Hans)
      as (s0 & Hturn & Hn & _).
    exists s0. split; [done|]. split; [done|].
    pose proof (notified_effect _ _ _ _ Hn) as Heff.
    assert (Hst : entryAt l (stored id l result s) = storeResult result e)
      by (by apply stored_entry).
    split; [by rewrite Hst, memory_storeResult|].
    assert (He0 : heap s0 !! l = Some (storeResult result e)).
    { rewrite (ce_heap _ _ Heff), stored_heap, list_lookup_alter_eq, He. done. }
    unfold emptied. rewrite (entryAt_alter _ _ _ _ He0). simpl.
    split; [by rewrite memory_storeResult|]. split; [done|].
    intros Hnum. rewrite (notified_trace _ _ _ _ Hn Hnum).
    by destruct result.
  - intros c. rewrite (entryAt_enqueue l c s e He).
    by rewrite (entryAt_lookup l s e He).
Qed.

End Coalescing.

(** C2. In every reachable state each cache entry has had exactly one page
    fetch issued for it, however many reads came before. The first touch
    of a page that has no entry creates the entry, queues the caller and
    issues that one fetch of the whole page; a touch that arrives while the
    fetch is unanswered is accepted, appends the caller to the queue of the
    entry, and issues no call on JsDbg. *)
Theorem C2_one_fetch_per_entry (s : State) :
  reachable s ->
  (forall l, (l < length (heap s))%nat -> fetchesOf l s = 1%nat) /\
  (forall page v pc,
     cache s !! page = None ->
     exists s',
       loadPage page (Some v) pc s = Ok true s' /\
       requests s' = requests s ++
         [ReadArrayRequest page RETRIEVAL_SIZE true false
            (PAGE_SIZE / RETRIEVAL_SIZE) (PageFetched (length (heap s)))] /\
       cache s' !! page = Some (length (heap s)) /\
       callbacks (entryAt (length (heap s)) s') = [MemoryCallback v pc] /\
       fetchesOf (length (heap s)) s' = 1%nat) /\
  (forall page l id v pc,
     cache s !! page = Some l -> isFetchAt id l s -> id ∉ answered s ->
     exists s',
       loadPage page (Some v) pc s = Ok true s' /\
       requests s' = requests s /\ trace s' = trace s /\
       cache s' = cache s /\ answered s' = answered s /\
       callbacks (entryAt l s') =
         callbacks (entryAt l s) ++ [MemoryCallback v pc] /\
       fetchesOf l s' = 1%nat).
Proof.
  intros Hreach. apply reachable_Inv in Hreach as HI. split; [|split].
  - intros l Hl. destruct (lookup_lt_is_Some_2 (heap s) l Hl) as [e He].
    apply (eo_fetch s l e (inv_entries s HI l e He)).
  - intros page v pc Hnone. rewrite loadPage_fresh by done.
    eexists. split; [done|].
    assert (Hfresh : forall id, ~ isFetchAt id (length (heap s)) s).
    { intros id Hid. apply (inv_requests s HI) in Hid. lia. }
    unfold issueFetch, enqueue, touch, withEntry. rewrite Hnone.
    cbn [requests heap cache setRequests setHeap setCache].
    rewrite !alter_snoc. split; [done|]. split; [by rewrite lookup_insert_eq|].
    split.
    + unfold entryAt. cbn [heap setRequests setHeap].
      rewrite lookup_app_r by lia. by rewrite Nat.sub_diag.
    + unfold fetchesOf. cbn [requests setRequests].
      rewrite List.filter_app, length_app.
      fold (fetchesOf (length (heap s)) s). rewrite fetchesOf_none by done.
      simpl. by rewrite Nat.eqb_refl.
  - intros page l id v pc Hc Hid Hans.
    destruct (Inv_entry s page l HI Hc) as [He Hok].
    pose proof (Inv_pending s id l _ HI Hid Hans He) as Hm.
    rewrite (loadPage_pending page v pc s l) by done.
    eexists. split; [done|]. repeat (split; [done|]). split.
    + rewrite (entryAt_enqueue l _ (touch l s) (setHits (hits (entryAt l s) + 1) (entryAt l s))).
      * done.
      * unfold touch. simpl. by rewrite list_lookup_alter_eq, He.
    + apply (eo_fetch s l _ Hok).
Qed.

Lemma C2_witness :
  fetchesOf 0
    (run [CallReadNumber 4096 4 true false 1%nat;
          CallReadNumber 4100 4 true false 2%nat;
          CallReadArray 4104 2 false false 3 3%nat] init) = 1%nat.
Proof.
  apply (proj1 (C2_one_fetch_per_entry _ (ex_intro _ _ eq_refl))).
  vm_compute. lia.
Defined.

(** C6. In a reachable state, when JsDbg answers the fetch of a page, with
    the data or with an error, the turn returns normally; it runs every
    continuation found in the queue of the entry, each once, in the order of
    the queue, each with the memory the entry now holds, and then leaves
    the queue empty; when the queue holds continuations of [readNumber]
    only, the calls on their clients are appended to the trace in the order
    of the queue. The order of the queue is the order of arrival, because a
    caller is queued at the end. *)
Theorem C6_waiters_notified_in_order (s : State) (id : nat)
    (page size count : Z) (u f : bool) (l : nat) (result : arrayResult) :
  reachable s ->
  requests s !! id =
    Some (ReadArrayRequest page size u f count (PageFetched l)) ->
  id ∉ answered s ->
  (exists s0,
     turn (ReadArrayDone id result) s = Ok tt (emptied l s0) /\
     notified (fetchedMemory result) (callbacks (entryAt l s))
       (stored id l result s) s0 /\
     memory (entryAt l (stored id l result s)) = Some (fetchedMemory result) /\
     memory (entryAt l (emptied l s0)) = Some (fetchedMemory result) /\
     callbacks (entryAt l (emptied l s0)) = [] /\
     (Forall isNumberLoaded (callbacks (entryAt l s)) ->
      trace (emptied l s0) =
      trace s ++
      flat_map (numberCall (fetchedMemory result)) (callbacks (entryAt l s)))) /\
  (forall c, callbacks (entryAt l (enqueue l c s)) =
             callbacks (entryAt l s) ++ [c]).
Proof.
  intros Hreach. apply fetch_answered. by apply reachable_Inv.
Qed.

Lemma C6_witness :
  reachable (run [CallReadNumber 4096 4 true false 1%nat;
                  CallReadNumber 4100 4 true false 2%nat;
                  CallReadNumber 4104 4 true false 3%nat] init) /\
  exists s0,
    turn (ReadArrayDone 0 (ArrayData [10; 11; 12]))
      (run [CallReadNumber 4096 4 true false 1%nat;
            CallReadNumber 4100 4 true false 2%nat;
            CallReadNumber 4104 4 true false 3%nat] init)
    = Ok tt (emptied 0 s0) /\
    trace (emptied 0 s0) =
      [Called 1%nat (ValueOf (JNumber 10));
       Called 2%nat (ValueOf (JNumber 11));
       Called 3%nat (ValueOf (JNumber 12))].
Proof.
  split; [by eexists|].
  destruct (C6_waiters_notified_in_order
              (run [CallReadNumber 4096 4 true false 1%nat;
                    CallReadNumber 4100 4 true false 2%nat;
                    CallReadNumber 4104 4 true false 3%nat] init)
              0 4096 4 1024 true false 0 (ArrayData [10; 11; 12]))
    as [(s0 & H1 & _ & _ & _ & _ & H2) _].
  - by eexists.
  - reflexivity.
  - vm_compute. intros H. discriminate H.
  - exists s0. split; [exact H1|]. rewrite H2.
    + reflexivity.
    + repeat constructor; by do 3 eexists.
Defined.

Section Errors.

Lemma readNumber_error (s : State) (address size : Z) (u f : bool)
    (v : viewer) (cb : userCallback) (l : nat) (x : errorObject) :
  (l < length (heap s))%nat ->
  cache s !! getPage address = Some l ->
  memory (entryAt l s) = Some (ErrorResult x) ->
  getArrayViewer size u f = Some v ->
  readNumber address size u f cb s =
  Ok tt (setTrace (trace s ++ [Called cb (ErrorOf x)]) (touch l s)).
Proof.
  intros Hl Hc Hm Hv. unfold readNumber. unfold bind. rewrite Hv.
  by rewrite (loadPage_served _ v _ s l (ErrorResult x)).
Qed.

Lemma settled_memory (p : Z) (l : nat) (m : memoryValue) (s : State) :
  settled p l m s -> memory (entryAt l s) = Some m.
Proof. intros [_ (e & He & Hm)]. by rewrite (entryAt_lookup l s e He). Qed.

End Errors.

(** C5. In a reachable state, when JsDbg answers the fetch of a page with
    an error, the turn returns normally and every continuation in the queue
    of the entry is run, in order, with that error object. For a page the
    entry is cached under, as long as the break listener does not run, the
    entry keeps that very error, the page stays cached in that entry, no
    second fetch is ever issued for the entry, and a later [readNumber] on
    the page calls its continuation with the same error object in the same
    turn and makes no call on JsDbg. The continuation that assembles an
    array reports the first error in page order and no array as soon as one
    page carries an error. *)
Theorem C5_fetch_error_is_kept (s : State) (id : nat)
    (page size count : Z) (u f : bool) (l : nat) (x : errorObject) :
  reachable s ->
  requests s !! id =
    Some (ReadArrayRequest page size u f count (PageFetched l)) ->
  id ∉ answered s ->
  exists s0,
    turn (ReadArrayDone id (ArrayError x)) s = Ok tt (emptied l s0) /\
    notified (ErrorResult x) (callbacks (entryAt l s))
      (stored id l (ArrayError x) s) s0 /\
    memory (entryAt l (emptied l s0)) = Some (ErrorResult x) /\
    (forall p ops,
       cache s !! p = Some l ->
       Forall (fun o => o <> BreakFired) ops ->
       let s2 := run ops (emptied l s0) in
       memory (entryAt l s2) = Some (ErrorResult x) /\
       cache s2 !! p = Some l /\
       fetchesOf l s2 = 1%nat /\
       forall address sz u' f' v cb,
         getPage address = p -> getArrayViewer sz u' f' = Some v ->
         exists s3,
           readNumber address sz u' f' cb s2 = Ok tt s3 /\
           trace s3 = trace s2 ++ [Called cb (ErrorOf x)] /\
           requests s3 = requests s2) /\
    (forall index cnt views x',
       firstErrorOf views = Some x' ->
       assembled (assemble index cnt views) = ErrorOf x').
Proof.
  intros Hreach Hreq Hans.
  apply reachable_Inv in Hreach as HI.
  destruct (fetch_answered s id page size count u f l (ArrayError x)
              HI Hreq Hans)
    as [(s0 & Hturn & Hn & _ & Hmem & _ & _) _].
  exists s0. split; [done|]. split; [done|]. split; [done|]. split.
  - intros p ops Hp Hops s2.
    assert (HI1 : Inv (emptied l s0)).
    { pose proof (Inv_step (ReadArrayDone id (ArrayError x)) s HI) as H.
      unfold step in H. by rewrite Hturn in H. }
    assert (Hset : settled p l (ErrorResult x) (emptied l s0)).
    { pose proof (notified_effect _ _ _ _ Hn) as Heff.
      split.
      - change (cache (emptied l s0)) with (cache s0).
        by rewrite (ce_cache _ _ Heff).
      - pose proof (inv_cache s HI p l Hp) as Hl.
        assert (Hl' : (l < length (heap (emptied l s0)))%nat).
        { unfold emptied. simpl.
          by rewrite length_alter, (ce_heap _ _ Heff), stored_heap, length_alter. }
        destruct (lookup_lt_is_Some_2 _ l Hl') as [e He].
        exists e. split; [done|]. by rewrite <- (entryAt_lookup _ _ _ He). }
    pose proof (settled_run p l _ ops _ HI1 Hops Hset) as Hset2.
    pose proof (Inv_run ops _ HI1) as HI2. fold s2 in Hset2, HI2.
    pose proof (settled_memory _ _ _ _ Hset2) as Hm2.
    destruct Hset2 as [Hc2 (e2 & He2 & _)].
    split; [done|]. split; [done|]. split.
    + apply (eo_fetch s2 l e2 (inv_entries s2 HI2 l e2 He2)).
    + intros address sz u' f' v cb Hpage Hv. subst p.
      rewrite (readNumber_error s2 address sz u' f' v cb l x);
        eauto using lookup_lt_Some.
  - intros index cnt views x' Hfirst. rewrite assembled_error. by rewrite Hfirst.
Qed.

Lemma C5_witness :
  reachable (run [CallReadNumber 4096 4 true false 1%nat;
                  CallReadNumber 4100 2 false false 2%nat] init) /\
  exists s0,
    turn (ReadArrayDone 0 (ArrayError 99))
      (run [CallReadNumber 4096 4 true false 1%nat;
            CallReadNumber 4100 2 false false 2%nat] init)
    = Ok tt (emptied 0 s0) /\
    memory (entryAt 0 (emptied 0 s0)) = Some (ErrorResult 99).
Proof.
  split; [by eexists|].
  destruct (C5_fetch_error_is_kept
              (run [CallReadNumber 4096 4 true false 1%nat;
                    CallReadNumber 4100 2 false false 2%nat] init)
              0 4096 4 1024 true false 0 99)
    as (s0 & H1 & _ & H2 & _).
  - by eexists.
  - reflexivity.
  - vm_compute. intros H. discriminate H.
  - exists s0. by split.
Defined.

(** ** The pointer width *)

Section PointerWidth.

Context (size : Z).

Local Abbreviation W := (widthKnown size).

Lemma width_frame (g : State -> State) :
  (forall s, pointerSize (g s) = pointerSize s /\
             requests (g s) = requests s /\ answered (g s) = answered s) ->
  keeps W (modify g).
Proof.
  intros Hg. apply keeps_modify. intros s [Hp Hi].
  destruct (Hg s) as (H1 & H2 & H3). split; rewrite ?H1, ?H2, ?H3; auto.
Qed.

Lemma width_callJsDbg (r : request) :
  (forall k, r <> GetPointerSizeRequest k) -> keeps W (callJsDbg r).
Proof.
  intros Hr. apply keeps_modify. intros s [Hp Hi]. split; [done|].
  intros id k. simpl. intros [[_ H]|[_ H]]%lookup_snoc_Some; [eauto|].
  by destruct (Hr k).
Qed.

Lemma width_effect (c : memoryCallback) (m : memoryValue) :
  keeps W (runMemoryCallback c m).
Proof.
  intros s [Hp Hi]. destruct (runMemoryCallback_effect c m s) as [ce_pointerSize ce_cache ce_heap ce_requests ce_answered ce_frames ce_trace].
  split; rewrite ?ce_pointerSize, ?ce_requests, ?ce_answered; auto.
Qed.

Lemma width_loadPage (page : Z) (viewer : option viewer) (c : pageCallback) :
  keeps W (loadPage page viewer c).
Proof.
  unfold loadPage. destruct viewer as [v|]; [|apply keeps_ret].
  apply keeps_bind.
  { unfold getCacheEntry. apply keeps_bind; [apply keeps_gets|].
    intros [l|]; [apply keeps_ret|].
    apply keeps_bind; [apply keeps_gets|]. intros l.
    apply keeps_bind; [by apply width_frame|]. intros _.
    apply keeps_bind; [by apply width_frame | intros; apply keeps_ret]. }
  intros l. apply keeps_bind; [by apply width_frame|].
  intros _. apply keeps_bind; [apply keeps_gets|]. intros e.
  destruct (memory e) as [m|].
  - apply keeps_bind; [apply width_effect | intros; apply keeps_ret].
  - destruct (_ =? _).
    + apply keeps_bind; [by apply width_frame|].
      intros _. apply keeps_bind; [by apply width_frame|].
      intros _. apply keeps_bind; [by apply width_callJsDbg|].
      intros _. apply keeps_ret.
    + destruct (inflight e); [|apply keeps_ret].
      apply keeps_bind; [by apply width_frame | intros; apply keeps_ret].
Qed.

Lemma width_readNumber (address sz : Z) (u f : bool) (c : userCallback) :
  keeps W (readNumber address sz u f c).
Proof.
  unfold readNumber. apply keeps_bind; [apply width_loadPage|].
  intros [|]; simpl; [apply keeps_ret | by apply width_callJsDbg].
Qed.

Lemma width_readPointer (address : Z) (c : userCallback) :
  keeps W (readPointer address c).
Proof.
  unfold readPointer. apply keeps_bind_gets. intros s Hs.
  destruct Hs as [Hp Hi] eqn:E. rewrite Hp. clear E.
  apply width_readNumber. by split.
Qed.

Lemma width_readArray (address itemSize : Z) (u f : bool) (count : Z)
    (c : userCallback) :
  keeps W (readArray address itemSize u f count c).
Proof.
  unfold readArray. apply keeps_bind.
  - unfold requestPages. apply keeps_bind; [apply keeps_gets|]. intros r.
    apply keeps_bind; [by apply width_frame|]. intros _.
    apply keeps_bind; [|intros; apply keeps_gets].
    apply keeps_forEachFrom. intros page j _.
    apply keeps_bind; [apply width_loadPage|].
    intros [|]; simpl; [apply keeps_ret | by apply width_frame].
  - intros [|]; simpl; [apply keeps_ret | by apply width_callJsDbg].
Qed.

Lemma width_pageFetched (l : nat) (result : arrayResult) :
  keeps W (pageFetched l result).
Proof.
  unfold pageFetched. apply keeps_bind.
  { destruct result.
    - by apply width_frame.
    - apply keeps_bind; [|intros _]; by apply width_frame. }
  intros _. apply keeps_bind; [apply keeps_gets|]. intros e.
  apply keeps_bind.
  - unfold forEach. apply keeps_forEachFrom. intros k j _.
    apply keeps_bind; [apply keeps_gets|]. intros e'.
    destruct (memory e'); [apply width_effect | apply keeps_throw].
  - intros _. by apply width_frame.
Qed.

Lemma width_markAnswered (id : nat) : keeps W (markAnswered id).
Proof.
  apply keeps_modify. intros s [Hp Hi]. split; [done|].
  intros id' k H. simpl. apply elem_of_union_r. eauto.
Qed.

(** Once the width is known and no query is under way, no turn changes it
    or asks for it again. *)
Lemma width_turn (o : op) : keeps W (turn o).
Proof.
  destruct o as [a c|a sz u f c|a sz u f n c| |id result|id x]; simpl.
  - apply width_readPointer.
  - apply width_readNumber.
  - apply width_readArray.
  - by apply width_frame.
  - apply keeps_bind; [apply keeps_gets|]. intros req.
    apply keeps_bind; [apply keeps_gets|]. intros done.
    destruct req as [[a sz u f n [l|c|a' c]| |]|], done; try apply keeps_ret.
    apply keeps_bind; [apply width_markAnswered|].
    intros _. apply width_pageFetched.
  - apply keeps_bind_gets. intros s Hs.
    destruct (requests s !! id) as [req|] eqn:E; [|exact Hs].
    unfold bind, gets.
    destruct req as [| |k]; try exact Hs.
    destruct k as [l|c|a c]; try exact Hs.
    rewrite bool_decide_eq_true_2; [exact Hs|].
    destruct Hs as [_ Hi]. eauto.
Qed.

Lemma width_run (ops : list op) (s : State) : W s -> W (run ops s).
Proof.
  revert s. induction ops as [|o ops IH]; intros s Hs; [done|].
  simpl. apply IH. by apply width_turn.
Qed.

End PointerWidth.

(** C7. The break listener returns normally and leaves the cache empty
    while the pointer width, the heap of entry objects, the request log and
    the trace stay as they were. Right after it, the first touch of any
    page of a supported element kind is accepted into a new entry object,
    one that no earlier state had, with no memory, and issues the fetch
    of the page; nothing is delivered in that turn. The pointer width is
    assigned by the continuation of the width query alone: once it is
    known and no query is under way, it has the same value after any
    sequence of turns, invalidations included, and [readPointer] goes
    straight to [readNumber] with it. *)
Theorem C7_invalidation_frame (s : State) :
  (turn BreakFired s = Ok tt (step BreakFired s) /\
   cache (step BreakFired s) = ∅ /\
   pointerSize (step BreakFired s) = pointerSize s /\
   heap (step BreakFired s) = heap s /\
   requests (step BreakFired s) = requests s /\
   trace (step BreakFired s) = trace s) /\
  (forall page v pc,
     exists s2,
       loadPage page (Some v) pc (step BreakFired s) = Ok true s2 /\
       cache s2 !! page = Some (length (heap s)) /\
       entryAt (length (heap s)) s2 =
         {| hits := 1; memory := None; error := None; inflight := true;
            callbacks := [MemoryCallback v pc] |} /\
       requests s2 = requests s ++ [fetchRequest page (length (heap s))] /\
       trace s2 = trace s) /\
  (forall size ops,
     widthKnown size s ->
     pointerSize (run ops s) = Some size /\
     forall address cb,
       readPointer address cb (run ops s) =
       readNumber address size true false cb (run ops s)).
Proof.
  split; [|split].
  - by repeat split.
  - intros page v pc. rewrite loadPage_fresh by apply lookup_empty.
    eexists. split; [done|].
    unfold issueFetch, enqueue, touch, withEntry, step. simpl.
    rewrite lookup_empty. simpl. rewrite !alter_snoc.
    split; [by rewrite lookup_insert_eq|]. split; [|done].
    unfold entryAt. simpl. rewrite lookup_app_r by lia.
    by rewrite Nat.sub_diag.
  - intros size ops Hw. destruct (width_run size ops s Hw) as [Hp _].
    split; [done|]. intros address cb.
    unfold readPointer, bind, gets. by rewrite Hp.
Qed.

Lemma C7_witness :
  widthKnown 4
    (run [CallReadPointer 4096 1%nat; GetPointerSizeDone 0 (Some 4)] init) /\
  pointerSize
    (run [BreakFired; CallReadPointer 8192 2%nat; BreakFired]
       (run [CallReadPointer 4096 1%nat; GetPointerSizeDone 0 (Some 4)] init))
  = Some 4.
Proof.
  assert (Hw : widthKnown 4
    (run [CallReadPointer 4096 1%nat; GetPointerSizeDone 0 (Some 4)] init)).
  { split; [reflexivity|]. intros id k. vm_compute.
    destruct id as [|[|[|id]]]; intros H; inversion H. reflexivity. }
  split; [exact Hw|].
  apply (proj2 (proj2 (C7_invalidation_frame _)) 4 _ Hw).
Defined.

(** ** The assembled array *)

Section Assembled.

Lemma length_flat_map_viewElements (v : viewer) (buffers : list (list Z)) :
  Forall (fun b => length b = Z.to_nat PAGE_SIZE) buffers ->
  length (flat_map (viewElements v) buffers) =
  (length buffers * Z.to_nat (PAGE_SIZE / bytesPerElement v))%nat.
Proof.
  induction 1 as [|b bs Hb _ IH]; [done|].
  simpl. rewrite length_app, IH, length_viewElements.
  rewrite (viewLength_page v b Hb). lia.
Qed.

(** The pages an array spans hold at least [count] elements from the
    offset of its address on. *)
Lemma pages_capacity (address count : Z) (v : viewer) :
  0 <= address -> 0 <= count ->
  let size := bytesPerElement v in
  let offset := Z.quot (Z.rem address PAGE_SIZE) size in
  let n := Z.of_nat (length (calculatePagesForArray address size count)) in
  0 <= offset /\ offset < PAGE_SIZE / size /\
  offset + count <= n * (PAGE_SIZE / size).
Proof.
  intros Ha Hc size offset n.
  pose proof (bytesPerElement_pos v) as Hpos. fold size in Hpos.
  pose proof (bytesPerElement_divides_page v) as Hdiv. fold size in Hdiv.
  assert (Hm : 0 <= address mod PAGE_SIZE < PAGE_SIZE)
    by (apply Z.mod_pos_bound; reflexivity).
  assert (Hoff : offset = (address mod PAGE_SIZE) / size).
  { unfold offset. rewrite Z.rem_mod_nonneg by (done || reflexivity).
    apply Z.quot_div_nonneg; lia. }
  assert (Hlo : size * offset <= address mod PAGE_SIZE).
  { rewrite Hoff. apply Z.mul_div_le. lia. }
  assert (H0 : 0 <= offset) by (rewrite Hoff; apply Z.div_pos; lia).
  assert (Hn : address + size * count <=
               getPage address + PAGE_SIZE * n).
  { unfold n. rewrite calculatePagesForArray_unfold, length_map, length_seq.
    apply pageCount_covers. }
  assert (Hp : getPage address = address - address mod PAGE_SIZE).
  { unfold getPage. by rewrite Z.rem_mod_nonneg by (done || reflexivity). }
  set (L := PAGE_SIZE / size) in *.
  split; [done|]. split; nia.
Qed.

Lemma assembled_buffers (address itemSize count : Z) (u f : bool)
    (v : viewer) (buffers : list (list Z)) :
  0 <= address -> 0 <= count ->
  getArrayViewer itemSize u f = Some v ->
  length buffers = length (calculatePagesForArray address itemSize count) ->
  Forall (fun b => length b = Z.to_nat PAGE_SIZE) buffers ->
  let offset := Z.quot (Z.rem address PAGE_SIZE) itemSize in
  let xs := take (Z.to_nat count)
              (drop (Z.to_nat offset) (flat_map (viewElements v) buffers)) in
  getOffset address itemSize = Some offset /\
  assembled (assemble offset count (map (fun b => Some (ViewOf v b)) buffers))
    = ArrayOf xs /\
  Z.of_nat (length xs) = count.
Proof.
  intros Ha Hc Hv Hlen Hbuf offset xs.
  pose proof (getArrayViewer_size _ _ _ _ Hv) as Hsz. subst itemSize.
  pose proof (bytesPerElement_pos v) as Hpos.
  destruct (pages_capacity address count v Ha Hc) as (H0 & HL & Hcap).
  fold offset in H0, HL, Hcap. rewrite <- Hlen in Hcap.
  assert (Hoff : getOffset address (bytesPerElement v) = Some offset)
    by (apply getOffset_Some; lia).
  split; [done|]. split.
  - rewrite assemble_buffers; try done.
    destruct Hbuf as [|b bs Hb _]; [done|].
    rewrite (viewLength_page v b Hb). lia.
  - unfold xs. rewrite length_take, length_drop.
    rewrite (length_flat_map_viewElements v buffers Hbuf).
    assert (0 <= PAGE_SIZE / bytesPerElement v) by lia. nia.
Qed.

Lemma arraySet_next {A} (loaded : list (option A)) (k : nat) (x : A) :
  arraySet (length loaded) x (loaded ++ replicate (S k) None) =
  (loaded ++ [Some x]) ++ replicate k None.
Proof.
  unfold arraySet. rewrite length_app, length_replicate.
  destruct (Nat.ltb_spec (length loaded) (length loaded + S k)); [|lia].
  rewrite insert_app_r_alt by lia. rewrite Nat.sub_diag. simpl.
  by rewrite <- app_assoc.
Qed.

Lemma requestPage_warm (v : viewer) (r : nat) (page : Z) (i : nat)
    (s : State) (l : nat) (b : list Z) :
  (l < length (heap s))%nat ->
  cache s !! page = Some l ->
  memory (entryAt l s) = Some (Buffer b) ->
  length b = Z.to_nat PAGE_SIZE ->
  requestPage (Some v) r page i s = pageLoaded r i (ViewOf v b) (touch l s).
Proof.
  intros Hl Hc Hm Hb. unfold requestPage, bind.
  rewrite (loadPage_served page v _ s l (Buffer b)) by done.
  unfold runMemoryCallback, bind. rewrite newView_page by done.
  cbn [mc_viewer mc_callback runPageCallback].
  destruct (pageLoaded r i (ViewOf v b) (touch l s)) as [[] s2|s2]; reflexivity.
Qed.

Lemma pageLoaded_frameWith (r : nat) (w : view) (s : State)
    (loaded : list (option view)) (k : nat)
    (address itemSize count : Z) (cb : userCallback) :
  frames s !! r = Some (frameWith loaded (S k) address itemSize count cb) ->
  let s1 := setFrames
              (<[r := frameWith (loaded ++ [Some w]) k address itemSize count cb]>
                 (frames s)) s in
  pageLoaded r (length loaded) w s =
  match k with
  | O => arrayLoaded address itemSize count cb (loaded ++ [Some w]) s1
  | S _ => Ok tt s1
  end.
Proof.
  intros Hf s1. unfold pageLoaded, bind, updateFrame, modify, gets.
  match goal with |- context [setFrames (alter ?g r (frames s)) s] =>
    assert (Ha : alter g r (frames s) =
                 <[r := frameWith (loaded ++ [Some w]) k address itemSize count cb]>
                   (frames s))
  end.
  { apply list_eq. intros j. destruct (decide (r = j)) as [<-|Hne].
    - rewrite list_lookup_alter_eq, Hf.
      rewrite list_lookup_insert_eq by (by eapply lookup_lt_Some).
      cbn [fmap option_fmap option_map]. f_equal. unfold frameWith.
      cbn [areAllPagesEligible loadedViews remainingViews fr_address
           fr_itemSize fr_count fr_callback].
      rewrite arraySet_next. f_equal. lia.
    - by rewrite list_lookup_alter_ne, list_lookup_insert_ne. }
  rewrite Ha. fold s1.
  assert (Hfr : frameAt r s1 = frameWith (loaded ++ [Some w]) k address itemSize count cb).
  { unfold frameAt, s1. simpl.
    by rewrite list_lookup_insert_eq by (by eapply lookup_lt_Some). }
  rewrite Hfr. simpl. destruct k as [|k]; simpl.
  - by rewrite app_nil_r.
  - reflexivity.
Qed.
(** A read whose pages are all cached with bytes is served within the
    turn: every page hands its view to [pageLoaded] at once, and the last
    one completes the activation record. *)
Lemma warm_loop (v : viewer) (r : nat) (address itemSize count : Z)
    (cb : userCallback) (pages : list Z) (buffers : list (list Z)) :
  itemSize <> 0 ->
  forall (loaded : list (option view)) (s : State),
    frames s !! r =
      Some (frameWith loaded (length pages) address itemSize count cb) ->
    Forall2 (fun page b =>
               exists l, (l < length (heap s))%nat /\
                         cache s !! page = Some l /\
                         memory (entryAt l s) = Some (Buffer b) /\
                         length b = Z.to_nat PAGE_SIZE) pages buffers ->
    pages <> [] ->
    exists s' index,
      getOffset address itemSize = Some index /\
      forEachFrom (length loaded) (requestPage (Some v) r) pages s = Ok tt s' /\
      trace s' = trace s ++
        [Called cb (assembled (assemble index count
           (loaded ++ map (fun b => Some (ViewOf v b)) buffers)))] /\
      requests s' = requests s /\
      areAllPagesEligible (frameAt r s') = true.
Proof.
  intros Hsz. revert buffers.
  induction pages as [|page pages IH]; intros buffers loaded s Hf Hall Hne;
    [done|].
  inversion Hall as [|? b ? buffers' Hpb Hall']; subst. clear Hall.
  rename Hall' into Hall, buffers' into buffers.
  destruct Hpb as (l & Hl & Hc & Hm & Hb).
  cbn [forEachFrom]. unfold bind.
  rewrite (requestPage_warm v r page _ s l b Hl Hc Hm Hb).
  rewrite (pageLoaded_frameWith r (ViewOf v b) (touch l s) loaded (length pages)
             address itemSize count cb) by exact Hf.
  set (s1 := setFrames _ (touch l s)).
  destruct pages as [|p' ps].
  - inversion Hall; subst. cbn [length].
    destruct (arrayLoaded_ok address itemSize count cb
                (loaded ++ [Some (ViewOf v b)]) s1 Hsz) as (index & Hoff & ->).
    eexists. exists index. split; [done|]. split; [reflexivity|].
    split; [reflexivity|]. split; [reflexivity|].
    unfold frameAt. cbn [frames setTrace setFrames s1].
    rewrite list_lookup_insert_eq by (by eapply lookup_lt_Some). reflexivity.
  - cbn [length].
    destruct (IH buffers (loaded ++ [Some (ViewOf v b)]) s1) as
      (s' & index & Hoff & Hrun & Htr & Hrq & Hel).
    + unfold s1. cbn [frames setFrames].
      rewrite list_lookup_insert_eq by (by eapply lookup_lt_Some). reflexivity.
    + eapply Forall2_impl; [exact Hall|].
      intros page' b' (l' & Hl' & Hc' & Hm' & Hb'). exists l'.
      unfold s1, touch. cbn [heap cache setFrames setHeap].
      rewrite length_alter. split; [done|]. split; [done|]. split; [|done].
      unfold entryAt in *. cbn [heap setFrames setHeap].
      destruct (decide (l = l')) as [<-|Hne'].
      * rewrite list_lookup_alter_eq.
        destruct (heap s !! l) as [e|]; [exact Hm' | exact Hm'].
      * by rewrite list_lookup_alter_ne.
    + done.
    + rewrite length_app in Hrun. cbn [length] in Hrun.
      rewrite Nat.add_1_r in Hrun.
      exists s', index. split; [done|]. split; [exact Hrun|].
      split; [|split; [exact Hrq | exact Hel]].
      rewrite Htr. cbn [map]. by rewrite <- app_assoc.
Qed.

Lemma readArray_warm (s : State) (address itemSize count : Z) (u f : bool)
    (v : viewer) (cb : userCallback) (buffers : list (list Z)) :
  Inv s ->
  getArrayViewer itemSize u f = Some v ->
  Forall2 (holdsBytes s) (calculatePagesForArray address itemSize count) buffers ->
  buffers <> [] ->
  exists s' index,
    getOffset address itemSize = Some index /\
    readArray address itemSize u f count cb s = Ok tt s' /\
    trace s' = trace s ++
      [Called cb (assembled (assemble index count
         (map (fun b => Some (ViewOf v b)) buffers)))] /\
    requests s' = requests s /\
    Forall (fun b => length b = Z.to_nat PAGE_SIZE) buffers.
Proof.
  intros HI Hv Hall Hne.
  assert (Hsz : itemSize <> 0).
  { apply getArrayViewer_size in Hv. pose proof (bytesPerElement_pos v). lia. }
  set (pages := calculatePagesForArray address itemSize count) in *.
  set (s1 := setFrames (frames s ++ [newFrame pages address itemSize count cb]) s).
  assert (Hall1 : Forall2 (fun page b =>
             exists l, (l < length (heap s1))%nat /\
                       cache s1 !! page = Some l /\
                       memory (entryAt l s1) = Some (Buffer b) /\
                       length b = Z.to_nat PAGE_SIZE) pages buffers).
  { eapply Forall2_impl; [exact Hall|]. intros page b (l & Hc & Hm).
    destruct (Inv_entry s page l HI Hc) as [He Hok]. exists l.
    split; [by eapply lookup_lt_Some|]. split; [done|]. split; [done|].
    by apply (eo_buffer s l _ Hok). }
  destruct (warm_loop v (length (frames s)) address itemSize count cb pages
              buffers Hsz [] s1) as (s' & index & Hoff & Hrun & Htr & Hrq & Hel).
  - unfold s1. cbn [frames setFrames]. rewrite lookup_app_r by lia.
    by rewrite Nat.sub_diag.
  - exact Hall1.
  - intros Hp. rewrite Hp in Hall. inversion Hall; subst. done.
  - exists s', index. split; [done|]. split.
    + unfold readArray, bind. rewrite Hv. fold pages.
      rewrite requestPages_run. cbv zeta. fold s1.
      cbn [length] in Hrun. rewrite Hrun, Hel. reflexivity.
    + split; [exact Htr|]. split; [exact Hrq|].
      clear -Hall1. induction Hall1 as [|? ? ? ? (l & _ & _ & _ & Hb)];
        constructor; auto.
Qed.

End Assembled.

(** C4. Take an array read at a non-negative address, of a non-negative
    count of elements of a supported kind, and a page-sized buffer for every
    page the array spans. Run with the typed views of these buffers, the
    continuation that [readArray] gives to [requestPages] raises nothing
    and calls the client's continuation once, with an array and no error.
    The array is what one gets by laying the elements of the views end to
    end in page order, each view from index 0 up, dropping the elements
    before the intra-page offset of the address and keeping the next
    [count]; it has exactly [count] elements. In a reachable state whose
    cache holds these buffers for the pages of the array, [ReadArray]
    accepts every page, delivers exactly this array to the client within
    the turn, and makes no call on JsDbg. *)
Theorem C4_cached_array_is_assembled_in_order (address itemSize count : Z)
    (isUnsigned isFloat : bool) (v : viewer) (cb : userCallback)
    (buffers : list (list Z)) :
  0 <= address -> 0 <= count ->
  getArrayViewer itemSize isUnsigned isFloat = Some v ->
  length buffers = length (calculatePagesForArray address itemSize count) ->
  Forall (fun b => length b = Z.to_nat PAGE_SIZE) buffers ->
  let offset := Z.quot (Z.rem address PAGE_SIZE) itemSize in
  let xs := take (Z.to_nat count)
              (drop (Z.to_nat offset) (flat_map (viewElements v) buffers)) in
  getOffset address itemSize = Some offset /\
  Z.of_nat (length xs) = count /\
  (forall s,
     arrayLoaded address itemSize count cb
       (map (fun b => Some (ViewOf v b)) buffers) s =
     Ok tt (setTrace (trace s ++ [Called cb (ArrayOf xs)]) s)) /\
  (forall s,
     reachable s -> buffers <> [] ->
     Forall2 (holdsBytes s)
       (calculatePagesForArray address itemSize count) buffers ->
     exists s',
       turn (CallReadArray address itemSize isUnsigned isFloat count cb) s
         = Ok tt s' /\
       trace s' = trace s ++ [Called cb (ArrayOf xs)] /\
       requests s' = requests s).
Proof.
  intros Ha Hc Hv Hlen Hbuf offset xs.
  destruct (assembled_buffers address itemSize count isUnsigned isFloat v
              buffers Ha Hc Hv Hlen Hbuf) as (Hoff & Hasm & Hxs).
  fold offset in Hoff, Hasm. fold xs in Hasm, Hxs.
  split; [done|]. split; [done|]. split.
  - intros s. unfold arrayLoaded. by rewrite Hoff, Hasm.
  - intros s Hreach Hne Hall. apply reachable_Inv in Hreach.
    destruct (readArray_warm s address itemSize count isUnsigned isFloat v cb
                buffers Hreach Hv Hall Hne)
      as (s' & index & Hoff' & Hrun & Htr & Hrq & _).
    rewrite Hoff in Hoff'. inversion Hoff'; subst index.
    exists s'. split; [exact Hrun|]. split; [|exact Hrq].
    by rewrite Htr, Hasm.
Qed.

Lemma C4_witness :
  getArrayViewer 2 true false = Some Uint16Array /\
  getOffset 4094 2 = Some 2047 /\
  arrayLoaded 4094 2 3 7%nat
    (map (fun b => Some (ViewOf Uint16Array b))
       [fillPage [1; 2; 3]; fillPage [65541; 6]]) init =
  Ok tt (setTrace [Called 7%nat (ArrayOf [JNumber 0; JNumber 5; JNumber 1])]
           init) /\
  exists s',
    turn (CallReadArray 4094 2 true false 3 7%nat)
      (run [CallReadNumber 0 4 true false 1%nat;
            CallReadNumber 4096 4 true false 2%nat;
            ReadArrayDone 0 (ArrayData [1; 2; 3]);
            ReadArrayDone 1 (ArrayData [65541; 6])] init) = Ok tt s' /\
    trace s' =
      [Called 1%nat (ValueOf (JNumber 1));
       Called 2%nat (ValueOf (JNumber 65541));
       Called 7%nat (ArrayOf [JNumber 0; JNumber 5; JNumber 1])].
Proof.
  split; [reflexivity|].
  destruct (C4_cached_array_is_assembled_in_order 4094 2 3 true false
              Uint16Array 7%nat [fillPage [1; 2; 3]; fillPage [65541; 6]])
    as (H1 & _ & H2 & H3).
  - lia.
  - lia.
  - reflexivity.
  - reflexivity.
  - repeat constructor.
  - split; [exact H1|]. split; [rewrite H2; reflexivity|].
    destruct (H3 (run [CallReadNumber 0 4 true false 1%nat;
                       CallReadNumber 4096 4 true false 2%nat;
                       ReadArrayDone 0 (ArrayData [1; 2; 3]);
                       ReadArrayDone 1 (ArrayData [65541; 6])] init))
      as (s' & Hturn & Htr & _).
    + by eexists.
    + done.
    + repeat constructor; [exists 0%nat | exists 1%nat]; split; reflexivity.
    + exists s'. split; [exact Hturn|]. rewrite Htr. reflexivity.
Defined.

(** ** The cached path against the uncached read *)

Section RoundTrip.

Context (mem : Z -> Z).
Hypothesis mem_bytes : forall a, 0 <= mem a < 256.

Lemma remoteElement_word (a : Z) : 0 <= remoteElement mem a 4 < 2 ^ 32.
Proof.
  unfold remoteElement. change (Z.to_nat 4) with 4%nat.
  cbn [seq map leDecode].
  pose proof (mem_bytes (a + Z.of_nat 0)).
  pose proof (mem_bytes (a + Z.of_nat 1)).
  pose proof (mem_bytes (a + Z.of_nat 2)).
  pose proof (mem_bytes (a + Z.of_nat 3)).
  lia.
Qed.

Lemma nth_remoteReadArray (p : Z) (n k : nat) :
  (k < n)%nat ->
  nth k (remoteReadArray mem p 4 (Z.of_nat n)) 0 =
  remoteElement mem (p + 4 * Z.of_nat k) 4.
Proof.
  intros Hk. unfold remoteReadArray. rewrite Nat2Z.id.
  rewrite (nth_indep _ 0 ((fun i => remoteElement mem (p + 4 * Z.of_nat i) 4) O))
    by (rewrite length_map, length_seq; lia).
  rewrite (map_nth (fun i => remoteElement mem (p + 4 * Z.of_nat i) 4)).
  by rewrite seq_nth.
Qed.

(** The buffer of a fetched page, seen as 32-bit words, holds the words
    the remote source has at the addresses of the page. *)
Lemma viewElements_remotePage (p : Z) :
  viewElements Uint32Array (fillPage (remoteReadArray mem p 4 1024)) =
  map (fun k => JNumber (remoteElement mem (p + 4 * Z.of_nat k) 4))
    (seq 0 1024).
Proof.
  unfold viewElements.
  rewrite (viewLength_page Uint32Array) by apply length_fillPage.
  change (Z.to_nat (PAGE_SIZE / bytesPerElement Uint32Array)) with 1024%nat.
  apply map_ext_in. intros k Hk. apply in_seq in Hk.
  rewrite viewGet_fillPage by (change (PAGE_SIZE / RETRIEVAL_SIZE) with 1024; lia).
  rewrite Nat2Z.id. change 1024 with (Z.of_nat 1024).
  rewrite nth_remoteReadArray by lia.
  unfold toUint32. rewrite Z.mod_small by apply remoteElement_word. done.
Qed.

Lemma flat_map_singleton {A B} (g : A -> list B) (x : A) :
  flat_map g [x] = g x.
Proof. simpl. apply app_nil_r. Qed.

Lemma flat_map_pages {A} (G : Z -> A) (p0 : Z) (n : nat) :
  flat_map (fun p => map (fun k => G (p + 4 * Z.of_nat k)) (seq 0 1024))
    (map (fun j => p0 + PAGE_SIZE * Z.of_nat j) (seq 0 n)) =
  map (fun k => G (p0 + 4 * Z.of_nat k)) (seq 0 (1024 * n)).
Proof.
  induction n as [|n IH]; [by rewrite Nat.mul_0_r|].
  rewrite (seq_S n 0), List.map_app, flat_map_app, IH.
  cbn [map]. rewrite flat_map_singleton.
  replace (1024 * S n)%nat with (1024 * n + 1024)%nat by lia.
  rewrite seq_app, List.map_app. f_equal. rewrite Nat.add_0_l.
  rewrite (seq_from (1024 * n)), map_map.
  apply map_ext. intros k. f_equal. unfold PAGE_SIZE. lia.
Qed.

Lemma cached_words (address count : Z) :
  0 <= address -> Z.rem address 4 = 0 -> 0 <= count ->
  take (Z.to_nat count)
    (drop (Z.to_nat (Z.quot (Z.rem address PAGE_SIZE) 4))
       (flat_map (viewElements Uint32Array)
          (map (fun p => fillPage (remoteReadArray mem p 4 1024))
             (calculatePagesForArray address 4 count)))) =
  map JNumber (remoteReadArray mem address 4 count).
Proof.
  intros Ha Hal Hc.
  destruct (pages_capacity address count Uint32Array Ha Hc) as (H0 & HL & Hcap).
  change (bytesPerElement Uint32Array) with 4 in *.
  change (PAGE_SIZE / 4) with 1024 in *.
  set (offset := Z.quot (Z.rem address PAGE_SIZE) 4) in *.
  rewrite calculatePagesForArray_unfold in *.
  rewrite length_map, length_seq in Hcap.
  set (n := pageCount _ _) in *.
  rewrite flat_map_concat_map, map_map, <- flat_map_concat_map.
  rewrite (flat_map_ext _ (fun p => map (fun k => JNumber (remoteElement mem (p + 4 * Z.of_nat k) 4)) (seq 0 1024)))
    by (intros p; apply viewElements_remotePage).
  rewrite (flat_map_pages (fun a => JNumber (remoteElement mem a 4))).
  rewrite drop_map_seq, take_map_seq, Nat.min_l by lia.
  unfold remoteReadArray. rewrite map_map.
  rewrite (seq_from (Z.to_nat offset)), map_map.
  apply map_ext. intros k. do 2 f_equal.
  assert (Hp : getPage address + 4 * offset = address).
  { unfold getPage, offset. rewrite !Z.rem_mod_nonneg in * by (done || reflexivity || lia).
    assert (Hm : (address mod PAGE_SIZE) mod 4 = 0).
    { unfold PAGE_SIZE. change 4096 with (4 * 1024).
      rewrite Z.rem_mul_r by lia. rewrite Hal. rewrite Z.add_0_l.
      rewrite Z.mul_comm, Z.mod_mul by lia. done. }
    rewrite Z.quot_div_nonneg by (try lia; apply Z.mod_pos_bound; reflexivity).
    pose proof (Z.div_mod (address mod PAGE_SIZE) 4). lia. }
  lia.
Qed.

Lemma pages_straddling (address : Z) :
  0 <= address -> PAGE_SIZE - 32 < Z.rem address PAGE_SIZE ->
  calculatePagesForArray address 4 8 =
  [getPage address; getPage address + PAGE_SIZE].
Proof.
  intros Ha Hs. rewrite calculatePagesForArray_unfold.
  assert (Hn : pageCount (getPage address) (address + 4 * 8) = 2%nat).
  { unfold pageCount, getPage. unfold PAGE_SIZE in *.
    rewrite Z.rem_mod_nonneg in Hs by lia.
    rewrite Z.rem_mod_nonneg by lia.
    pose proof (Z.mod_pos_bound address 4096).
    replace (address + 4 * 8 - (address - address mod 4096) + (4096 - 1))
      with ((address mod 4096 + 32 - 1 - 4096) + 2 * 4096) by lia.
    rewrite Z.div_add by lia. rewrite Z.div_small by lia. reflexivity. }
  rewrite Hn. cbn [seq map]. repeat (f_equal; try lia).
Qed.

Lemma requestPage_fresh (v : viewer) (r : nat) (page : Z) (i : nat) (s : State) :
  cache s !! page = None ->
  requestPage (Some v) r page i s =
  Ok tt (issueFetch page (length (heap s)) (MemoryCallback v (PageLoaded r i))
           (touch (length (heap s)) (withEntry page s))).
Proof.
  intros H. unfold requestPage, bind. by rewrite loadPage_fresh by done.
Qed.

(** The turn of a read of 8 words across a page boundary, from the
    initial state: both pages are new, both fetches go out. *)
Lemma straddling_read_starts (address : Z) (cb : userCallback) :
  0 <= address -> PAGE_SIZE - 32 < Z.rem address PAGE_SIZE ->
  let p0 := getPage address in
  let p1 := getPage address + PAGE_SIZE in
  turn (CallReadArray address 4 true false 8 cb) init =
  Ok tt (started address cb (<[p1 := 1%nat]> (<[p0 := 0%nat]> ∅)) p0 p1).
Proof.
  intros Ha Hs p0 p1. simpl turn. unfold readArray. unfold bind at 1.
  rewrite requestPages_run. rewrite (pages_straddling address Ha Hs).
  fold p0 p1. change (getArrayViewer 4 true false) with (Some Uint32Array).
  cbv zeta. cbn [forEachFrom]. unfold bind.
  rewrite requestPage_fresh by apply lookup_empty.
  unfold issueFetch, enqueue, touch, withEntry.
  cbn [cache setCache setHeap setRequests setFrames heap frames requests
       answered trace pointerSize init length app].
  rewrite lookup_empty.
  cbn [cache setCache setHeap setRequests setFrames heap frames requests
       answered trace pointerSize init length app].
  assert (Hne : p0 <> p1) by (unfold p1, PAGE_SIZE; lia).
  rewrite requestPage_fresh
    by (cbn [cache setCache setHeap setRequests];
        rewrite lookup_insert_ne by done; apply lookup_empty).
  unfold issueFetch, enqueue, touch, withEntry.
  cbn [cache setCache setHeap setRequests setFrames heap frames requests
       answered trace pointerSize init length app].
  rewrite lookup_insert_ne by done. rewrite lookup_empty.
  reflexivity.
Qed.

(** The two answers, in either order: the second one completes the
    activation record, whose continuation assembles the array. *)
Lemma answers_in_order (address : Z) (cb : userCallback) (c : gmap Z nat)
    (p0 p1 : Z) :
  trace (run [ReadArrayDone 0 (remotePage mem p0);
              ReadArrayDone 1 (remotePage mem p1)]
           (started address cb c p0 p1)) =
  [Called cb (assembled (assemble (Z.quot (Z.rem address PAGE_SIZE) 4) 8
      [Some (ViewOf Uint32Array (fillPage (remoteReadArray mem p0 4 1024)));
       Some (ViewOf Uint32Array (fillPage (remoteReadArray mem p1 4 1024)))]))].
Proof. reflexivity. Qed.

Lemma answers_out_of_order (address : Z) (cb : userCallback) (c : gmap Z nat)
    (p0 p1 : Z) :
  trace (run [ReadArrayDone 1 (remotePage mem p1);
              ReadArrayDone 0 (remotePage mem p0)]
           (started address cb c p0 p1)) =
  [Called cb (assembled (assemble (Z.quot (Z.rem address PAGE_SIZE) 4) 8
      [Some (ViewOf Uint32Array (fillPage (remoteReadArray mem p0 4 1024)));
       Some (ViewOf Uint32Array (fillPage (remoteReadArray mem p1 4 1024)))]))].
Proof. reflexivity. Qed.

Lemma answers_heap (address : Z) (cb : userCallback) (c : gmap Z nat)
    (p0 p1 : Z) :
  let s3 := run [ReadArrayDone 0 (remotePage mem p0);
                 ReadArrayDone 1 (remotePage mem p1)]
              (started address cb c p0 p1) in
  cache s3 = c /\
  requests s3 = [fetchRequest p0 0; fetchRequest p1 1] /\
  memory (entryAt 0 s3) =
    Some (Buffer (fillPage (remoteReadArray mem p0 4 1024))) /\
  memory (entryAt 1 s3) =
    Some (Buffer (fillPage (remoteReadArray mem p1 4 1024))).
Proof. repeat split. Qed.

Lemma assembled_straddling (address : Z) :
  0 <= address -> Z.rem address 4 = 0 ->
  PAGE_SIZE - 32 < Z.rem address PAGE_SIZE ->
  assembled (assemble (Z.quot (Z.rem address PAGE_SIZE) 4) 8
    [Some (ViewOf Uint32Array
             (fillPage (remoteReadArray mem (getPage address) 4 1024)));
     Some (ViewOf Uint32Array
             (fillPage (remoteReadArray mem (getPage address + PAGE_SIZE) 4 1024)))])
  = ArrayOf (map JNumber (remoteReadArray mem address 4 8)).
Proof.
  intros Ha Hal Hs.
  pose proof (cached_words address 8 Ha Hal ltac:(lia)) as Hw.
  rewrite (pages_straddling address Ha Hs) in Hw. cbn [map] in Hw.
  rewrite <- Hw.
  apply (assemble_buffers Uint32Array _ 8
           [fillPage (remoteReadArray mem (getPage address) 4 1024);
            fillPage (remoteReadArray mem (getPage address + PAGE_SIZE) 4 1024)]).
  - apply Z.quot_pos; [|lia]. apply Z.rem_nonneg; [unfold PAGE_SIZE; lia | done].
  - lia.
  - rewrite (viewLength_page Uint32Array) by apply length_fillPage.
    destruct (pages_capacity address 8 Uint32Array Ha ltac:(lia)) as (_ & H & _).
    cbv zeta in H. change (bytesPerElement Uint32Array) with 4 in *. lia.
Qed.

End RoundTrip.

(** C8. Let the remote source answer every read from one byte content
    [mem] of the debuggee's memory. Take a read of 8 unsigned 32-bit
    values, through [ReadArray] in the initial state, at a non-negative
    4-byte aligned address whose 32 bytes cross a page boundary. The turn
    returns normally, having asked JsDbg for the two pages, whole, as 1024
    unsigned 4-byte elements each, and having delivered nothing. Once JsDbg
    has answered both fetches, in either order, the cache has called the
    client's continuation exactly once, with the array of the 8 values
    that the remote source returns for the uncached read of the same
    range. A second read of the range after that is served from the two
    cached pages within its turn, with the same array and no call on
    JsDbg. *)
Theorem C8_cached_read_equals_uncached_read (mem : Z -> Z) (address : Z)
    (cb : userCallback) :
  (forall a, 0 <= mem a < 256) ->
  0 <= address -> Z.rem address 4 = 0 ->
  PAGE_SIZE - 32 < Z.rem address PAGE_SIZE ->
  let p0 := getPage address in
  let p1 := getPage address + PAGE_SIZE in
  let uncached := ArrayOf (map JNumber (remoteReadArray mem address 4 8)) in
  exists s1,
    turn (CallReadArray address 4 true false 8 cb) init = Ok tt s1 /\
    requests s1 =
      [ReadArrayRequest p0 4 true false 1024 (PageFetched 0);
       ReadArrayRequest p1 4 true false 1024 (PageFetched 1)] /\
    trace s1 = [] /\
    trace (run [ReadArrayDone 0 (remotePage mem p0);
                ReadArrayDone 1 (remotePage mem p1)] s1) =
      [Called cb uncached] /\
    trace (run [ReadArrayDone 1 (remotePage mem p1);
                ReadArrayDone 0 (remotePage mem p0)] s1) =
      [Called cb uncached] /\
    forall cb',
      exists s4,
        turn (CallReadArray address 4 true false 8 cb')
          (run [ReadArrayDone 0 (remotePage mem p0);
                ReadArrayDone 1 (remotePage mem p1)] s1) = Ok tt s4 /\
        trace s4 = [Called cb uncached; Called cb' uncached] /\
        requests s4 = requests s1.
Proof.
  intros Hmem Ha Hal Hs p0 p1 uncached.
  pose proof (straddling_read_starts address cb Ha Hs) as Hstart.
  cbv zeta in Hstart. fold p1 in Hstart. fold p0 in Hstart.
  eexists. split; [exact Hstart|].
  split; [reflexivity|]. split; [reflexivity|].
  rewrite answers_in_order, answers_out_of_order.
  pose proof (assembled_straddling mem Hmem address Ha Hal Hs) as Hasm.
  fold p1 in Hasm. fold p0 in Hasm. rewrite Hasm.
  split; [done|]. split; [done|]. intros cb'.
  set (c := <[p1 := 1%nat]> (<[p0 := 0%nat]> (∅ : gmap Z nat))) in *.
  set (s3 := run _ (started address cb c p0 p1)).
  destruct (answers_heap mem address cb c p0 p1) as (Hc3 & Hr3 & Hm0 & Hm1).
  cbv zeta in Hc3, Hr3, Hm0, Hm1. fold s3 in Hc3, Hr3, Hm0, Hm1.
  assert (Htr3 : trace s3 = [Called cb uncached]).
  { unfold s3. by rewrite answers_in_order, Hasm. }
  assert (HI3 : Inv s3).
  { apply reachable_Inv.
    exists [CallReadArray address 4 true false 8 cb;
            ReadArrayDone 0 (remotePage mem p0);
            ReadArrayDone 1 (remotePage mem p1)].
    change (run [CallReadArray address 4 true false 8 cb;
                 ReadArrayDone 0 (remotePage mem p0);
                 ReadArrayDone 1 (remotePage mem p1)] init)
      with (run [ReadArrayDone 0 (remotePage mem p0);
                 ReadArrayDone 1 (remotePage mem p1)]
              (stateOf (turn (CallReadArray address 4 true false 8 cb) init))).
    by rewrite Hstart. }
  assert (Hne : p1 <> p0) by (unfold p1, PAGE_SIZE; lia).
  destruct (readArray_warm s3 address 4 8 true false Uint32Array cb'
              [fillPage (remoteReadArray mem p0 4 1024);
               fillPage (remoteReadArray mem p1 4 1024)] HI3)
    as (s4 & index & Hoff & Hrun & Htr & Hrq & _).
  - reflexivity.
  - rewrite (pages_straddling address Ha Hs). fold p1. fold p0.
    repeat constructor.
    + exists 0%nat. split; [|exact Hm0]. rewrite Hc3. unfold c.
      rewrite lookup_insert_ne by done. apply lookup_insert_eq.
    + exists 1%nat. split; [|exact Hm1]. rewrite Hc3. unfold c.
      apply lookup_insert_eq.
  - done.
  - exists s4. split; [exact Hrun|]. split; [|by rewrite Hrq, Hr3].
    rewrite Htr, Htr3. simpl in Hoff. inversion Hoff; subst index.
    cbn [map]. by rewrite Hasm.
Qed.

Lemma C8_witness :
  (forall a, 0 <= a mod 256 < 256) /\
  exists s1,
    turn (CallReadArray 4080 4 true false 8 7%nat) init = Ok tt s1 /\
    trace (run [ReadArrayDone 0 (remotePage (fun a => a mod 256) 0);
                ReadArrayDone 1 (remotePage (fun a => a mod 256) 4096)] s1) =
      [Called 7%nat
         (ArrayOf (map JNumber
                     (remoteReadArray (fun a => a mod 256) 4080 4 8)))].
Proof.
  assert (Hm : forall a, 0 <= a mod 256 < 256)
    by (intros a; apply Z.mod_pos_bound; lia).
  split; [exact Hm|].
  destruct (C8_cached_read_equals_uncached_read (fun a => a mod 256) 4080
              7%nat Hm) as (s1 & H1 & _ & _ & H2 & _ & _).
  - lia.
  - reflexivity.
  - reflexivity.
  - exists s1. split; [exact H1 | exact H2].
Defined.

(** ** The offset inside a page and the capability gate *)

(** C9. For a size other than 0, [getOffset] is the remainder of the
    address by 4096 divided by the element size, both with truncation
    (bigInt's [mod] and [divide]); for a non-negative address and a positive
    size this is the largest count of whole elements that fit below the
    position of the address in its page. For element size 4 the address
    4092 bytes past a non-negative page base gets offset 1023, the index of
    the last 4-byte element of a page buffer. *)
Theorem C9_intra_page_offset (address size pageBase : Z) (buffer : list Z) :
  size <> 0 ->
  0 <= pageBase -> getPage pageBase = pageBase ->
  length buffer = Z.to_nat PAGE_SIZE ->
  getOffset address size = Some (Z.quot (Z.rem address PAGE_SIZE) size) /\
  (0 <= address -> 0 < size ->
   let offset := Z.quot (Z.rem address PAGE_SIZE) size in
   offset = (address mod PAGE_SIZE) / size /\
   size * offset <= address mod PAGE_SIZE /\
   address mod PAGE_SIZE < size * (offset + 1)) /\
  getOffset (pageBase + 4092) 4 = Some 1023 /\
  viewLength Uint32Array buffer - 1 = 1023.
Proof.
  intros Hsz Hp0 Hp Hb. split; [by apply getOffset_Some|]. split; [|split].
  - intros Ha Hs offset.
    assert (Hm : 0 <= address mod PAGE_SIZE < PAGE_SIZE)
      by (apply Z.mod_pos_bound; reflexivity).
    assert (Hoff : offset = (address mod PAGE_SIZE) / size).
    { unfold offset. rewrite Z.rem_mod_nonneg by (done || reflexivity).
      apply Z.quot_div_nonneg; lia. }
    split; [done|]. rewrite Hoff.
    pose proof (Z.div_mod (address mod PAGE_SIZE) size ltac:(lia)).
    pose proof (Z.mod_pos_bound (address mod PAGE_SIZE) size Hs). lia.
  - rewrite getOffset_Some by lia. f_equal.
    unfold getPage, PAGE_SIZE in *.
    assert (Hr : Z.rem pageBase 4096 = 0) by lia.
    rewrite Z.rem_mod_nonneg in Hr by lia.
    rewrite Z.rem_mod_nonneg by lia.
    rewrite Z.add_mod, Hr by lia. reflexivity.
  - by rewrite (viewLength_page Uint32Array buffer Hb).
Qed.

Lemma C9_witness :
  getPage 8192 = 8192 /\
  getOffset 12284 4 = Some 1023 /\
  getOffset 4102 4 = Some (Z.quot (Z.rem 4102 PAGE_SIZE) 4).
Proof.
  destruct (C9_intra_page_offset 4102 4 8192 (fillPage [])) as (H1 & _ & H2 & _).
  - lia.
  - lia.
  - reflexivity.
  - apply length_fillPage.
  - split; [reflexivity|]. split; [exact H2 | exact H1].
Defined.

(** C1, as the code has it. [getArrayViewer] finds a viewer for the
    integers, signed or unsigned, of 1, 2 and 4 bytes and for the floats of
    4 and 8 bytes, and for nothing else: the 8-byte integers have none, like
    every other size. Without a viewer [loadPage] declines at once and
    leaves the state, the cache included, exactly as it was: no entry is
    looked up or made and no hit is counted. *)
Theorem C1_capability_gate :
  (forall size isUnsigned,
     getArrayViewer size isUnsigned false <> None <->
     size = 1 \/ size = 2 \/ size = 4) /\
  (forall size isUnsigned,
     getArrayViewer size isUnsigned true <> None <-> size = 4 \/ size = 8) /\
  (forall page callback s, loadPage page None callback s = Ok false s).
Proof.
  split; [|split].
  - apply getArrayViewer_integer.
  - apply getArrayViewer_float.
  - apply loadPage_None.
Qed.

(** C1 fails for the integers of 8 bytes: the gate declines them, so that a
    read of one goes to JsDbg uncached and leaves the cache untouched. *)
Lemma C1_counterexample :
  getArrayViewer 8 true false = None /\
  getArrayViewer 8 false false = None /\
  loadPage 4096 (getArrayViewer 8 true false) (NumberLoaded 4096 8 7%nat) init
    = Ok false init /\
  turn (CallReadNumber 4096 8 true false 7%nat) init =
    Ok tt (setRequests [ReadNumberRequest 4096 8 true false (Client 7%nat)] init).
Proof. repeat split. Qed.

(** ** Pages and offsets of non-negative addresses *)

Section PageArithmetic.

Lemma getPage_floor (address : Z) :
  0 <= address -> getPage address = PAGE_SIZE * (address / PAGE_SIZE).
Proof.
  intros H. unfold getPage, PAGE_SIZE. rewrite Z.rem_mod_nonneg by lia.
  pose proof (Z.div_mod address 4096). lia.
Qed.

Lemma getPage_range (address : Z) :
  0 <= address ->
  0 <= getPage address /\ getPage address <= address /\
  address < getPage address + PAGE_SIZE.
Proof.
  intros H. rewrite getPage_floor by done. unfold PAGE_SIZE.
  pose proof (Z.div_mod address 4096).
  pose proof (Z.mod_pos_bound address 4096).
  assert (0 <= address / 4096) by (apply Z.div_pos; lia). lia.
Qed.

Lemma getPage_of_block (p a : Z) :
  0 <= p -> Z.rem p PAGE_SIZE = 0 -> p <= a < p + PAGE_SIZE -> getPage a = p.
Proof.
  intros Hp Hr Ha. rewrite getPage_floor by lia. unfold PAGE_SIZE in *.
  rewrite Z.rem_mod_nonneg in Hr by lia.
  pose proof (Z.div_mod p 4096). pose proof (Z.div_mod a 4096).
  pose proof (Z.mod_pos_bound a 4096).
  assert (a / 4096 = p / 4096) by nia. lia.
Qed.

Lemma getPage_aligned (address : Z) :
  0 <= address -> Z.rem (getPage address) PAGE_SIZE = 0.
Proof.
  intros H. rewrite getPage_floor by done. unfold PAGE_SIZE.
  rewrite Z.mul_comm. apply Z.rem_mul. lia.
Qed.

Lemma pageCount_lt (c last : Z) (k : nat) :
  (k < pageCount c last)%nat <-> c + PAGE_SIZE * Z.of_nat k < last.
Proof.
  unfold pageCount, PAGE_SIZE.
  pose proof (Z.div_mod (last - c + (4096 - 1)) 4096).
  pose proof (Z.mod_pos_bound (last - c + (4096 - 1)) 4096).
  destruct (Z.le_gt_cases 0 ((last - c + (4096 - 1)) / 4096)) as [Hq|Hq].
  - split; intros Hk.
    + apply Nat2Z.inj_lt in Hk. rewrite Z2Nat.id in Hk by done. lia.
    + apply Nat2Z.inj_lt. rewrite Z2Nat.id by done. lia.
  - rewrite Z2Nat.nonpos by lia. split; intros Hk; lia.
Qed.

Lemma elem_of_pages (address itemSize count p : Z) :
  p ∈ calculatePagesForArray address itemSize count <->
  exists k : nat,
    p = getPage address + PAGE_SIZE * Z.of_nat k /\
    p < address + itemSize * count.
Proof.
  rewrite calculatePagesForArray_unfold. rewrite list_elem_of_fmap.
  split.
  - intros (k & -> & Hk). exists k. split; [done|].
    apply elem_of_seq in Hk. apply pageCount_lt. lia.
  - intros (k & -> & Hk). exists k. split; [done|].
    apply elem_of_seq. apply pageCount_lt in Hk. lia.
Qed.

Lemma offset_inside_view (address size : Z) (isUnsigned isFloat : bool)
    (v : viewer) (buffer : list Z) :
  0 <= address ->
  getArrayViewer size isUnsigned isFloat = Some v ->
  length buffer = Z.to_nat PAGE_SIZE ->
  let offset := Z.quot (Z.rem address PAGE_SIZE) size in
  getOffset address size = Some offset /\
  0 <= offset /\ offset < viewLength v buffer /\
  viewGet v buffer offset <> JUndefined /\
  getPage address + size * offset <= address /\
  address < getPage address + size * offset + size /\
  (Z.rem address size = 0 -> getPage address + size * offset = address).
Proof.
  intros Ha Hv Hb offset0. unfold offset0. clear offset0.
  pose proof (getArrayViewer_size _ _ _ _ Hv) as Hsz.
  pose proof (bytesPerElement_pos v) as Hpos.
  pose proof (bytesPerElement_divides_page v) as Hdiv.
  rewrite Hsz in Hpos, Hdiv.
  split; [apply getOffset_Some; lia|].
  rewrite (viewLength_page v buffer Hb), Hsz.
  assert (Hm : 0 <= address mod PAGE_SIZE < PAGE_SIZE)
    by (apply Z.mod_pos_bound; reflexivity).
  assert (Hrem : Z.rem address PAGE_SIZE = address mod PAGE_SIZE)
    by (apply Z.rem_mod_nonneg; [done | reflexivity]).
  assert (Hpage : getPage address = address - address mod PAGE_SIZE)
    by (unfold getPage; by rewrite Hrem).
  rewrite Hrem. rewrite Z.quot_div_nonneg by lia.
  set (m := address mod PAGE_SIZE) in *.
  set (offset := m / size).
  pose proof (Z.div_mod m size ltac:(lia)) as Hdm.
  pose proof (Z.mod_pos_bound m size Hpos) as Hmb.
  fold offset in Hdm.
  assert (Ho : 0 <= offset) by (apply Z.div_pos; lia).
  assert (Hlt : offset < PAGE_SIZE / size) by nia.
  split; [done|]. split; [done|]. split.
  - unfold viewGet. rewrite (viewLength_page v buffer Hb), Hsz.
    replace ((0 <=? offset) && (offset <? PAGE_SIZE / size)) with true
      by (symmetry; apply andb_true_iff; split; [apply Z.leb_le | apply Z.ltb_lt]; lia).
    destruct v; discriminate.
  - split; [lia|]. split; [lia|].
    intros Hal. rewrite Z.rem_mod_nonneg in Hal by lia.
    assert (Hms : m mod size = 0).
    { pose proof (Z.div_mod address size ltac:(lia)) as Hds.
      pose proof (Z.div_mod address PAGE_SIZE ltac:(unfold PAGE_SIZE; lia)) as Hdp.
      fold m in Hdp. apply Z.mod_divide; [lia|].
      exists (address / size - PAGE_SIZE / size * (address / PAGE_SIZE)). nia. }
    lia.
Qed.

End PageArithmetic.

(** X1. For a non-negative address, [getPage] is the base of the aligned
    block of 4096 bytes that holds the address: it is a multiple of the
    page size, at most the address and less than a page below it, and it is
    its own page. Two non-negative addresses have the same page exactly
    when they lie in the same block. *)
Theorem X1_getPage_is_block_base (address : Z) :
  0 <= address ->
  Z.rem (getPage address) PAGE_SIZE = 0 /\
  0 <= getPage address /\ getPage address <= address /\
  address < getPage address + PAGE_SIZE /\
  getPage (getPage address) = getPage address /\
  (forall a, 0 <= a ->
     getPage a = getPage address <->
     getPage address <= a /\ a < getPage address + PAGE_SIZE).
Proof.
  intros Ha. destruct (getPage_range address Ha) as (H0 & H1 & H2).
  pose proof (getPage_aligned address Ha) as Hal.
  split; [done|]. split; [done|]. split; [done|]. split; [done|]. split.
  - apply getPage_of_block; [done|done|]. unfold PAGE_SIZE. lia.
  - intros a Ha'. split.
    + intros <-. destruct (getPage_range a Ha') as (_ & ? & ?). done.
    + intros [? ?]. by apply getPage_of_block.
Qed.

Lemma X1_witness :
  Z.rem (getPage 12345) PAGE_SIZE = 0 /\ getPage 12345 = 12288.
Proof.
  split.
  - apply (X1_getPage_is_block_base 12345). lia.
  - reflexivity.
Defined.

(** X2. For a non-negative address and an element kind that has a viewer,
    the element index [getOffset] computes lies inside the typed view of a
    page buffer, so that reading it yields a number and not [undefined].
    The index is that of the element that holds the byte at the address;
    when the address is a multiple of the element size, the element starts
    at the address exactly. *)
Theorem X2_offset_inside_view (address size : Z) (isUnsigned isFloat : bool)
    (v : viewer) (buffer : list Z) :
  0 <= address ->
  getArrayViewer size isUnsigned isFloat = Some v ->
  length buffer = Z.to_nat PAGE_SIZE ->
  exists offset,
    getOffset address size = Some offset /\
    0 <= offset /\ offset < viewLength v buffer /\
    viewGet v buffer offset <> JUndefined /\
    getPage address + size * offset <= address /\
    address < getPage address + size * offset + size /\
    (Z.rem address size = 0 -> getPage address + size * offset = address).
Proof.
  intros Ha Hv Hb. exists (Z.quot (Z.rem address PAGE_SIZE) size).
  by apply (offset_inside_view address size isUnsigned isFloat v buffer).
Qed.

Lemma X2_witness :
  exists offset,
    getOffset 8190 2 = Some offset /\ offset = 2047.
Proof.
  destruct (X2_offset_inside_view 8190 2 true false Uint16Array (fillPage []))
    as (offset & H & _ & _ & _ & _ & _ & Hal).
  - lia.
  - reflexivity.
  - apply length_fillPage.
  - exists offset. split; [exact H|].
    specialize (Hal eq_refl). change (getPage 8190) with 4096 in Hal. lia.
Defined.

(** X3. For a non-negative address and a range that is not empty,
    [calculatePagesForArray] lists exactly the pages that hold a byte of
    the range: consecutive pages in ascending order, the first being the
    page of the start address, none twice. *)
Theorem X3_pages_are_those_of_the_range (address itemSize count : Z) :
  0 <= address -> 0 < itemSize * count ->
  let pages := calculatePagesForArray address itemSize count in
  let lastAddress := address + itemSize * count in
  (forall p,
     p ∈ pages <->
     exists a, address <= a /\ a < lastAddress /\ getPage a = p) /\
  pages = map (fun k => getPage address + PAGE_SIZE * Z.of_nat k)
            (seq 0 (length pages)) /\
  pages !! 0%nat = Some (getPage address) /\
  NoDup pages.
Proof.
  intros Ha Hn pages lastAddress.
  destruct (getPage_range address Ha) as (H0 & H1 & H2).
  pose proof (getPage_aligned address Ha) as Hal.
  assert (Hun : pages = map (fun k => getPage address + PAGE_SIZE * Z.of_nat k)
                          (seq 0 (length pages))).
  { unfold pages. rewrite calculatePagesForArray_unfold at 1.
    rewrite calculatePagesForArray_unfold.
    by rewrite length_map, length_seq. }
  split; [|split; [done|split]].
  - intros p. unfold pages. rewrite elem_of_pages. fold lastAddress. split.
    + intros (k & -> & Hk).
      exists (Z.max address (getPage address + PAGE_SIZE * Z.of_nat k)).
      split; [lia|]. split; [lia|].
      apply getPage_of_block.
      * unfold PAGE_SIZE. lia.
      * unfold PAGE_SIZE in *. rewrite Z.rem_mod_nonneg in Hal by lia.
        rewrite Z.rem_mod_nonneg by lia.
        replace (getPage address + 4096 * Z.of_nat k)
          with (getPage address + Z.of_nat k * 4096) by lia.
        rewrite Z.mod_add by lia. done.
      * destruct k; unfold PAGE_SIZE in *; lia.
    + intros (a & Ha1 & Ha2 & <-).
      destruct (getPage_range a ltac:(lia)) as (_ & ? & ?).
      rewrite (getPage_floor a), (getPage_floor address) by lia.
      assert (Hle : address / PAGE_SIZE <= a / PAGE_SIZE)
        by (apply Z.div_le_mono; [reflexivity | lia]).
      exists (Z.to_nat (a / PAGE_SIZE - address / PAGE_SIZE)).
      rewrite Z2Nat.id by lia. split; [lia|].
      rewrite (getPage_floor a) in * by lia. lia.
  - assert (Hin : getPage address ∈ pages).
    { unfold pages. apply elem_of_pages. exists 0%nat.
      fold lastAddress. split; lia. }
    rewrite Hun in Hin |- *. destruct (length pages) as [|n].
    + by apply elem_of_nil in Hin.
    + simpl. f_equal. lia.
  - rewrite Hun. apply NoDup_fmap_2; [|apply NoDup_seq].
    intros j k Hjk. unfold PAGE_SIZE in Hjk. lia.
Qed.

Lemma X3_witness :
  4096 ∈ calculatePagesForArray 4090 4 3 <->
  exists a, 4090 <= a /\ a < 4090 + 4 * 3 /\ getPage a = 4096.
Proof.
  apply (X3_pages_are_those_of_the_range 4090 4 3); lia.
Defined.

(** ** Every turn is a sequence of elementary changes *)

Section Moves.

Lemma moves_one (s s' : State) : Inv s -> move s s' -> moves s s'.
Proof. intros HI Hm. eapply moves_step; [done|exact Hm|apply moves_refl]. Qed.

Lemma moves_trans (s1 s2 s3 : State) :
  moves s1 s2 -> moves s2 s3 -> moves s1 s3.
Proof.
  intros H12 H23. induction H12 as [s|s1 s2 s2' HI Hm _ IH]; [done|].
  eapply moves_step; [done|exact Hm|by apply IH].
Qed.

Lemma Inv_answerWidth (id : nat) (k : continuation) (s : State) :
  Inv s -> requests s !! id = Some (GetPointerSizeRequest k) ->
  id ∉ answered s ->
  Inv (setAnswered ({[id]} ∪ answered s) s).
Proof.
  intros [inv_cache inv_entries inv_requests inv_answered] E Hnin.
  split; auto.
  - intros l e He.
    destruct (inv_entries l e He)
      as [eo_hits eo_inflight eo_buffer eo_callbacks eo_fetch eo_unique
          eo_answered].
    split; auto.
    intros id' Hid'. rewrite <- (eo_answered id' Hid').
    simpl. rewrite elem_of_union, elem_of_singleton.
    split; [|by right]. intros [->|H]; [|done].
    destruct Hid' as (r' & Hr' & Hf'). simpl in Hr'. rewrite E in Hr'.
    inversion Hr'; subst r'. done.
  - intros id'. simpl. rewrite elem_of_union, elem_of_singleton.
    intros [->|H]; [by eapply lookup_lt_Some | by apply inv_answered].
Qed.

Lemma loadPage_moves (page : Z) (v : viewer) (cb : pageCallback) (s : State) :
  Inv s -> callbackOk (frames s) (MemoryCallback v cb) ->
  exists s', loadPage page (Some v) cb s = Ok true s' /\ Inv s' /\
             Forall2 sameFrame (frames s) (frames s') /\ moves s s'.
Proof.
  intros HI Hok. destruct (cache s !! page) as [l|] eqn:Hc.
  - destruct (Inv_entry s page l HI Hc) as [He Hen].
    destruct (memory (entryAt l s)) as [m|] eqn:Hm.
    + rewrite (loadPage_served page v cb s l m); eauto using lookup_lt_Some.
      destruct (runMemoryCallback_ok (MemoryCallback v cb) m (touch l s))
        as [s2 Hs2]; [done| |].
      { intros b ->. by apply (eo_buffer _ _ _ Hen). }
      pose proof (runMemoryCallback_effect (MemoryCallback v cb) m (touch l s))
        as Heff.
      rewrite Hs2 in *. simpl in Heff.
      assert (HIt : Inv (touch l s)) by eauto using Inv_touch.
      exists s2. split; [done|]. split; [|split].
      * eapply Inv_callbackEffect; [|exact Heff]. done.
      * apply (ce_frames _ _ Heff).
      * eapply moves_step; [exact HI | exact (move_hit page l m s Hc Hm) |].
        apply moves_one; [done | by apply move_effect].
    + rewrite (loadPage_pending page v cb s l); auto.
      eexists. split; [done|]. split; [|split].
      * eapply (Inv_enqueue _ page); eauto using Inv_touch.
      * apply Forall2_sameFrame_refl.
      * apply moves_one; [done|]. by apply (move_wait page).
  - rewrite loadPage_fresh by done. eexists. split; [done|]. split; [|split].
    + by apply Inv_fresh_fetch.
    + unfold withEntry. rewrite Hc. apply Forall2_sameFrame_refl.
    + apply moves_one; [done|]. by apply move_fresh.
Qed.

Lemma readNumber_moves (address size : Z) (isUnsigned isFloat : bool)
    (cb : userCallback) (s : State) :
  Inv s ->
  exists s', readNumber address size isUnsigned isFloat cb s = Ok tt s' /\
             Inv s' /\ moves s s'.
Proof.
  intros HI. unfold readNumber, bind.
  destruct (getArrayViewer size isUnsigned isFloat) as [v|] eqn:Hv.
  - destruct (loadPage_moves (getPage address) v
                (NumberLoaded address size cb) s HI) as (s' & -> & HI' & _ & Hm).
    + unfold callbackOk. simpl. apply getArrayViewer_size in Hv.
      pose proof (bytesPerElement_pos v). lia.
    + simpl. eauto.
  - rewrite loadPage_None. simpl. unfold callJsDbg, modify.
    eexists. split; [done|]. split; [by apply Inv_callJsDbg|].
    apply moves_one; [done|]. by apply move_call.
Qed.

Lemma readPointer_moves (address : Z) (cb : userCallback) (s : State) :
  Inv s ->
  exists s', readPointer address cb s = Ok tt s' /\ Inv s' /\ moves s s'.
Proof.
  intros HI. unfold readPointer, bind, gets.
  destruct (pointerSize s) as [size|].
  - by apply readNumber_moves.
  - unfold callJsDbg, modify. eexists. split; [done|].
    split; [by apply Inv_callJsDbg|].
    apply moves_one; [done|]. by apply move_call.
Qed.

Lemma requestPages_moves (pages : list Z) (v : viewer)
    (address itemSize count : Z) (cb : userCallback) (s : State) :
  Inv s -> itemSize <> 0 ->
  exists s', requestPages pages (Some v) address itemSize count cb s = Ok true s'
             /\ Inv s' /\ moves s s'.
Proof.
  intros HI Hsz. rewrite requestPages_run. cbv zeta.
  set (r := length (frames s)).
  set (s1 := setFrames _ s).
  pose (I := fun s2 => (Inv s2 /\ moves s s2) /\
                       exists f, frames s2 !! r = Some f /\
                                 fr_itemSize f <> 0 /\
                                 areAllPagesEligible f = true).
  destruct (forEachFrom_inv I (requestPage (Some v) r) pages 0) with (s := s1)
    as (s2 & -> & [HI2 Hm2] & f & Hf & _ & Hel).
  - intros page j s2 ([HI2 Hm2] & f & Hf & Hsz2 & Hel) _.
    unfold requestPage, bind.
    destruct (loadPage_moves page v (PageLoaded r j) s2 HI2)
      as (s3 & -> & HI3 & Hfr & Hm3).
    { unfold callbackOk. simpl. eauto. }
    simpl. exists s3. split; [done|]. split.
    { split; [done|]. by eapply moves_trans. }
    destruct (Forall2_lookup_l _ _ _ _ _ Hfr Hf)
      as (f' & Hf' & [sf_eligible sf_remaining sf_address sf_itemSize
                      sf_count sf_callback]).
    exists f'. repeat split; congruence.
  - split.
    { split; [by apply Inv_newFrame|]. apply moves_one; [done|].
      apply move_frame. }
    exists (newFrame pages address itemSize count cb). unfold s1, r. simpl.
    rewrite lookup_app_r by lia. by rewrite Nat.sub_diag.
  - unfold frameAt. rewrite Hf. simpl. rewrite Hel. eauto.
Qed.

Lemma readArray_moves (address itemSize : Z) (isUnsigned isFloat : bool)
    (count : Z) (cb : userCallback) (s : State) :
  Inv s ->
  exists s', readArray address itemSize isUnsigned isFloat count cb s = Ok tt s'
             /\ Inv s' /\ moves s s'.
Proof.
  intros HI. unfold readArray. unfold bind.
  destruct (getArrayViewer itemSize isUnsigned isFloat) as [v|] eqn:Hv.
  - destruct (requestPages_moves (calculatePagesForArray address itemSize count)
                v address itemSize count cb s HI) as (s' & -> & HI' & Hm).
    + apply getArrayViewer_size in Hv. pose proof (bytesPerElement_pos v). lia.
    + simpl. eauto.
  - rewrite requestPages_None.
    destruct (calculatePagesForArray address itemSize count); simpl.
    + eexists. split; [done|]. split; [by apply Inv_newFrame|].
      apply moves_one; [done|]. apply move_frame.
    + unfold callJsDbg, modify. eexists. split; [done|].
      split; [apply Inv_callJsDbg; [done|]; by apply Inv_newFrame|].
      eapply moves_step; [done | apply move_frame |].
      apply moves_one; [by apply Inv_newFrame|]. by apply move_call.
Qed.

(** A turn raises nothing, keeps the invariant, and is made of elementary
    changes. *)
Lemma turn_moves (o : op) (s : State) :
  Inv s -> exists s', turn o s = Ok tt s' /\ Inv s' /\ moves s s'.
Proof.
  intros HI. destruct o as [a cb|a sz u f cb|a sz u f n cb| |id result|id x].
  - by apply readPointer_moves.
  - by apply readNumber_moves.
  - by apply readArray_moves.
  - eexists. split; [reflexivity|]. split; [by apply Inv_clearCache|].
    apply moves_one; [done|]. apply move_break.
  - assert (Hskip : exists s', Ok tt s = Ok tt s' /\ Inv s' /\ moves s s')
      by (exists s; split; [done|]; split; [done|apply moves_refl]).
    destruct (requests s !! id) as [[a sz u f n [l|c|a' c]| |]|] eqn:E;
      try (rewrite turn_fetched_skip;
           [exact Hskip | left; intros; rewrite E; congruence]).
    destruct (decide (id ∈ answered s)) as [Hin|Hnin].
    + rewrite turn_fetched_skip by (by right). exact Hskip.
    + destruct (turn_fetched id result s a sz n u f l HI E Hnin)
        as (s2 & H1 & Hn & H2).
      exists (emptied l s2). split; [done|]. split; [done|].
      apply moves_one; [done|].
      apply (move_fetched id l result a sz n u f s s2 E Hnin).
      exact (notified_effect _ _ _ _ Hn).
  - assert (Hskip : exists s', Ok tt s = Ok tt s' /\ Inv s' /\ moves s s')
      by (exists s; split; [done|]; split; [done|apply moves_refl]).
    unfold turn, bind, gets.
    destruct (requests s !! id) as [[| |[l|c|a' c]]|] eqn:E;
      try exact Hskip;
      try (destruct (bool_decide (id ∈ answered s)); exact Hskip).
    destruct (decide (id ∈ answered s)) as [Hin|Hnin].
    + rewrite bool_decide_eq_true_2 by done. exact Hskip.
    + rewrite bool_decide_eq_false_2 by done. unfold markAnswered, modify.
      unfold pointerSizeKnown, bind, modify.
      set (s1 := setPointerSize x (setAnswered ({[id]} ∪ answered s) s)).
      assert (HI1 : Inv s1).
      { apply Inv_setPointerSize. by eapply Inv_answerWidth. }
      destruct (readPointer_moves a' c s1 HI1) as (s' & Hs' & HI' & Hm').
      exists s'. split; [exact Hs'|]. split; [done|].
      eapply moves_step; [exact HI | | exact Hm'].
      by eapply move_width.
Qed.

Lemma run_moves (ops : list op) (s : State) :
  Inv s -> moves s (run ops s).
Proof.
  revert s. induction ops as [|o ops IH]; intros s HI; [apply moves_refl|].
  simpl. destruct (turn_moves o s HI) as (s' & Hs' & HI' & Hm).
  unfold step. rewrite Hs'. simpl. eapply moves_trans; [exact Hm|].
  by apply IH.
Qed.

(** A property of states that every elementary change keeps is kept by
    every sequence of turns. *)
Lemma moves_keep (Q : State -> Prop) (s s' : State) :
  (forall s1 s2, Inv s1 -> Q s1 -> move s1 s2 -> Q s2) ->
  moves s s' -> Q s -> Q s'.
Proof.
  intros HQ Hm. induction Hm as [s|s1 s2 s3 HI Hm _ IH]; [done|].
  intros H1. apply IH. by apply (HQ s1).
Qed.

Lemma reachable_keep (Q : State -> Prop) (s : State) :
  Q init ->
  (forall s1 s2, Inv s1 -> Q s1 -> move s1 s2 -> Q s2) ->
  reachable s -> Q s.
Proof.
  intros H0 HQ [ops ->].
  apply (moves_keep Q init); [done | | done].
  apply run_moves, Inv_init.
Qed.

End Moves.

(** ** The life of a cache entry *)

Section EntryLife.

(** What an elementary change does to the entry objects: an entry is left
    as it was, or it is new and was touched for the first time, or it was
    touched while its fetch was under way, or touched after its fetch had
    ended, or its fetch ended. *)
Lemma move_entry (s s' : State) (l : nat) (e' : cacheEntry) :
  Inv s -> move s s' -> heap s' !! l = Some e' ->
  heap s !! l = Some e' \/
  (heap s !! l = None /\
   exists c, e' = pushCallback c (setInflight true (setHits 1 newCacheEntry))) \/
  (exists e, heap s !! l = Some e /\
     ((memory e = None /\
       exists c, e' = pushCallback c (setHits (hits e + 1) e)) \/
      (memory e <> None /\ e' = setHits (hits e + 1) e) \/
      (memory e = None /\
       exists result, e' = setCallbacks [] (storeResult result e)))).
Proof.
  intros HI Hm He'.
  destruct Hm as [s s' Heff|s f|page c s Hc|page l0 c s Hc Hmem
                 |page l0 m s Hc Hmem|r s Hr|id k x s Hreq Hans|s
                 |id l0 result page size count u f s s2 Hreq Hans Heff].
  - left. by rewrite <- (ce_heap _ _ Heff).
  - by left.
  - unfold issueFetch, enqueue, touch, withEntry in He'. rewrite Hc in He'.
    cbn [heap setHeap setRequests setCache] in He'.
    rewrite !alter_snoc in He'.
    destruct (decide (l < length (heap s))%nat) as [Hl|Hl].
    + left. by rewrite lookup_app_l in He'.
    + right. left. split; [apply lookup_ge_None; lia|].
      rewrite lookup_app_r in He' by lia.
      destruct (l - length (heap s))%nat as [|n]; simpl in He';
        [|by rewrite lookup_nil in He'].
      inversion He'. by exists c.
  - destruct (Inv_entry s page l0 HI Hc) as [He _].
    unfold enqueue, touch in He'. cbn [heap setHeap] in He'.
    rewrite list_alter_alter_eq in He'.
    destruct (decide (l = l0)) as [->|Hne].
    + rewrite list_lookup_alter_eq, He in He'. simpl in He'.
      inversion He'. right. right. eexists. split; [exact He|].
      left. split; [done|]. by exists c.
    + left. by rewrite list_lookup_alter_ne in He'.
  - destruct (Inv_entry s page l0 HI Hc) as [He _].
    unfold touch in He'. cbn [heap setHeap] in He'.
    destruct (decide (l = l0)) as [->|Hne].
    + rewrite list_lookup_alter_eq, He in He'. simpl in He'.
      inversion He'. right. right. eexists. split; [exact He|].
      right. left. split; [by rewrite Hmem | done].
    + left. by rewrite list_lookup_alter_ne in He'.
  - by left.
  - by left.
  - by left.
  - assert (Hheap : heap (emptied l0 s2) =
                    alter (setCallbacks [] ∘ storeResult result) l0 (heap s)).
    { unfold emptied. simpl. rewrite (ce_heap _ _ Heff), stored_heap.
      by rewrite list_alter_alter_eq. }
    rewrite Hheap in He'.
    destruct (decide (l = l0)) as [->|Hne].
    + rewrite list_lookup_alter_eq in He'.
      destruct (heap s !! l0) as [e|] eqn:He; [|done].
      simpl in He'. inversion He'. right. right. exists e. split; [done|].
      right. right. split; [|by exists result].
      apply (Inv_pending s id l0 e HI); [|done|done].
      eexists. split; [exact Hreq|]. simpl. apply Nat.eqb_refl.
    + left. by rewrite list_lookup_alter_ne in He'.
Qed.

(** A property of entry objects that the four events in the life of an
    entry keep holds of every entry in every reachable state. *)
Lemma entries_keep (P : cacheEntry -> Prop) :
  (forall c, P (pushCallback c (setInflight true (setHits 1 newCacheEntry)))) ->
  (forall e c, P e -> memory e = None ->
     P (pushCallback c (setHits (hits e + 1) e))) ->
  (forall e, P e -> memory e <> None -> P (setHits (hits e + 1) e)) ->
  (forall e result, P e -> memory e = None ->
     P (setCallbacks [] (storeResult result e))) ->
  forall s, reachable s -> forall l e, heap s !! l = Some e -> P e.
Proof.
  intros Hfresh Hwait Hhit Hfetched s Hs.
  apply (reachable_keep (fun s => forall l e, heap s !! l = Some e -> P e));
    [| |exact Hs].
  - intros l e. simpl. by rewrite lookup_nil.
  - intros s1 s2 HI HP Hm l e' He'.
    destruct (move_entry s1 s2 l e' HI Hm He')
      as [H|[[_ [c ->]]|(e & He & [[Hmem [c ->]]|[[Hmem ->]|[Hmem [r ->]]]])]].
    + by apply (HP l).
    + apply Hfresh.
    + apply Hwait; [by apply (HP l)|done].
    + apply Hhit; [by apply (HP l)|done].
    + apply Hfetched; [by apply (HP l)|done].
Qed.

Lemma fillPage_bytes (array : list Z) :
  Forall (fun b => 0 <= b < 256) (fillPage array).
Proof.
  unfold fillPage. apply Forall_forall. intros b Hb.
  apply list_elem_of_In, in_flat_map in Hb. destruct Hb as (i & _ & Hb).
  simpl in Hb. pose proof (Z.mod_pos_bound).
  repeat (destruct Hb as [<-|Hb]; [apply Z.mod_pos_bound; lia|]). done.
Qed.

End EntryLife.

(** X4. The shape of the cache entries in every state the module can
    reach between two turns. The [error] field is never written. While the
    fetch of the page is under way the entry has no memory, is in flight,
    has at least one waiter, and its hit count is the number of its waiters.
    Once the fetch has ended the queue is empty; after a success the memory
    is a buffer of 4096 bytes and the entry is no longer in flight; after a
    failure the memory is the error object and the entry stays in flight. *)
Theorem X4_entry_shape (s : State) (l : nat) (e : cacheEntry) :
  reachable s -> heap s !! l = Some e ->
  error e = None /\ 1 <= hits e /\
  match memory e with
  | None =>
      inflight e = true /\ callbacks e <> [] /\
      hits e = Z.of_nat (length (callbacks e))
  | Some (Buffer b) =>
      inflight e = false /\ callbacks e = [] /\
      length b = Z.to_nat PAGE_SIZE /\ Forall (fun x => 0 <= x < 256) b
  | Some (ErrorResult _) => inflight e = true /\ callbacks e = []
  end.
Proof.
  intros Hs He. revert s Hs l e He. apply entries_keep.
  - intros c. simpl. repeat split; done.
  - intros e c (He & Hh & Hm) Hmem. rewrite Hmem in Hm.
    destruct Hm as (Hi & Hc & Hn). simpl. rewrite Hmem.
    repeat split; try done; try lia.
    + intros H. by apply app_eq_nil in H as [_ H].
    + rewrite length_app. simpl. lia.
  - intros e (He & Hh & Hm) Hmem. simpl.
    split; [done|]. split; [lia|].
    destruct (memory e) as [[b|x]|]; done.
  - intros e result (He & Hh & Hm) Hmem. rewrite Hmem in Hm.
    destruct Hm as (Hi & Hc & Hn).
    destruct result as [x|array];
      cbn [storeResult setCallbacks setMemory setInflight
           memory hits error inflight callbacks].
    + repeat split; done.
    + split; [done|]. split; [done|]. split; [done|]. split; [done|].
      split; [apply length_fillPage | apply fillPage_bytes].
Qed.

Lemma X4_witness :
  1 <= hits (entryAt 0 (run [CallReadNumber 4096 4 true false 1%nat;
                             CallReadNumber 4100 4 true false 2%nat] init)).
Proof.
  apply (X4_entry_shape
           (run [CallReadNumber 4096 4 true false 1%nat;
                 CallReadNumber 4100 4 true false 2%nat] init) 0%nat).
  - by eexists.
  - reflexivity.
Defined.

(** ** The cache map *)

Section CacheMap.

Lemma move_cache (s s' : State) :
  move s s' ->
  (cache s' = cache s /\ exists rs, requests s' = requests s ++ rs) \/
  cache s' = ∅ \/
  (exists page,
     cache s !! page = None /\
     cache s' = <[page := length (heap s)]> (cache s) /\
     requests s' = requests s ++ [fetchRequest page (length (heap s))]).
Proof.
  intros Hm.
  destruct Hm as [s s' Heff|s f|page c s Hc|page l0 c s Hc Hmem
                 |page l0 m s Hc Hmem|r s Hr|id k x s Hreq Hans|s
                 |id l0 result page size count u f s s2 Hreq Hans Heff].
  - left. split; [apply (ce_cache _ _ Heff)|]. exists [].
    by rewrite app_nil_r, (ce_requests _ _ Heff).
  - left. split; [done|]. exists []. by rewrite app_nil_r.
  - right. right. exists page. split; [done|].
    unfold issueFetch, enqueue, touch, withEntry. rewrite Hc. done.
  - left. split; [done|]. exists []. by rewrite app_nil_r.
  - left. split; [done|]. exists []. by rewrite app_nil_r.
  - left. split; [done|]. by exists [r].
  - left. split; [done|]. exists []. by rewrite app_nil_r.
  - right. by left.
  - left. split.
    + change (cache (emptied l0 s2)) with (cache s2).
      rewrite (ce_cache _ _ Heff). by destruct result.
    + exists []. rewrite app_nil_r.
      change (requests (emptied l0 s2)) with (requests s2).
      rewrite (ce_requests _ _ Heff). by destruct result.
Qed.

(** No two pages share an entry, and the log of calls on JsDbg holds the
    fetch of every cached page. *)
Lemma cache_coherent (s : State) :
  reachable s ->
  (forall p q l, cache s !! p = Some l -> cache s !! q = Some l -> p = q) /\
  (forall p l, cache s !! p = Some l ->
     exists id, requests s !! id = Some (fetchRequest p l)).
Proof.
  apply (reachable_keep (fun s =>
    (forall p q l, cache s !! p = Some l -> cache s !! q = Some l -> p = q) /\
    (forall p l, cache s !! p = Some l ->
       exists id, requests s !! id = Some (fetchRequest p l)))).
  - split; intros p; intros; simpl in *; by rewrite lookup_empty in *.
  - intros s1 s2 HI [Hinj Hreq] Hm.
    destruct (move_cache s1 s2 Hm)
      as [[-> [rs ->]]|[->|(page & Hc & -> & ->)]].
    + split; [done|]. intros p l Hp. destruct (Hreq p l Hp) as [id Hid].
      exists id. by apply lookup_app_l_Some.
    + split; intros p; intros; by rewrite lookup_empty in *.
    + pose proof (inv_cache s1 HI) as Hlt. split.
      * intros p q l. rewrite !lookup_insert_Some.
        intros [[Hp Hl]|[Hp Hpl]] [[Hq Hl']|[Hq Hql]].
        -- congruence.
        -- subst l. apply Hlt in Hql. lia.
        -- subst l. apply Hlt in Hpl. lia.
        -- by apply (Hinj p q l).
      * intros p l. rewrite lookup_insert_Some.
        intros [[<- <-]|[Hp Hpl]].
        -- exists (length (requests s1)).
           rewrite lookup_app_r by lia. by rewrite Nat.sub_diag.
        -- destruct (Hreq p l Hpl) as [id Hid]. exists id.
           by apply lookup_app_l_Some.
Qed.

End CacheMap.

(** X5. In every reachable state the cache map is sound: the entry of a
    cached page exists, no other page shares it, and the log of calls on
    JsDbg holds exactly one page fetch whose continuation captured that
    entry, namely [JsDbg.ReadArray(page, 4, true, false, 1024, ...)] for
    this very page. *)
Theorem X5_cached_page_has_its_own_fetch (s : State) (page : Z) (l : nat) :
  reachable s -> cache s !! page = Some l ->
  (l < length (heap s))%nat /\
  (forall q, cache s !! q = Some l -> q = page) /\
  exists id,
    requests s !! id =
      Some (ReadArrayRequest page RETRIEVAL_SIZE true false
              (PAGE_SIZE / RETRIEVAL_SIZE) (PageFetched l)) /\
    forall id' r,
      requests s !! id' = Some r -> isFetchOf l r = true -> id' = id.
Proof.
  intros Hs Hc. pose proof (reachable_Inv s Hs) as HI.
  destruct (cache_coherent s Hs) as [Hinj Hreq].
  split; [by apply (inv_cache s HI page)|].
  split; [intros q Hq; by apply (Hinj q page l)|].
  destruct (Hreq page l Hc) as [id Hid]. exists id. split; [exact Hid|].
  intros id' r Hr Hf.
  destruct (Inv_entry s page l HI Hc) as [He Hok].
  apply (eo_unique _ _ _ Hok).
  - by exists r.
  - eexists. split; [exact Hid|]. by apply isFetchOf_fetchRequest.
Qed.

Lemma X5_witness :
  (1 < length (heap (run [CallReadNumber 4096 4 true false 1%nat;
                          CallReadNumber 8192 2 true false 2%nat] init)))%nat.
Proof.
  apply (X5_cached_page_has_its_own_fetch
           (run [CallReadNumber 4096 4 true false 1%nat;
                 CallReadNumber 8192 2 true false 2%nat] init) 8192 1%nat).
  - by eexists.
  - reflexivity.
Defined.

(** ** Single reads served by the cache *)

Section CachedNumber.

Lemma readNumber_hit (s : State) (address size : Z) (u f : bool)
    (v : viewer) (cb : userCallback) (l : nat) (b : list Z) :
  (l < length (heap s))%nat ->
  cache s !! getPage address = Some l ->
  memory (entryAt l s) = Some (Buffer b) ->
  length b = Z.to_nat PAGE_SIZE ->
  getArrayViewer size u f = Some v ->
  readNumber address size u f cb s =
  Ok tt (setTrace
           (trace s ++
            [Called cb (ValueOf (viewGet v b
                                   (Z.quot (Z.rem address PAGE_SIZE) size)))])
           (touch l s)).
Proof.
  intros Hl Hc Hm Hb Hv. unfold readNumber. unfold bind. rewrite Hv.
  rewrite (loadPage_served _ v _ s l (Buffer b)) by done.
  unfold runMemoryCallback, bind. rewrite newView_page by done.
  cbn [mc_callback mc_viewer runPageCallback numberLoaded].
  rewrite getOffset_Some; [done|].
  apply getArrayViewer_size in Hv. pose proof (bytesPerElement_pos v). lia.
Qed.

Lemma length_pageBytes (mem : Z -> Z) (page : Z) :
  length (pageBytes mem page) = Z.to_nat PAGE_SIZE.
Proof. unfold pageBytes. by rewrite length_map, length_seq. Qed.

(** Element [i] of a typed view of a page is decoded from the bytes of the
    page at [i] times the element size. *)
Lemma viewGet_pageBytes (mem : Z -> Z) (page : Z) (v : viewer) (i : Z) :
  0 <= i < PAGE_SIZE / bytesPerElement v ->
  viewGet v (pageBytes mem page) i =
  elementAt mem v (page + bytesPerElement v * i).
Proof.
  intros Hi. unfold viewGet.
  rewrite (viewLength_page v _ (length_pageBytes mem page)).
  replace ((0 <=? i) && (i <? PAGE_SIZE / bytesPerElement v)) with true
    by (symmetry; apply andb_true_iff; split;
        [apply Z.leb_le | apply Z.ltb_lt]; lia).
  unfold elementAt. f_equal.
  pose proof (bytesPerElement_pos v) as Hpos.
  pose proof (bytesPerElement_divides_page v) as Hdiv.
  unfold pageBytes. rewrite drop_map_seq, take_map_seq.
  set (sz := bytesPerElement v) in *.
  replace (Nat.min (Z.to_nat sz) (Z.to_nat PAGE_SIZE - Z.to_nat (i * sz)))
    with (Z.to_nat sz) by nia.
  rewrite (seq_from (Z.to_nat (i * sz))), List.map_map.
  apply List.map_ext. intros k. f_equal. lia.
Qed.

End CachedNumber.

(** X6. Once the cache holds the bytes of a page, a [ReadNumber] of a
    supported element kind inside that page is answered within its turn:
    the only changes of state are the hit that is counted and the call of
    the client's continuation with the element found at the offset of the
    address in the buffer; no call on JsDbg is made. This lasts through
    every sequence of turns in which the break listener does not run. For
    a non-negative address the element is a number, never [undefined], and
    when the buffer holds the bytes of the page and the address is a
    multiple of the element size, it is the element those bytes encode at
    the address. *)
Theorem X6_cached_number_is_served_from_the_buffer (s : State)
    (address size : Z) (isUnsigned isFloat : bool) (v : viewer)
    (cb : userCallback) (l : nat) (b : list Z) (ops : list op) :
  reachable s ->
  cache s !! getPage address = Some l ->
  memory (entryAt l s) = Some (Buffer b) ->
  getArrayViewer size isUnsigned isFloat = Some v ->
  0 <= address ->
  Forall (fun o => o <> BreakFired) ops ->
  let s1 := run ops s in
  exists offset,
    getOffset address size = Some offset /\
    turn (CallReadNumber address size isUnsigned isFloat cb) s1 =
      Ok tt (setTrace
               (trace s1 ++ [Called cb (ValueOf (viewGet v b offset))])
               (touch l s1)) /\
    viewGet v b offset <> JUndefined /\
    (forall mem,
       b = pageBytes mem (getPage address) -> Z.rem address size = 0 ->
       viewGet v b offset = elementAt mem v address).
Proof.
  intros Hs Hc Hm Hv Ha Hops s1.
  pose proof (reachable_Inv s Hs) as HI.
  destruct (Inv_entry s _ l HI Hc) as [He Hok].
  pose proof (eo_buffer _ _ _ Hok b Hm) as Hb.
  assert (Hset : settled (getPage address) l (Buffer b) s).
  { split; [done|]. by exists (entryAt l s). }
  assert (Hset1 : settled (getPage address) l (Buffer b) s1)
    by (by apply settled_run).
  pose proof (Inv_run ops s HI) as HI1. fold s1 in HI1.
  destruct Hset1 as [Hc1 (e1 & He1 & Hm1)].
  destruct (offset_inside_view address size isUnsigned isFloat v b Ha Hv Hb)
    as (Hoff & Ho0 & Ho1 & Hdef & _ & _ & Hrec).
  exists (Z.quot (Z.rem address PAGE_SIZE) size).
  split; [exact Hoff|]. split; [|split; [exact Hdef|]].
  - simpl. apply (readNumber_hit s1 address size isUnsigned isFloat v cb l b);
      try done.
    + by eapply lookup_lt_Some.
    + by rewrite (entryAt_lookup l s1 e1 He1).
  - intros mem -> Hal. pose proof (getArrayViewer_size _ _ _ _ Hv) as Hsz.
    rewrite viewGet_pageBytes.
    + f_equal. rewrite Hsz. by apply Hrec.
    + rewrite Hsz.
      by rewrite (viewLength_page v _ (length_pageBytes mem _)), Hsz in Ho1.
Qed.

Lemma X6_witness :
  exists offset,
    getOffset 4100 4 = Some offset /\
    viewGet Uint32Array (fillPage [10; 11; 12]) offset <> JUndefined.
Proof.
  destruct (X6_cached_number_is_served_from_the_buffer
              (run [CallReadNumber 4096 4 true false 1%nat;
                    ReadArrayDone 0 (ArrayData [10; 11; 12])] init)
              4100 4 true false Uint32Array 7%nat 0%nat
              (fillPage [10; 11; 12])
              [CallReadNumber 8192 2 true false 2%nat])
    as (offset & H1 & _ & H2 & _).
  - by eexists.
  - reflexivity.
  - reflexivity.
  - reflexivity.
  - lia.
  - repeat constructor; discriminate.
  - exists offset. split; [exact H1 | exact H2].
Defined.

(** ** The first read of a page *)

Section FirstRead.

Lemma heap_fresh (page : Z) (c : memoryCallback) (s : State) :
  cache s !! page = None ->
  heap (issueFetch page (length (heap s)) c
          (touch (length (heap s)) (withEntry page s))) =
  heap s ++ [pushCallback c (setInflight true (setHits 1 newCacheEntry))].
Proof.
  intros Hc. unfold issueFetch, enqueue, touch, withEntry. rewrite Hc.
  cbn [heap setHeap setRequests setCache]. by rewrite !alter_snoc.
Qed.

Lemma entryAt_fresh (page : Z) (c : memoryCallback) (s : State) :
  cache s !! page = None ->
  entryAt (length (heap s))
    (issueFetch page (length (heap s)) c
       (touch (length (heap s)) (withEntry page s))) =
  pushCallback c (setInflight true (setHits 1 newCacheEntry)).
Proof.
  intros Hc. unfold entryAt. rewrite heap_fresh by done.
  rewrite lookup_app_r by lia. by rewrite Nat.sub_diag.
Qed.

Lemma requests_fresh (page : Z) (c : memoryCallback) (s : State) :
  cache s !! page = None ->
  requests (issueFetch page (length (heap s)) c
              (touch (length (heap s)) (withEntry page s))) =
  requests s ++ [fetchRequest page (length (heap s))].
Proof.
  intros Hc. unfold issueFetch, enqueue, touch, withEntry. by rewrite Hc.
Qed.

Lemma fresh_unanswered (s : State) :
  Inv s -> length (requests s) ∉ answered s.
Proof. intros HI H. apply (inv_answered s HI) in H. lia. Qed.

(** The first [readNumber] on a page, and the answer to the fetch it
    issues. *)
Lemma readNumber_first (s : State) (address size : Z) (u f : bool)
    (v : viewer) (cb : userCallback) (result : arrayResult) :
  Inv s ->
  cache s !! getPage address = None ->
  getArrayViewer size u f = Some v ->
  let l := length (heap s) in
  let c := MemoryCallback v (NumberLoaded address size cb) in
  let s1 := issueFetch (getPage address) l c
              (touch l (withEntry (getPage address) s)) in
  turn (CallReadNumber address size u f cb) s = Ok tt s1 /\
  exists s2,
    turn (ReadArrayDone (length (requests s)) result) s1 = Ok tt s2 /\
    trace s2 = trace s ++ numberCall (fetchedMemory result) c /\
    requests s2 = requests s1 /\
    memory (entryAt l s2) = Some (fetchedMemory result) /\
    callbacks (entryAt l s2) = [].
Proof.
  intros HI Hc Hv l c s1.
  assert (Hturn : turn (CallReadNumber address size u f cb) s = Ok tt s1).
  { simpl. unfold readNumber, bind. rewrite Hv.
    by rewrite loadPage_fresh. }
  split; [exact Hturn|].
  assert (HI1 : Inv s1).
  { destruct (turn_ok (CallReadNumber address size u f cb) s HI)
      as (s' & Hs' & HI'). rewrite Hturn in Hs'.
    injection Hs' as <-. exact HI'. }
  assert (Hreq : requests s1 !! length (requests s) =
                 Some (fetchRequest (getPage address) l)).
  { unfold s1, l. rewrite requests_fresh by done.
    rewrite lookup_app_r by lia. by rewrite Nat.sub_diag. }
  assert (Hans : length (requests s) ∉ answered s1).
  { change (answered s1) with (answered (withEntry (getPage address) s)).
    unfold withEntry. rewrite Hc. cbn [answered setCache setHeap].
    by apply fresh_unanswered. }
  destruct (fetch_answered s1 (length (requests s)) (getPage address)
              RETRIEVAL_SIZE (PAGE_SIZE / RETRIEVAL_SIZE) true false l result
              HI1 Hreq Hans)
    as [(s0 & Hrun & Hn & _ & Hmem & Hcbs & Htr) _].
  assert (Hq : callbacks (entryAt l s1) = [c]).
  { unfold s1, l. by rewrite entryAt_fresh. }
  exists (emptied l s0). split; [exact Hrun|]. split; [|split; [|done]].
  - rewrite Htr.
    + rewrite Hq. simpl. rewrite app_nil_r.
      unfold s1, issueFetch, enqueue, touch, withEntry. by rewrite Hc.
    + rewrite Hq. repeat constructor. by exists address, size, cb.
  - change (requests (emptied l s0)) with (requests s0).
    rewrite (ce_requests _ _ (notified_effect _ _ _ _ Hn)).
    by destruct result.
Qed.

End FirstRead.

(** X7. In a reachable state, the first [ReadNumber] of a supported
    element kind in a page that is not cached calls nobody: it makes one
    call on JsDbg, the fetch of the whole page. When JsDbg answers that
    fetch, the client's continuation is called, once: with the error
    object if the fetch failed, and otherwise with the element at the
    offset of the address in the page buffer filled from the answer. For
    an unsigned element of 4 bytes at a non-negative address that element
    is the number JsDbg delivered at that index, reduced modulo 2^32, and
    0 when the array JsDbg delivered is too short to have that index. *)
Theorem X7_first_read_fetches_the_page (s : State) (address size : Z)
    (isUnsigned isFloat : bool) (v : viewer) (cb : userCallback)
    (result : arrayResult) :
  reachable s ->
  cache s !! getPage address = None ->
  getArrayViewer size isUnsigned isFloat = Some v ->
  let offset := Z.quot (Z.rem address PAGE_SIZE) size in
  exists s1 s2,
    turn (CallReadNumber address size isUnsigned isFloat cb) s = Ok tt s1 /\
    trace s1 = trace s /\
    requests s1 =
      requests s ++
      [ReadArrayRequest (getPage address) RETRIEVAL_SIZE true false
         (PAGE_SIZE / RETRIEVAL_SIZE) (PageFetched (length (heap s)))] /\
    turn (ReadArrayDone (length (requests s)) result) s1 = Ok tt s2 /\
    requests s2 = requests s1 /\
    trace s2 =
      trace s ++
      [Called cb
         match result with
         | ArrayError e => ErrorOf e
         | ArrayData array => ValueOf (viewGet v (fillPage array) offset)
         end] /\
    (forall array,
       0 <= address ->
       viewGet Uint32Array (fillPage array)
         (Z.quot (Z.rem address PAGE_SIZE) 4) =
       JNumber (toUint32 (nth (Z.to_nat (Z.quot (Z.rem address PAGE_SIZE) 4))
                            array 0))).
Proof.
  intros Hs Hc Hv offset. pose proof (reachable_Inv s Hs) as HI.
  destruct (readNumber_first s address size isUnsigned isFloat v cb result
              HI Hc Hv) as (Hturn & s2 & Hdone & Htr & Hrq & _).
  eexists. exists s2. split; [exact Hturn|].
  split; [|split; [by apply requests_fresh|]].
  { unfold issueFetch, enqueue, touch, withEntry. by rewrite Hc. }
  split; [exact Hdone|]. split; [exact Hrq|]. split.
  - rewrite Htr. f_equal. unfold numberCall.
    cbn [mc_callback mc_viewer].
    assert (Hsz : size <> 0).
    { apply getArrayViewer_size in Hv. pose proof (bytesPerElement_pos v). lia. }
    rewrite (getOffset_Some address size Hsz). by destruct result.
  - intros array Ha. apply viewGet_fillPage.
    destruct (offset_inside_view address 4 true false Uint32Array
                (fillPage array) Ha eq_refl (length_fillPage array))
      as (_ & H0 & H1 & _).
    rewrite (viewLength_page Uint32Array _ (length_fillPage array)) in H1.
    done.
Qed.

Lemma X7_witness :
  exists s1 s2,
    turn (CallReadNumber 4100 4 true false 7%nat) init = Ok tt s1 /\
    turn (ReadArrayDone 0 (ArrayData [10])) s1 = Ok tt s2 /\
    trace s2 = [Called 7%nat (ValueOf (JNumber 0))].
Proof.
  destruct (X7_first_read_fetches_the_page init 4100 4 true false Uint32Array
              7%nat (ArrayData [10]))
    as (s1 & s2 & H1 & _ & _ & H2 & _ & H3 & _).
  - by exists [].
  - reflexivity.
  - reflexivity.
  - exists s1, s2. split; [exact H1|]. split; [exact H2|]. exact H3.
Defined.

(** ** When the uncached path is taken *)

Section UncachedPath.

Context (s0 : State).

(** No uncached read has been issued since [s0]. *)
Local Abbreviation K :=
  (fun s : State => forall cb, uncachedFor cb s = uncachedFor cb s0).

Lemma reads_ext (g : State -> State) :
  (forall s, requests (g s) = requests s) -> keeps K (modify g).
Proof.
  intros Hg. apply keeps_modify. intros s Hs cb.
  unfold uncachedFor. rewrite Hg. apply Hs.
Qed.

Lemma reads_effect (c : memoryCallback) (m : memoryValue) :
  keeps K (runMemoryCallback c m).
Proof.
  intros s Hs cb. unfold uncachedFor.
  rewrite (ce_requests _ _ (runMemoryCallback_effect c m s)). apply Hs.
Qed.

Lemma reads_getCacheEntry (page : Z) : keeps K (getCacheEntry page).
Proof.
  intros s Hs cb. rewrite getCacheEntry_run. simpl. unfold withEntry.
  destruct (cache s !! page); apply Hs.
Qed.

Lemma reads_fetch (page : Z) (l : nat) : keeps K (callJsDbg (fetchRequest page l)).
Proof.
  apply keeps_modify. intros s Hs cb. unfold uncachedFor. simpl.
  rewrite List.filter_app. simpl. rewrite app_nil_r. apply Hs.
Qed.

Lemma reads_loadPage (page : Z) (viewer : option viewer) (c : pageCallback) :
  keeps K (loadPage page viewer c).
Proof.
  unfold loadPage. destruct viewer as [v|]; [|apply keeps_ret].
  apply keeps_bind; [apply reads_getCacheEntry|]. intros l.
  apply keeps_bind; [by apply reads_ext|].
  intros _. apply keeps_bind; [apply keeps_gets|]. intros e.
  destruct (memory e) as [m|].
  - apply keeps_bind; [apply reads_effect | intros; apply keeps_ret].
  - destruct (_ =? _).
    + apply keeps_bind; [by apply reads_ext|].
      intros _. apply keeps_bind; [by apply reads_ext|].
      intros _. apply keeps_bind; [apply reads_fetch|].
      intros _. apply keeps_ret.
    + destruct (inflight e); [|apply keeps_ret].
      apply keeps_bind; [by apply reads_ext|].
      intros; apply keeps_ret.
Qed.

Lemma reads_requestPages (pages : list Z) (viewer : option viewer)
    (address itemSize count : Z) (cb : userCallback) :
  keeps K (requestPages pages viewer address itemSize count cb).
Proof.
  unfold requestPages. apply keeps_bind; [apply keeps_gets|]. intros r.
  apply keeps_bind; [by apply reads_ext|]. intros _.
  apply keeps_bind; [|intros; apply keeps_gets].
  apply keeps_forEachFrom. intros page j _.
  apply keeps_bind; [apply reads_loadPage|].
  intros [|]; simpl; [apply keeps_ret | by apply reads_ext].
Qed.

End UncachedPath.

(** X8. In a reachable state the uncached path is taken for the element
    kinds that have no viewer, and for no other: a [ReadNumber] or
    [ReadArray] of a supported kind returns normally without issuing any
    uncached read, whatever the state of the pages it touches, while a
    [ReadNumber] of an unsupported kind does nothing but issue the
    uncached [JsDbg.ReadNumber] with the client's own continuation. *)
Theorem X8_uncached_path_only_without_viewer (s : State)
    (address size count : Z) (isUnsigned isFloat : bool) (cb : userCallback) :
  reachable s ->
  (exists s1,
     turn (CallReadNumber address size isUnsigned isFloat cb) s = Ok tt s1 /\
     match getArrayViewer size isUnsigned isFloat with
     | Some _ => forall cb', uncachedFor cb' s1 = uncachedFor cb' s
     | None =>
         s1 = setRequests
                (requests s ++
                 [ReadNumberRequest address size isUnsigned isFloat (Client cb)])
                s
     end) /\
  (getArrayViewer size isUnsigned isFloat <> None ->
   exists s2,
     turn (CallReadArray address size isUnsigned isFloat count cb) s
       = Ok tt s2 /\
     forall cb', uncachedFor cb' s2 = uncachedFor cb' s).
Proof.
  intros Hs. pose proof (reachable_Inv s Hs) as HI. split.
  - simpl. unfold readNumber, bind.
    destruct (getArrayViewer size isUnsigned isFloat) as [v|] eqn:Hv.
    + pose proof (reads_loadPage s (getPage address) (Some v)
                    (NumberLoaded address size cb) s (fun _ => eq_refl)) as HK.
      destruct (loadPage_accepts (getPage address) v
                  (NumberLoaded address size cb) s HI) as (s' & Hs' & _).
      { unfold callbackOk. simpl. apply getArrayViewer_size in Hv.
        pose proof (bytesPerElement_pos v). lia. }
      rewrite Hs' in HK |- *. simpl. eauto.
    + rewrite loadPage_None. simpl. eauto.
  - intros Hv. simpl. unfold readArray, bind.
    destruct (getArrayViewer size isUnsigned isFloat) as [v|] eqn:Hv'; [|done].
    pose proof (reads_requestPages s
                  (calculatePagesForArray address size count) (Some v)
                  address size count cb s (fun _ => eq_refl)) as HK.
    destruct (requestPages_Some (calculatePagesForArray address size count)
                v address size count cb s HI) as (s' & Hs' & _).
    { apply getArrayViewer_size in Hv'. pose proof (bytesPerElement_pos v). lia. }
    rewrite Hs' in HK |- *. simpl. eauto.
Qed.

Lemma X8_witness :
  exists s1,
    turn (CallReadNumber 4100 8 true false 7%nat)
      (run [CallReadNumber 4096 4 true false 1%nat] init) = Ok tt s1 /\
    s1 = setRequests
           (requests (run [CallReadNumber 4096 4 true false 1%nat] init) ++
            [ReadNumberRequest 4100 8 true false (Client 7%nat)])
           (run [CallReadNumber 4096 4 true false 1%nat] init).
Proof.
  apply (X8_uncached_path_only_without_viewer
           (run [CallReadNumber 4096 4 true false 1%nat] init)
           4100 8 0 true false 7%nat).
  by eexists.
Defined.

(** ** Pointer reads *)

Section PointerReads.

Lemma readPointer_uncached (s : State) (address size : Z) (cb : userCallback) :
  pointerSize s = Some size ->
  getArrayViewer size true false = None ->
  readPointer address cb s =
  Ok tt (setRequests
           (requests s ++ [ReadNumberRequest address size true false (Client cb)])
           s).
Proof.
  intros Hp Hv. unfold readPointer, bind, gets. rewrite Hp.
  unfold readNumber, bind. rewrite Hv, loadPage_None. reflexivity.
Qed.

Lemma widthDone_run (s : State) (id : nat) (address : Z) (cb : userCallback)
    (x : option Z) :
  requests s !! id =
    Some (GetPointerSizeRequest (PointerSizeKnown address cb)) ->
  id ∉ answered s ->
  turn (GetPointerSizeDone id x) s =
  readPointer address cb
    (setPointerSize x (setAnswered ({[id]} ∪ answered s) s)).
Proof.
  intros Hreq Hans. unfold turn, bind, gets. rewrite Hreq.
  rewrite bool_decide_eq_false_2 by done. reflexivity.
Qed.

End PointerReads.

(** X9. Once the pointer size is known to be one that has no unsigned
    integer viewer, 8 bytes in particular, and no query of the pointer size
    is under way, every [ReadPointer], in whatever turn it comes, does
    nothing but issue an uncached [JsDbg.ReadNumber] of that size with the
    client's own continuation: pointers of a 64-bit debuggee are never
    read through the cache. *)
Theorem X9_wide_pointers_bypass_the_cache (s : State) (size address : Z)
    (cb : userCallback) (ops : list op) :
  widthKnown size s ->
  getArrayViewer size true false = None ->
  let s1 := run ops s in
  turn (CallReadPointer address cb) s1 =
  Ok tt (setRequests
           (requests s1 ++
            [ReadNumberRequest address size true false (Client cb)]) s1).
Proof.
  intros Hw Hv s1.
  pose proof (width_run size ops s Hw) as [Hp _]. fold s1 in Hp.
  simpl. by apply readPointer_uncached.
Qed.

Lemma X9_witness :
  turn (CallReadPointer 4104 7%nat)
    (run [BreakFired]
       (run [CallReadPointer 4096 1%nat; GetPointerSizeDone 0 (Some 8)] init)) =
  Ok tt (setRequests
           (requests
              (run [BreakFired]
                 (run [CallReadPointer 4096 1%nat;
                       GetPointerSizeDone 0 (Some 8)] init)) ++
            [ReadNumberRequest 4104 8 true false (Client 7%nat)])
           (run [BreakFired]
              (run [CallReadPointer 4096 1%nat;
                    GetPointerSizeDone 0 (Some 8)] init))).
Proof.
  apply (X9_wide_pointers_bypass_the_cache
           (run [CallReadPointer 4096 1%nat; GetPointerSizeDone 0 (Some 8)] init)
           8 4104 7%nat [BreakFired]).
  - split; [reflexivity|]. intros id k. vm_compute.
    destruct id as [|[|[|id]]]; intros H; inversion H. reflexivity.
  - reflexivity.
Defined.

(** X10. In a reachable state in which the pointer size is not known, a
    [ReadPointer] does nothing but ask JsDbg for it; each such call asks on
    its own. When JsDbg answers with a size, the size is stored and the
    read goes on as a [ReadNumber] of an unsigned integer of that size at
    the same address with the same continuation. When the answer carries
    no size, the read asks JsDbg again. *)
Theorem X10_pointer_size_is_asked_for_first (s : State) (address : Z)
    (cb : userCallback) :
  reachable s -> pointerSize s = None ->
  let query := GetPointerSizeRequest (PointerSizeKnown address cb) in
  let id := length (requests s) in
  let s1 := setRequests (requests s ++ [query]) s in
  let answeredIn x := setPointerSize x (setAnswered ({[id]} ∪ answered s) s1) in
  turn (CallReadPointer address cb) s = Ok tt s1 /\
  (forall size,
     turn (GetPointerSizeDone id (Some size)) s1 =
     turn (CallReadNumber address size true false cb) (answeredIn (Some size))) /\
  turn (GetPointerSizeDone id None) s1 =
    Ok tt (setRequests (requests s1 ++ [query]) (answeredIn None)).
Proof.
  intros Hs Hp query id s1 answeredIn.
  pose proof (reachable_Inv s Hs) as HI.
  assert (Hreq : requests s1 !! id = Some query).
  { unfold s1, id. simpl. rewrite lookup_app_r by lia. by rewrite Nat.sub_diag. }
  assert (Hans : id ∉ answered s1) by (apply (fresh_unanswered s HI)).
  split; [|split].
  - simpl. unfold readPointer, bind, gets. by rewrite Hp.
  - intros size. by rewrite (widthDone_run s1 id address cb (Some size)).
  - by rewrite (widthDone_run s1 id address cb None).
Qed.

Lemma X10_witness :
  turn (CallReadPointer 4096 7%nat) init =
  Ok tt (setRequests [GetPointerSizeRequest (PointerSizeKnown 4096 7%nat)] init).
Proof.
  apply (X10_pointer_size_is_asked_for_first init 4096 7%nat).
  - by exists [].
  - reflexivity.
Defined.

(** ** Entry objects are kept, and final once fetched *)

Section EntryFinal.

Lemma move_heap_length (s s' : State) :
  move s s' -> (length (heap s) <= length (heap s'))%nat.
Proof.
  intros Hm.
  destruct Hm as [s s' Heff|s f|page c s Hc|page l0 c s Hc Hmem
                 |page l0 m s Hc Hmem|r s Hr|id k x s Hreq Hans|s
                 |id l0 result page size count u f s s2 Hreq Hans Heff];
    try (simpl; lia).
  - by rewrite (ce_heap _ _ Heff).
  - rewrite heap_fresh by done. rewrite length_app. simpl. lia.
  - unfold enqueue, touch. simpl. by rewrite !length_alter.
  - unfold touch. simpl. by rewrite length_alter.
  - unfold emptied. simpl. rewrite length_alter, (ce_heap _ _ Heff), stored_heap.
    by rewrite length_alter.
Qed.

(** What an entry object [e] may have become: it was hit, and nothing of
    it changed once its fetch had ended. *)
Lemma later_entry (e : cacheEntry) (l : nat) (s s' : State) :
  moves s s' -> heap s !! l = Some e ->
  exists e', heap s' !! l = Some e' /\ hits e <= hits e' /\
             error e' = error e /\
             (memory e <> None ->
              memory e' = memory e /\ inflight e' = inflight e /\
              callbacks e' = callbacks e).
Proof.
  intros Hm. revert e. induction Hm as [s|s1 s2 s3 HI Hmv _ IH]; intros e He.
  - exists e. repeat split; (done || lia).
  - pose proof (move_heap_length s1 s2 Hmv) as Hlen.
    destruct (lookup_lt_is_Some_2 (heap s2) l) as [e2 He2].
    { apply lookup_lt_Some in He. lia. }
    assert (H12 : hits e <= hits e2 /\ error e2 = error e /\
                  (memory e <> None ->
                   memory e2 = memory e /\ inflight e2 = inflight e /\
                   callbacks e2 = callbacks e)).
    { destruct (move_entry s1 s2 l e2 HI Hmv He2)
        as [H|[[H _]|(e1 & He1 & H)]].
      - assert (e2 = e) by congruence. subst e2. repeat split; (done || lia).
      - congruence.
      - assert (e1 = e) by congruence. subst e1.
        destruct H as [[Hn [c ->]]|[[Hn ->]|[Hn [r ->]]]].
        + simpl. split; [lia|]. split; [done|]. intros H. by destruct H.
        + simpl. split; [lia|]. by split.
        + split; [destruct r; simpl; lia|]. split; [by destruct r|].
          intros H. by destruct H. }
    destruct (IH e2 He2) as (e3 & He3 & Hh & Her & Hfin).
    destruct H12 as (Hh2 & Her2 & Hfin2).
    exists e3. split; [done|]. split; [lia|]. split; [congruence|].
    intros Hmem. destruct (Hfin2 Hmem) as (Hm2 & Hi2 & Hc2).
    destruct Hfin as (Hm3 & Hi3 & Hc3); [congruence|].
    repeat split; congruence.
Qed.

End EntryFinal.

(** X11. No turn removes an entry object or lowers its hit count, and
    once the fetch of an entry has ended its memory, its in-flight flag and
    its (empty) queue never change again, whatever turns follow, the break
    listener's included: the break listener drops entries from the cache
    map without touching them, so that a buffer, once filled, is never
    written again. *)
Theorem X11_fetched_entry_is_final (s : State) (l : nat) (e : cacheEntry)
    (ops : list op) :
  reachable s -> heap s !! l = Some e ->
  exists e',
    heap (run ops s) !! l = Some e' /\ hits e <= hits e' /\
    (memory e <> None ->
     memory e' = memory e /\ inflight e' = inflight e /\
     callbacks e' = callbacks e).
Proof.
  intros Hs He. pose proof (reachable_Inv s Hs) as HI.
  destruct (later_entry e l s (run ops s) (run_moves ops s HI) He)
    as (e' & He' & Hh & _ & Hfin).
  by exists e'.
Qed.

Lemma X11_witness :
  exists e',
    heap (run [BreakFired; CallReadNumber 4096 4 true false 2%nat]
            (run [CallReadNumber 4096 4 true false 1%nat;
                  ReadArrayDone 0 (ArrayData [10])] init)) !! 0%nat = Some e' /\
    memory e' = Some (Buffer (fillPage [10])).
Proof.
  destruct (X11_fetched_entry_is_final
              (run [CallReadNumber 4096 4 true false 1%nat;
                    ReadArrayDone 0 (ArrayData [10])] init) 0%nat
              (entryAt 0 (run [CallReadNumber 4096 4 true false 1%nat;
                               ReadArrayDone 0 (ArrayData [10])] init))
              [BreakFired; CallReadNumber 4096 4 true false 2%nat])
    as (e' & He' & _ & Hfin).
  - by eexists.
  - reflexivity.
  - exists e'. split; [exact He'|]. apply Hfin. discriminate.
Defined.

(** ** Answers that arrive after the break listener ran *)

Section LateAnswers.

(** After the break listener ran, the cache maps pages to entries made
    since then only. *)
Lemma cache_after_break (s : State) (ops : list op) :
  Inv s ->
  forall q l, cache (run (BreakFired :: ops) s) !! q = Some l ->
              (length (heap s) <= l)%nat.
Proof.
  intros HI.
  assert (HI1 : Inv (step BreakFired s)) by (by apply Inv_step).
  change (run (BreakFired :: ops) s) with (run ops (step BreakFired s)).
  pose (Q := fun s' : State =>
          (length (heap s) <= length (heap s'))%nat /\
          forall q l, cache s' !! q = Some l -> (length (heap s) <= l)%nat).
  assert (HQ : Q (run ops (step BreakFired s))).
  { apply (moves_keep Q (step BreakFired s)).
    - intros s1 s2 _ [Hlen Hc] Hm.
      pose proof (move_heap_length s1 s2 Hm) as Hl.
      split; [lia|].
      destruct (move_cache s1 s2 Hm) as [[-> _]|[->|(page & _ & -> & _)]].
      + done.
      + intros q l. by rewrite lookup_empty.
      + intros q l. rewrite lookup_insert_Some.
        intros [[_ <-]|[_ H]]; [done | by apply (Hc q)].
    - by apply run_moves.
    - split; [done|]. intros q l. simpl. by rewrite lookup_empty. }
  apply HQ.
Qed.

(** The answer to a page fetch changes the entry its continuation
    captured, and no other. *)
Lemma fetched_frame (s : State) (id : nat) (page size count : Z) (u f : bool)
    (l : nat) (result : arrayResult) :
  Inv s ->
  requests s !! id =
    Some (ReadArrayRequest page size u f count (PageFetched l)) ->
  id ∉ answered s ->
  exists s2,
    turn (ReadArrayDone id result) s = Ok tt s2 /\
    cache s2 = cache s /\ requests s2 = requests s /\
    memory (entryAt l s2) = Some (fetchedMemory result) /\
    forall l', l' <> l -> entryAt l' s2 = entryAt l' s.
Proof.
  intros HI Hreq Hans.
  destruct (fetch_answered s id page size count u f l result HI Hreq Hans)
    as [(s0 & Hrun & Hn & _ & Hmem & _) _].
  pose proof (notified_effect _ _ _ _ Hn) as Heff.
  exists (emptied l s0). split; [exact Hrun|]. split; [|split; [|split]].
  - change (cache (emptied l s0)) with (cache s0).
    rewrite (ce_cache _ _ Heff). by destruct result.
  - change (requests (emptied l s0)) with (requests s0).
    rewrite (ce_requests _ _ Heff). by destruct result.
  - exact Hmem.
  - intros l' Hne. unfold entryAt, emptied. simpl.
    rewrite list_lookup_alter_ne by done.
    rewrite (ce_heap _ _ Heff), stored_heap.
    by rewrite list_lookup_alter_ne.
Qed.

End LateAnswers.

(** X12. Take a fetch whose continuation captured an entry that existed
    before the break listener ran, and let JsDbg answer it at any time
    after. From the break on, no page is cached in that entry. The answer
    is stored in the old entry, and it changes neither the cache map nor
    the entry of any page that is cached: what was fetched before a break
    is never served to a read that comes after it. *)
Theorem X12_answer_from_before_a_break_is_not_cached (s : State)
    (ops : list op) (id l : nat) (page size count : Z) (u f : bool)
    (result : arrayResult) :
  reachable s -> (l < length (heap s))%nat ->
  let s1 := run (BreakFired :: ops) s in
  requests s1 !! id =
    Some (ReadArrayRequest page size u f count (PageFetched l)) ->
  id ∉ answered s1 ->
  (forall q, cache s1 !! q <> Some l) /\
  exists s2,
    turn (ReadArrayDone id result) s1 = Ok tt s2 /\
    cache s2 = cache s1 /\
    memory (entryAt l s2) = Some (fetchedMemory result) /\
    forall q l', cache s1 !! q = Some l' -> entryAt l' s2 = entryAt l' s1.
Proof.
  intros Hs Hl s1 Hreq Hans. pose proof (reachable_Inv s Hs) as HI.
  pose proof (cache_after_break s ops HI) as Hc. fold s1 in Hc.
  assert (HI1 : Inv s1) by (by apply Inv_run).
  split.
  - intros q Hq. apply Hc in Hq. lia.
  - destruct (fetched_frame s1 id page size count u f l result HI1 Hreq Hans)
      as (s2 & Hrun & Hcache & _ & Hmem & Hframe).
    exists s2. split; [done|]. split; [done|]. split; [done|].
    intros q l' Hq. apply Hframe. apply Hc in Hq. lia.
Qed.

Lemma X12_witness :
  cache (run [BreakFired; CallReadNumber 4096 4 true false 2%nat]
           (run [CallReadNumber 4096 4 true false 1%nat] init)) !! 4096
  <> Some 0%nat.
Proof.
  apply (X12_answer_from_before_a_break_is_not_cached
           (run [CallReadNumber 4096 4 true false 1%nat] init)
           [CallReadNumber 4096 4 true false 2%nat] 0 0 4096 4 1024 true false
           (ArrayData [10])).
  - by eexists.
  - apply Nat.ltb_lt. reflexivity.
  - reflexivity.
  - vm_compute. intros H. discriminate H.
Defined.

(** ** Arrays read from cached pages, element by element *)

Section ArrayElements.

Context (mem : Z -> Z).

Lemma viewElements_pageBytes (v : viewer) (p : Z) :
  viewElements v (pageBytes mem p) =
  map (fun k => elementAt mem v (p + bytesPerElement v * Z.of_nat k))
    (seq 0 (Z.to_nat (PAGE_SIZE / bytesPerElement v))).
Proof.
  unfold viewElements.
  rewrite (viewLength_page v _ (length_pageBytes mem p)).
  apply List.map_ext_in. intros k Hk. apply in_seq in Hk.
  apply viewGet_pageBytes.
  pose proof (bytesPerElement_pos v).
  assert (0 <= PAGE_SIZE / bytesPerElement v)
    by (apply Z.div_pos; [unfold PAGE_SIZE|]; lia).
  lia.
Qed.

Lemma flat_map_page_elements {A} (G : Z -> A) (sz : Z) (cap : nat) (p0 : Z)
    (n : nat) :
  sz * Z.of_nat cap = PAGE_SIZE ->
  flat_map (fun p => map (fun k => G (p + sz * Z.of_nat k)) (seq 0 cap))
    (map (fun j => p0 + PAGE_SIZE * Z.of_nat j) (seq 0 n)) =
  map (fun k => G (p0 + sz * Z.of_nat k)) (seq 0 (cap * n)).
Proof.
  intros Hcap. induction n as [|n IH]; [by rewrite Nat.mul_0_r|].
  rewrite (seq_S n 0), List.map_app, flat_map_app, IH.
  cbn [map]. rewrite flat_map_singleton.
  replace (cap * S n)%nat with (cap * n + cap)%nat by lia.
  rewrite seq_app, List.map_app. f_equal. rewrite Nat.add_0_l.
  rewrite (seq_from (cap * n)), List.map_map.
  apply List.map_ext. intros k. f_equal. nia.
Qed.

(** The elements gathered from the buffers of the pages of an array are
    those found at the addresses of the array. *)
Lemma cached_elements (address count : Z) (v : viewer) :
  0 <= address -> Z.rem address (bytesPerElement v) = 0 -> 0 <= count ->
  let size := bytesPerElement v in
  take (Z.to_nat count)
    (drop (Z.to_nat (Z.quot (Z.rem address PAGE_SIZE) size))
       (flat_map (viewElements v)
          (map (pageBytes mem) (calculatePagesForArray address size count)))) =
  map (fun i => elementAt mem v (address + size * Z.of_nat i))
    (seq 0 (Z.to_nat count)).
Proof.
  intros Ha Hal Hc size.
  destruct (pages_capacity address count v Ha Hc) as (H0 & HL & Hcap).
  fold size in H0, HL, Hcap.
  pose proof (bytesPerElement_pos v) as Hpos. fold size in Hpos.
  pose proof (bytesPerElement_divides_page v) as Hdiv. fold size in Hdiv.
  set (offset := Z.quot (Z.rem address PAGE_SIZE) size) in *.
  rewrite calculatePagesForArray_unfold in *.
  rewrite length_map, length_seq in Hcap.
  set (n := pageCount _ _) in *.
  rewrite flat_map_concat_map, List.map_map, <- flat_map_concat_map.
  rewrite (flat_map_ext _
             (fun p => map (fun k => elementAt mem v (p + size * Z.of_nat k))
                         (seq 0 (Z.to_nat (PAGE_SIZE / size)))))
    by (intros p; apply viewElements_pageBytes).
  assert (Hq : 0 <= PAGE_SIZE / size) by lia.
  rewrite (flat_map_page_elements (elementAt mem v) size)
    by (rewrite Z2Nat.id by done; exact Hdiv).
  rewrite drop_map_seq, take_map_seq, Nat.min_l by nia.
  rewrite (seq_from (Z.to_nat offset)), List.map_map.
  apply List.map_ext. intros k. f_equal.
  assert (Hv : getArrayViewer size (match v with
                                    | Uint8Array | Uint16Array | Uint32Array =>
                                        true
                                    | _ => false
                                    end)
                 (match v with
                  | Float32Array | Float64Array => true
                  | _ => false
                  end) = Some v) by (by destruct v).
  destruct (offset_inside_view address size _ _ v (pageBytes mem 0) Ha Hv
              (length_pageBytes mem 0)) as (_ & _ & _ & _ & _ & _ & Hrec).
  fold offset in Hrec. specialize (Hrec Hal). lia.
Qed.

Lemma pages_nonempty (address itemSize count : Z) :
  0 <= address -> 0 < itemSize * count ->
  calculatePagesForArray address itemSize count <> [].
Proof.
  intros Ha Hn Hnil.
  assert (H : getPage address ∈ calculatePagesForArray address itemSize count).
  { apply elem_of_pages. exists 0%nat.
    destruct (getPage_range address Ha) as (_ & ? & _). split; lia. }
  rewrite Hnil in H. by apply elem_of_nil in H.
Qed.

Lemma Forall2_holdsBytes (s : State) (pages : list Z) :
  Forall (fun p => holdsBytes s p (pageBytes mem p)) pages ->
  Forall2 (holdsBytes s) pages (map (pageBytes mem) pages).
Proof. induction 1; simpl; constructor; auto. Qed.

(** [ReadArray] in a state whose cache holds the bytes of every page the
    array spans. *)
Lemma readArray_cached (s : State) (address itemSize count : Z) (u f : bool)
    (v : viewer) (cb : userCallback) :
  Inv s -> 0 <= address -> 0 <= count ->
  Z.rem address itemSize = 0 ->
  getArrayViewer itemSize u f = Some v ->
  calculatePagesForArray address itemSize count <> [] ->
  Forall (fun p => holdsBytes s p (pageBytes mem p))
    (calculatePagesForArray address itemSize count) ->
  exists s',
    turn (CallReadArray address itemSize u f count cb) s = Ok tt s' /\
    trace s' =
      trace s ++
      [Called cb
         (ArrayOf (map (fun i => elementAt mem v (address + itemSize * Z.of_nat i))
                     (seq 0 (Z.to_nat count))))] /\
    requests s' = requests s.
Proof.
  intros HI Ha Hc Hal Hv Hne Hall.
  pose proof (getArrayViewer_size _ _ _ _ Hv) as Hsz.
  destruct (readArray_warm s address itemSize count u f v cb
              (map (pageBytes mem)
                 (calculatePagesForArray address itemSize count)) HI Hv)
    as (s' & index & Hoff & Hrun & Htr & Hrq & Hlen).
  { by apply Forall2_holdsBytes. }
  { intros H. apply Hne. by apply map_eq_nil in H. }
  destruct (assembled_buffers address itemSize count u f v
              (map (pageBytes mem)
                 (calculatePagesForArray address itemSize count))
              Ha Hc Hv ltac:(by rewrite length_map) Hlen)
    as (Hoff' & Hasm & _).
  rewrite Hoff in Hoff'. injection Hoff' as ->.
  exists s'. split; [exact Hrun|]. split; [|exact Hrq].
  rewrite Htr, Hasm. subst itemSize.
  pose proof (cached_elements address count v Ha Hal Hc) as Hce.
  cbv zeta in Hce. by rewrite Hce.
Qed.

End ArrayElements.

(** X13. Let the cache of a reachable state hold, for every page that an
    array spans, the bytes of that page. A [ReadArray] of a supported
    element kind, at a non-negative address that is a multiple of the
    element size, is then answered within its turn without any call on
    JsDbg, and the array delivered has [count] elements, the one at index
    [i] being the element that the bytes at [address + itemSize * i]
    encode, whichever pages the array crosses. *)
Theorem X13_cached_array_holds_the_elements_at_its_addresses (mem : Z -> Z)
    (s : State) (address itemSize count : Z) (isUnsigned isFloat : bool)
    (v : viewer) (cb : userCallback) :
  reachable s -> 0 <= address -> 0 < count ->
  Z.rem address itemSize = 0 ->
  getArrayViewer itemSize isUnsigned isFloat = Some v ->
  (forall p, p ∈ calculatePagesForArray address itemSize count ->
             holdsBytes s p (pageBytes mem p)) ->
  exists s',
    turn (CallReadArray address itemSize isUnsigned isFloat count cb) s
      = Ok tt s' /\
    trace s' =
      trace s ++
      [Called cb
         (ArrayOf (map (fun i => elementAt mem v (address + itemSize * Z.of_nat i))
                     (seq 0 (Z.to_nat count))))] /\
    requests s' = requests s.
Proof.
  intros Hs Ha Hc Hal Hv Hall.
  apply (readArray_cached mem s address itemSize count isUnsigned isFloat v cb);
    try done.
  - by apply reachable_Inv.
  - lia.
  - apply pages_nonempty; [done|].
    apply getArrayViewer_size in Hv. pose proof (bytesPerElement_pos v). nia.
  - by apply Forall_forall.
Qed.

Lemma X13_witness :
  exists s',
    turn (CallReadArray 4096 2 true false 3 7%nat)
      (run [CallReadNumber 4096 4 true false 1%nat;
            ReadArrayDone 0 (ArrayData [])] init) = Ok tt s' /\
    requests s' =
      requests (run [CallReadNumber 4096 4 true false 1%nat;
                     ReadArrayDone 0 (ArrayData [])] init).
Proof.
  destruct (X13_cached_array_holds_the_elements_at_its_addresses
              (fun _ => 0)
              (run [CallReadNumber 4096 4 true false 1%nat;
                    ReadArrayDone 0 (ArrayData [])] init)
              4096 2 3 true false Uint16Array 7%nat)
    as (s' & H1 & _ & H2).
  - by eexists.
  - lia.
  - lia.
  - reflexivity.
  - reflexivity.
  - intros p Hp. change (calculatePagesForArray 4096 2 3) with [4096] in Hp.
    apply list_elem_of_singleton in Hp. subst p.
    exists 0%nat. split; vm_compute; reflexivity.
  - exists s'. split; [exact H1 | exact H2].
Defined.

(** ** A read of no elements that is not page-aligned *)

Section EmptyRead.




End EmptyRead.



(** ** The entry of a page, and the viewer of an element kind *)

(** X15. In a reachable state [getCacheEntry] returns normally with the
    entry of the page. A page that has an entry gets that entry and the
    state is left as it was. A page that has none gets a new entry object,
    with no hits, no memory, not in flight and an empty queue, which is
    recorded as the entry of the page. Either way a second call finds the
    same entry and changes nothing, the entries of the other pages are the
    ones they were, and no entry object that existed is changed. *)
Theorem X15_getCacheEntry_finds_or_creates (s : State) (page : Z) :
  reachable s ->
  exists l s',
    getCacheEntry page s = Ok l s' /\
    cache s' !! page = Some l /\ (l < length (heap s'))%nat /\
    getCacheEntry page s' = Ok l s' /\
    (forall q, q <> page -> cache s' !! q = cache s !! q) /\
    (forall k e, heap s !! k = Some e -> heap s' !! k = Some e) /\
    match cache s !! page with
    | Some l0 => l = l0 /\ s' = s
    | None => heap s !! l = None /\ heap s' !! l = Some newCacheEntry
    end.
Proof.
  intros Hs. pose proof (reachable_Inv s Hs) as HI.
  exists (entryOf page s), (withEntry page s).
  split; [apply getCacheEntry_run|].
  unfold entryOf, withEntry.
  destruct (cache s !! page) as [l0|] eqn:Hc.
  - split; [done|]. split; [by apply (inv_cache s HI page)|].
    split; [|by repeat split].
    rewrite getCacheEntry_run. unfold entryOf, withEntry. by rewrite Hc.
  - cbn [cache heap setCache setHeap].
    split; [by rewrite lookup_insert_eq|].
    split; [rewrite length_app; simpl; lia|]. split; [|split; [|split; [|split]]].
    + rewrite getCacheEntry_run. unfold entryOf, withEntry.
      cbn [cache heap setCache setHeap]. by rewrite lookup_insert_eq.
    + intros q Hq. by rewrite lookup_insert_ne.
    + intros k e He. by apply lookup_app_l_Some.
    + apply lookup_ge_None. lia.
    + rewrite lookup_app_r by lia. by rewrite Nat.sub_diag.
Qed.

Lemma X15_witness :
  exists l s',
    getCacheEntry 4096 init = Ok l s' /\ cache s' !! 4096 = Some l.
Proof.
  destruct (X15_getCacheEntry_finds_or_creates init 4096)
    as (l & s' & H1 & H2 & _).
  - by exists [].
  - exists l, s'. split; [exact H1 | exact H2].
Defined.

(** X16. The viewer that [getArrayViewer] finds is the one asked for: its
    element size is [size]; it is a float viewer exactly when [isFloat] is
    set, and then [isUnsigned] plays no part; among the integer viewers it
    is an unsigned one exactly when [isUnsigned] is set. *)
Theorem X16_viewer_is_of_the_kind_asked_for (size : Z)
    (isUnsigned isFloat : bool) (v : viewer) :
  getArrayViewer size isUnsigned isFloat = Some v ->
  bytesPerElement v = size /\
  match v with
  | Float32Array | Float64Array => isFloat = true
  | Uint8Array | Uint16Array | Uint32Array =>
      isFloat = false /\ isUnsigned = true
  | Int8Array | Int16Array | Int32Array =>
      isFloat = false /\ isUnsigned = false
  end /\
  getArrayViewer size (negb isUnsigned) true =
  getArrayViewer size isUnsigned true.
Proof.
  intros Hv. split; [by apply (getArrayViewer_size _ _ _ _ Hv)|].
  split; [|reflexivity].
  destruct isFloat.
  - assert (H : size = 4 \/ size = 8).
    { apply (getArrayViewer_float size isUnsigned). by rewrite Hv. }
    destruct H as [-> | ->]; inversion Hv; done.
  - assert (H : size = 1 \/ size = 2 \/ size = 4).
    { apply (getArrayViewer_integer size isUnsigned). by rewrite Hv. }
    destruct isUnsigned, H as [-> | [-> | ->]]; inversion Hv; done.
Qed.

Lemma X16_witness :
  bytesPerElement Int16Array = 2.
Proof.
  apply (X16_viewer_is_of_the_kind_asked_for 2 false false Int16Array).
  reflexivity.
Defined.

(** ** A waiting read is answered once *)

Section Awaiting.

(** Page continuations do not look at the entry objects. *)
Lemma runMemoryCallback_setHeap (h : list cacheEntry) (k : memoryCallback)
    (m : memoryValue) (s : State) :
  runMemoryCallback k m (setHeap h s) =
  match runMemoryCallback k m s with
  | Ok a s' => Ok a (setHeap h s')
  | Throw s' => Throw (setHeap h s')
  end.
Proof.
  assert (Hpage : forall w,
    runPageCallback (mc_callback k) w (setHeap h s) =
    match runPageCallback (mc_callback k) w s with
    | Ok a s' => Ok a (setHeap h s')
    | Throw s' => Throw (setHeap h s')
    end).
  { intros w. destruct (mc_callback k) as [a sz c'|r i]; simpl.
    - unfold numberLoaded. destruct w as [v b|e]; [|reflexivity].
      destruct (getOffset a sz); reflexivity.
    - unfold pageLoaded, bind, updateFrame, modify, gets. simpl.
      unfold frameAt. simpl.
      destruct (_ && _); [|reflexivity].
      unfold arrayLoaded. destruct (getOffset _ _); reflexivity. }
  unfold runMemoryCallback. destruct m as [b|e]; [|apply Hpage].
  unfold bind, newView. destruct (_ =? 0); [|reflexivity].
  apply Hpage.
Qed.

Lemma silent_same (cb : userCallback) (calls : list result)
    (reads : list request) (s s' : State) :
  heap s' = heap s -> frames s' = frames s -> requests s' = requests s ->
  trace s' = trace s ->
  silent cb calls reads s -> silent cb calls reads s'.
Proof.
  intros Hh Hf Hr Ht [[q_number q_frame q_pointer] Hc Hrd].
  split; [split|..].
  - intros l0 e k a sz. rewrite Hh. apply q_number.
  - intros r f. rewrite Hf. apply q_frame.
  - intros i a. rewrite Hr. apply q_pointer.
  - unfold callsOf. by rewrite Ht.
  - unfold uncachedFor. by rewrite Hr.
Qed.

Context (cb : userCallback) (id l : nat) (c : memoryCallback)
  (calls : list result) (reads : list request).

Local Abbreviation A := (awaiting cb id l c calls reads).

Lemma holdsb_false (k : memoryCallback) :
  holdsb cb k = false <-> ~ holds cb (mc_callback k).
Proof.
  unfold holdsb, holds. destruct (mc_callback k) as [a sz c'|r i].
  - rewrite Nat.eqb_neq. done.
  - split; [tauto | done].
Qed.

Lemma awaiting_hidden (s : State) : A s -> silent cb calls reads (setHeap [] s).
Proof.
  intros [aw_fetch aw_entry aw_others aw_frame aw_pointer aw_calls aw_reads].
  split; [split|done|done]; [|done|done].
  intros l0 e k a sz. simpl. by rewrite lookup_nil.
Qed.

(** A change that leaves the entries and the calls on JsDbg alone. *)
Lemma awaiting_ext (s s' : State) :
  heap s' = heap s -> requests s' = requests s ->
  silent cb calls reads (setHeap [] s') -> A s -> A s'.
Proof.
  intros Hh Hr [[_ q_frame q_pointer] Hc Hrd]
    [aw_fetch aw_entry aw_others aw_frame aw_pointer aw_calls aw_reads].
  split; try done.
  - unfold isFetchAt. by rewrite Hr.
  - by rewrite Hh.
  - intros l' e k. rewrite Hh. apply aw_others.
Qed.

Lemma awaiting_effect (k : memoryCallback) (m : memoryValue) :
  ~ holds cb (mc_callback k) -> keeps A (runMemoryCallback k m).
Proof.
  intros Hk s HA.
  pose proof (silent_runMemoryCallback cb calls reads k m Hk (setHeap [] s)
                (awaiting_hidden s HA)) as Hs.
  rewrite runMemoryCallback_setHeap in Hs.
  pose proof (runMemoryCallback_effect k m s) as Heff.
  destruct (runMemoryCallback k m s) as [a s'|s']; simpl in *;
    apply (awaiting_ext s s'); try done;
    [apply (ce_heap _ _ Heff) | apply (ce_requests _ _ Heff)
    |apply (ce_heap _ _ Heff) | apply (ce_requests _ _ Heff)].
Qed.

(** A change of the entries. *)
Lemma awaiting_heap (h : list cacheEntry) (s : State) :
  (exists e, h !! l = Some e /\ memory e = None /\
             List.filter (holdsb cb) (callbacks e) = [c]) ->
  (forall l' e k, h !! l' = Some e -> l' <> l -> k ∈ callbacks e ->
     ~ holds cb (mc_callback k)) ->
  A s -> A (setHeap h s).
Proof.
  intros He Ho
    [aw_fetch aw_entry aw_others aw_frame aw_pointer aw_calls aw_reads].
  by split.
Qed.

Lemma awaiting_updateEntry (l' : nat) (g : cacheEntry -> cacheEntry) :
  (forall e, memory (g e) = memory e /\ callbacks (g e) = callbacks e) ->
  keeps A (updateEntry l' g).
Proof.
  intros Hg. apply keeps_modify. intros s HA.
  pose proof HA as
    [aw_fetch (e & He & Hm & Hf) aw_others aw_frame aw_pointer aw_calls aw_reads].
  apply awaiting_heap; [| |done].
  - destruct (decide (l' = l)) as [->|Hne].
    + exists (g e). rewrite list_lookup_alter_eq, He. destruct (Hg e) as [-> ->].
      done.
    + exists e. by rewrite list_lookup_alter_ne.
  - intros l0 e0 k He0 Hl0 Hk.
    destruct (decide (l' = l0)) as [->|Hne].
    + rewrite list_lookup_alter_eq in He0.
      destruct (heap s !! l0) as [e1|] eqn:He1; [|done].
      simpl in He0. inversion He0; subst e0.
      destruct (Hg e1) as [_ Hcb]. rewrite Hcb in Hk. by apply (aw_others l0 e1).
    + rewrite list_lookup_alter_ne in He0 by done. by apply (aw_others l0 e0).
Qed.

Lemma awaiting_updateOther (l' : nat) (g : cacheEntry -> cacheEntry) :
  l' <> l ->
  (forall e k, k ∈ callbacks (g e) -> k ∈ callbacks e) ->
  keeps A (updateEntry l' g).
Proof.
  intros Hl' Hg. apply keeps_modify. intros s HA.
  pose proof HA as
    [aw_fetch (e & He & Hm & Hf) aw_others aw_frame aw_pointer aw_calls aw_reads].
  apply awaiting_heap; [| |done].
  - exists e. by rewrite list_lookup_alter_ne.
  - intros l0 e0 k He0 Hl0 Hk.
    destruct (decide (l' = l0)) as [->|Hne].
    + rewrite list_lookup_alter_eq in He0.
      destruct (heap s !! l0) as [e1|] eqn:He1; [|done].
      simpl in He0. inversion He0; subst e0.
      apply (aw_others l0 e1); auto.
    + rewrite list_lookup_alter_ne in He0 by done. by apply (aw_others l0 e0).
Qed.

Lemma awaiting_push (l' : nat) (c' : memoryCallback) :
  ~ holds cb (mc_callback c') -> keeps A (updateEntry l' (pushCallback c')).
Proof.
  intros Hc'. apply keeps_modify. intros s HA.
  pose proof HA as
    [aw_fetch (e & He & Hm & Hf) aw_others aw_frame aw_pointer aw_calls aw_reads].
  apply awaiting_heap; [| |done].
  - destruct (decide (l' = l)) as [->|Hne].
    + exists (pushCallback c' e). rewrite list_lookup_alter_eq, He.
      split; [done|]. split; [done|]. simpl.
      rewrite List.filter_app, Hf. simpl.
      by rewrite (proj2 (holdsb_false c') Hc').
    + exists e. by rewrite list_lookup_alter_ne.
  - intros l0 e0 k He0 Hl0 Hk.
    destruct (decide (l' = l0)) as [->|Hne].
    + rewrite list_lookup_alter_eq in He0.
      destruct (heap s !! l0) as [e1|] eqn:He1; [|done].
      simpl in He0. inversion He0; subst e0. simpl in Hk.
      apply elem_of_app in Hk as [Hk|Hk%list_elem_of_singleton].
      * by apply (aw_others l0 e1).
      * by subst k.
    + rewrite list_lookup_alter_ne in He0 by done. by apply (aw_others l0 e0).
Qed.

Lemma awaiting_getCacheEntry (page : Z) : keeps A (getCacheEntry page).
Proof.
  intros s HA. rewrite getCacheEntry_run. simpl. unfold withEntry.
  destruct (cache s !! page); [done|].
  pose proof HA as
    [aw_fetch (e & He & Hm & Hf) aw_others aw_frame aw_pointer aw_calls aw_reads].
  assert (HA' : A (setHeap (heap s ++ [newCacheEntry]) s)).
  { apply awaiting_heap; [| |done].
    - exists e. split; [by apply lookup_app_l_Some | done].
    - intros l0 e0 k He0 Hl0 Hk.
      apply lookup_snoc_Some in He0 as [[_ He0]|[_ <-]].
      + by apply (aw_others l0 e0).
      + simpl in Hk. by apply not_elem_of_nil in Hk. }
  destruct HA' as [? ? ? ? ? ? ?]. by split.
Qed.

Lemma awaiting_callJsDbg (r : request) :
  isUncachedFor cb r = false ->
  (forall a, r <> GetPointerSizeRequest (PointerSizeKnown a cb)) ->
  keeps A (callJsDbg r).
Proof.
  intros Hu Hp. apply keeps_modify. intros s
    [aw_fetch aw_entry aw_others aw_frame aw_pointer aw_calls aw_reads].
  split; try done.
  - destruct aw_fetch as (r0 & Hr0 & Hf). exists r0. split; [|done].
    simpl. by apply lookup_app_l_Some.
  - intros i a. simpl. intros [[_ H]|[_ H]]%lookup_snoc_Some.
    + by apply (aw_pointer i a).
    + by apply (Hp a).
  - unfold uncachedFor in *. simpl. rewrite List.filter_app. simpl.
    rewrite Hu. by rewrite app_nil_r.
Qed.

(** A change of the activation records that keeps those which hold [cb]
    past firing. *)
Lemma awaiting_frames (G : list frame -> list frame) :
  (forall fs,
     (forall r f, fs !! r = Some f -> fr_callback f = cb ->
        areAllPagesEligible f = false \/ remainingViews f <= 0) ->
     forall r f, G fs !! r = Some f -> fr_callback f = cb ->
        areAllPagesEligible f = false \/ remainingViews f <= 0) ->
  keeps A (modify (fun s => setFrames (G (frames s)) s)).
Proof.
  intros HG. apply keeps_modify. intros s
    [aw_fetch aw_entry aw_others aw_frame aw_pointer aw_calls aw_reads].
  split; try done. simpl. by apply HG.
Qed.

Lemma awaiting_newFrame (f : frame) :
  fr_callback f <> cb ->
  keeps A (modify (fun s => setFrames (frames s ++ [f]) s)).
Proof.
  intros Hf. apply (awaiting_frames (fun fs => fs ++ [f])).
  intros fs Hfs r f' Hf' Hcb.
  apply lookup_snoc_Some in Hf' as [[_ H]|[_ <-]]; [eauto | congruence].
Qed.

Lemma awaiting_ineligible (r : nat) :
  keeps A (updateFrame r ineligible).
Proof.
  apply (awaiting_frames (alter ineligible r)).
  intros fs Hfs r' f' Hf' Hcb.
  destruct (decide (r = r')) as [<-|Hne].
  - rewrite list_lookup_alter_eq in Hf'.
    destruct (fs !! r) as [f|]; [|done]. simpl in Hf'. inversion Hf'. by left.
  - rewrite list_lookup_alter_ne in Hf' by done. eauto.
Qed.

Lemma awaiting_loadPage (page : Z) (viewer : option viewer) (pc : pageCallback) :
  ~ holds cb pc -> keeps A (loadPage page viewer pc).
Proof.
  intros Hc. unfold loadPage. destruct viewer as [v|]; [|apply keeps_ret].
  apply keeps_bind; [apply awaiting_getCacheEntry|]. intros l'.
  apply keeps_bind; [by apply awaiting_updateEntry|].
  intros _. apply keeps_bind; [apply keeps_gets|]. intros e.
  destruct (memory e) as [m|].
  - apply keeps_bind; [by apply awaiting_effect | intros; apply keeps_ret].
  - destruct (_ =? _).
    + apply keeps_bind; [by apply awaiting_updateEntry|].
      intros _. apply keeps_bind; [by apply awaiting_push|].
      intros _. apply keeps_bind; [by apply awaiting_callJsDbg|].
      intros _. apply keeps_ret.
    + destruct (inflight e); [|apply keeps_ret].
      apply keeps_bind; [by apply awaiting_push | intros; apply keeps_ret].
Qed.

Lemma awaiting_readNumber (address size : Z) (u f : bool) (c' : userCallback) :
  c' <> cb -> keeps A (readNumber address size u f c').
Proof.
  intros Hc. unfold readNumber. apply keeps_bind; [by apply awaiting_loadPage|].
  intros [|]; simpl; [apply keeps_ret|].
  apply awaiting_callJsDbg; [|done]. simpl. by apply Nat.eqb_neq.
Qed.

Lemma awaiting_readPointer (address : Z) (c' : userCallback) :
  c' <> cb -> keeps A (readPointer address c').
Proof.
  intros Hc. unfold readPointer. apply keeps_bind; [apply keeps_gets|].
  intros [size|]; [by apply awaiting_readNumber|].
  apply awaiting_callJsDbg; [done|]. congruence.
Qed.

Lemma awaiting_readArray (address itemSize : Z) (u f : bool) (count : Z)
    (c' : userCallback) :
  c' <> cb -> keeps A (readArray address itemSize u f count c').
Proof.
  intros Hc. unfold readArray. apply keeps_bind.
  - unfold requestPages. apply keeps_bind; [apply keeps_gets|]. intros r.
    apply keeps_bind; [by apply awaiting_newFrame|]. intros _.
    apply keeps_bind; [|intros; apply keeps_gets].
    apply keeps_forEachFrom. intros page j _.
    apply keeps_bind; [apply awaiting_loadPage; simpl; tauto|].
    intros [|]; simpl; [apply keeps_ret | apply awaiting_ineligible].
  - intros [|]; simpl; [apply keeps_ret|].
    apply awaiting_callJsDbg; [|done]. simpl. by apply Nat.eqb_neq.
Qed.

Lemma awaiting_pageFetched (l' : nat) (result : arrayResult) :
  l' <> l -> keeps A (pageFetched l' result).
Proof.
  intros Hl'. unfold pageFetched. apply keeps_bind.
  { destruct result.
    - by apply awaiting_updateOther.
    - apply keeps_bind; [|intros _]; by apply awaiting_updateOther. }
  intros _. apply keeps_bind_gets. intros s Hs.
  assert (Hcs : forall k, k ∈ callbacks (entryAt l' s) ->
                          ~ holds cb (mc_callback k)).
  { intros k. unfold entryAt. destruct (heap s !! l') as [e|] eqn:He; simpl.
    - intros Hk. by apply (aw_others _ _ _ _ _ _ _ Hs l' e).
    - intros H. by apply not_elem_of_nil in H. }
  refine (keeps_bind _ _ _ _ _ s Hs).
  - unfold forEach. apply keeps_forEachFrom. intros k j Hk.
    apply keeps_bind; [apply keeps_gets|]. intros e.
    destruct (memory e); [|apply keeps_throw].
    apply awaiting_effect. by apply Hcs.
  - intros _. apply awaiting_updateOther; [done|]. intros e k. simpl.
    intros H. by apply not_elem_of_nil in H.
Qed.

Lemma awaiting_other (g : State -> State) :
  (forall s, heap (g s) = heap s /\ frames (g s) = frames s /\
             requests (g s) = requests s /\ trace (g s) = trace s) ->
  keeps A (modify g).
Proof.
  intros Hg. apply keeps_modify. intros s HA.
  destruct (Hg s) as (Hh & Hf & Hr & Ht).
  apply (awaiting_ext s); [done|done| |done].
  apply (silent_same cb calls reads (setHeap [] s)); try done.
  by apply awaiting_hidden.
Qed.

(** A turn that neither uses [cb] nor brings the answer [cb] waits for. *)
Lemma awaiting_step (o : op) (s : State) :
  Inv s -> ~ usesCallback cb o -> (forall r, o <> ReadArrayDone id r) ->
  A s -> A (step o s).
Proof.
  intros HI Ho Hid HA. unfold step.
  destruct o as [a c'|a sz u f c'|a sz u f n c'| |id' result|id' x]; simpl.
  - by apply awaiting_readPointer.
  - by apply awaiting_readNumber.
  - by apply awaiting_readArray.
  - by apply (awaiting_other (setCache ∅)).
  - unfold bind, gets.
    destruct (requests s !! id') as [[a sz u f n [l'|c'|a' c']| |]|] eqn:E;
      try exact HA.
    destruct (bool_decide (id' ∈ answered s)) eqn:Hans; [exact HA|].
    unfold markAnswered, modify.
    apply awaiting_pageFetched.
    + intros ->. apply (Hid result). f_equal.
      pose proof (aw_fetch _ _ _ _ _ _ _ HA) as Hf.
      destruct (aw_entry _ _ _ _ _ _ _ HA) as (e & He & _).
      apply (eo_unique _ _ _ (inv_entries s HI l e He)); [|done].
      eexists. split; [exact E|]. simpl. apply Nat.eqb_refl.
    + by apply (awaiting_other (fun s => setAnswered ({[id']} ∪ answered s) s)).
  - unfold bind, gets.
    destruct (requests s !! id') as [[| |[l'|c'|a c']]|] eqn:E; try exact HA.
    destruct (bool_decide (id' ∈ answered s)); [exact HA|].
    unfold markAnswered, modify, pointerSizeKnown, bind, modify.
    apply awaiting_readPointer.
    + intros ->. by apply (aw_pointer _ _ _ _ _ _ _ HA id' a).
    + apply (awaiting_other (fun s => setPointerSize x s)); [done|].
      by apply (awaiting_other (fun s => setAnswered ({[id']} ∪ answered s) s)).
Qed.

Lemma awaiting_run (ops : list op) (s : State) :
  Inv s ->
  Forall (fun o => ~ usesCallback cb o /\ forall r, o <> ReadArrayDone id r) ops ->
  A s -> A (run ops s).
Proof.
  revert s. induction ops as [|o ops IH]; intros s HI Hops HA; [done|].
  apply Forall_cons in Hops as [[Ho Hid] Hops]. simpl.
  apply IH; [by apply Inv_step | done | by apply awaiting_step].
Qed.

End Awaiting.

Section AnsweredOnce.

Context (cb : userCallback).

Lemma run_numberLoaded (v : viewer) (a sz : Z) (cb' : userCallback)
    (m : memoryValue) (s s1 : State) :
  runMemoryCallback (MemoryCallback v (NumberLoaded a sz cb')) m s = Ok tt s1 ->
  s1 = setTrace (trace s ++ [Called cb' (delivered v a sz m)]) s.
Proof.
  unfold runMemoryCallback. destruct m as [b|e]; simpl.
  - unfold bind, newView. destruct (_ =? 0); [|discriminate].
    simpl. unfold getOffset. destruct (sz =? 0); [discriminate|].
    intros H. by inversion H.
  - intros H. by inversion H.
Qed.

Lemma callsOf_called (r : result) (s : State) :
  callsOf cb (setTrace (trace s ++ [Called cb r]) s) = callsOf cb s ++ [r].
Proof.
  unfold callsOf. simpl. rewrite omap_app. simpl. by rewrite Nat.eqb_refl.
Qed.

(** Notifying continuations none of which holds [cb]. *)
Lemma notified_quiet (m : memoryValue) (cs : list memoryCallback)
    (calls : list result) (reads : list request) (s s' : State) :
  notified m cs s s' ->
  Forall (fun k => holdsb cb k = false) cs ->
  silent cb calls reads (setHeap [] s) ->
  silent cb calls reads (setHeap [] s').
Proof.
  induction 1 as [s|k cs s s1 s2 Hrun _ IH]; intros Hcs Hs; [done|].
  apply Forall_cons in Hcs as [Hk Hcs]. apply IH; [done|].
  pose proof (silent_runMemoryCallback cb calls reads k m
                (proj1 (holdsb_false cb k) Hk) (setHeap [] s) Hs) as H1.
  rewrite runMemoryCallback_setHeap, Hrun in H1. exact H1.
Qed.

(** Notifying continuations exactly one of which holds [cb]. *)
Lemma notified_once (m : memoryValue) (cs : list memoryCallback)
    (v : viewer) (a sz : Z) (calls : list result) (reads : list request)
    (s s' : State) :
  notified m cs s s' ->
  List.filter (holdsb cb) cs = [MemoryCallback v (NumberLoaded a sz cb)] ->
  silent cb calls reads (setHeap [] s) ->
  silent cb (calls ++ [delivered v a sz m]) reads (setHeap [] s').
Proof.
  induction 1 as [s|k cs s s1 s2 Hrun Hrest IH]; intros Hf Hs; [done|].
  simpl in Hf. destruct (holdsb cb k) eqn:Hk.
  - inversion Hf as [[Hkc Hnone]]. subst k.
    apply run_numberLoaded in Hrun. subst s1.
    apply (notified_quiet m cs _ reads _ s2 Hrest).
    + clear -Hnone. induction cs as [|k cs IH]; [constructor|].
      simpl in Hnone. destruct (holdsb cb k) eqn:Hk; [discriminate|].
      constructor; auto.
    + destruct Hs as [[q_number q_frame q_pointer] Hc Hr].
      split; [by split| |done].
      change (callsOf cb (setHeap [] (setTrace
                (trace s ++ [Called cb (delivered v a sz m)]) s)))
        with (callsOf cb (setTrace
                (trace (setHeap [] s) ++ [Called cb (delivered v a sz m)])
                (setHeap [] s))).
      by rewrite callsOf_called, Hc.
  - apply IH; [done|].
    pose proof (silent_runMemoryCallback cb calls reads k m
                  (proj1 (holdsb_false cb k) Hk) (setHeap [] s) Hs) as H1.
    rewrite runMemoryCallback_setHeap, Hrun in H1. exact H1.
Qed.

(** The turn that brings the answer [cb] waits for: [cb] is called once,
    and nothing holds it any more. *)
Lemma answered_once (id l : nat) (v : viewer) (a sz : Z)
    (calls : list result) (reads : list request) (result : arrayResult)
    (s : State) :
  Inv s ->
  awaiting cb id l (MemoryCallback v (NumberLoaded a sz cb)) calls reads s ->
  exists s',
    turn (ReadArrayDone id result) s = Ok tt s' /\
    silent cb (calls ++ [delivered v a sz (fetchedMemory result)]) reads s'.
Proof.
  intros HI HA.
  pose proof HA as
    [aw_fetch (e & He & Hm & Hf) aw_others aw_frame aw_pointer aw_calls aw_reads].
  destruct aw_fetch as (r & Hr & Hfl).
  destruct r as [page size u f count [l'|c'|a' c']| |]; try discriminate.
  simpl in Hfl. apply Nat.eqb_eq in Hfl. subst l'.
  assert (Hans : id ∉ answered s).
  { intros Hin.
    apply (eo_answered _ _ _ (inv_entries s HI l e He) id) in Hin; [done|].
    eexists. split; [exact Hr|]. simpl. apply Nat.eqb_refl. }
  destruct (fetch_answered s id page size count u f l result HI Hr Hans)
    as [(s0 & Hrun & Hn & _) _].
  rewrite (entryAt_lookup l s e He) in Hn.
  exists (emptied l s0). split; [exact Hrun|].
  assert (Hhid : silent cb calls reads
                   (setHeap [] (stored id l result s))).
  { apply (silent_same cb calls reads (setHeap [] s)).
    - reflexivity.
    - by destruct result.
    - by destruct result.
    - by destruct result.
    - exact (awaiting_hidden cb id l _ calls reads s HA). }
  pose proof (notified_once _ _ v a sz calls reads _ _ Hn Hf Hhid)
    as [[_ q_frame q_pointer] Hc Hrd].
  pose proof (notified_effect _ _ _ _ Hn) as Heff.
  assert (Hheap : heap (emptied l s0) =
                  alter (setCallbacks [] ∘ storeResult result) l (heap s)).
  { unfold emptied. simpl. rewrite (ce_heap _ _ Heff), stored_heap.
    by rewrite list_alter_alter_eq. }
  split; [split|done|done]; [|done|done].
  intros l0 e0 k a0 sz0. rewrite Hheap. intros He0 Hk Hcb.
  destruct (decide (l = l0)) as [<-|Hne].
  - rewrite list_lookup_alter_eq, He in He0. simpl in He0.
    inversion He0; subst e0. simpl in Hk. by apply not_elem_of_nil in Hk.
  - rewrite list_lookup_alter_ne in He0 by done.
    apply (aw_others l0 e0 k He0); [done|done|]. by rewrite Hcb.
Qed.

End AnsweredOnce.

Section ReadOnce.

Context (cb : userCallback).

Lemma filter_none (cs : list memoryCallback) :
  (forall k, k ∈ cs -> ~ holds cb (mc_callback k)) ->
  List.filter (holdsb cb) cs = [].
Proof.
  induction cs as [|k cs IH]; intros H; [done|]. simpl.
  rewrite (proj2 (holdsb_false cb k)) by (apply H; by left).
  apply IH. intros k' Hk'. apply H. by right.
Qed.

Lemma holdsb_own (v : viewer) (a sz : Z) :
  holdsb cb (MemoryCallback v (NumberLoaded a sz cb)) = true.
Proof. unfold holdsb. simpl. apply Nat.eqb_refl. Qed.

(** The state in which a single read starts to wait, on a page that had
    no entry. *)
Lemma awaiting_fresh (s : State) (page : Z) (v : viewer) (a sz : Z) :
  quiet cb s -> cache s !! page = None ->
  let c := MemoryCallback v (NumberLoaded a sz cb) in
  awaiting cb (length (requests s)) (length (heap s)) c
    (callsOf cb s) (uncachedFor cb s)
    (issueFetch page (length (heap s)) c
       (touch (length (heap s)) (withEntry page s))).
Proof.
  intros Hq Hc c. set (s1 := issueFetch _ _ _ _).
  assert (Hheap : heap s1 = heap s ++
            [pushCallback c (setInflight true (setHits 1 newCacheEntry))])
    by (by apply heap_fresh).
  assert (Hreq : requests s1 =
                 requests s ++ [fetchRequest page (length (heap s))])
    by (by apply requests_fresh).
  assert (Hfr : frames s1 = frames s).
  { unfold s1, issueFetch, enqueue, touch, withEntry. by rewrite Hc. }
  assert (Htr : trace s1 = trace s).
  { unfold s1, issueFetch, enqueue, touch, withEntry. by rewrite Hc. }
  split.
  - eexists. split.
    + rewrite Hreq, lookup_app_r by lia. by rewrite Nat.sub_diag.
    + simpl. apply Nat.eqb_refl.
  - eexists. split; [|split].
    + rewrite Hheap, lookup_app_r by lia. by rewrite Nat.sub_diag.
    + done.
    + simpl. unfold holdsb. simpl. by rewrite Nat.eqb_refl.
  - intros l' e k. rewrite Hheap.
    intros [[_ He]|[-> _]]%lookup_snoc_Some Hl' Hk; [|done].
    by apply (quiet_holds cb s l' e k).
  - rewrite Hfr. apply (q_frame cb s Hq).
  - intros i a0. rewrite Hreq. intros [[_ H]|[_ H]]%lookup_snoc_Some.
    + by apply (q_pointer cb s Hq i a0).
    + discriminate H.
  - unfold callsOf. by rewrite Htr.
  - unfold uncachedFor. rewrite Hreq, List.filter_app. simpl.
    by rewrite app_nil_r.
Qed.

(** The state in which a single read starts to wait, on a page whose
    fetch is under way. *)
Lemma awaiting_pending (s : State) (page : Z) (l id : nat) (v : viewer)
    (a sz : Z) :
  Inv s -> quiet cb s -> cache s !! page = Some l ->
  isFetchAt id l s ->
  memory (entryAt l s) = None ->
  let c := MemoryCallback v (NumberLoaded a sz cb) in
  awaiting cb id l c (callsOf cb s) (uncachedFor cb s)
    (enqueue l c (touch l s)).
Proof.
  intros HI Hq Hc Hfetch Hm c.
  destruct (Inv_entry s page l HI Hc) as [He _].
  set (e := entryAt l s) in *.
  assert (Hheap : heap (enqueue l c (touch l s)) =
                  alter (pushCallback c ∘ (fun e => setHits (hits e + 1) e)) l
                    (heap s)).
  { unfold enqueue, touch. simpl. by rewrite list_alter_alter_eq. }
  split; try done.
  - exists (pushCallback c (setHits (hits e + 1) e)).
    rewrite Hheap, list_lookup_alter_eq, He. split; [done|]. split; [done|].
    simpl. rewrite List.filter_app, filter_none.
    + simpl. unfold holdsb. simpl. by rewrite Nat.eqb_refl.
    + intros k Hk. by apply (quiet_holds cb s l e k).
  - intros l' e' k. rewrite Hheap. intros He' Hl' Hk.
    rewrite list_lookup_alter_ne in He' by done.
    by apply (quiet_holds cb s l' e' k).
  - apply (q_frame cb s Hq).
  - apply (q_pointer cb s Hq).
Qed.

End ReadOnce.

(** X17. Take, in a reachable state, a [ReadNumber] of a supported element
    kind with a continuation that the module holds nowhere yet, on a page
    that has no entry or whose fetch is under way. The read returns
    without calling the continuation, and waits for one call on JsDbg, the
    fetch of its page. Whatever turns come before the answer to that
    fetch, the continuation is not called. The turn that brings the answer
    calls it once, with the error or with the element at the offset of the
    address in the page buffer, and whatever turns follow, it is never
    called again: a waiting read is answered exactly once. *)
Theorem X17_waiting_read_is_answered_exactly_once (s : State)
    (address size : Z) (isUnsigned isFloat : bool) (v : viewer)
    (cb : userCallback) :
  reachable s -> quiet cb s ->
  getArrayViewer size isUnsigned isFloat = Some v ->
  (cache s !! getPage address = None \/
   exists l, cache s !! getPage address = Some l /\
             memory (entryAt l s) = None) ->
  exists s1 id l,
    turn (CallReadNumber address size isUnsigned isFloat cb) s = Ok tt s1 /\
    requests s1 !! id = Some (fetchRequest (getPage address) l) /\
    (id ∉ answered s1) /\
    forall ops1 result ops2,
      Forall (fun o => ~ usesCallback cb o /\
                       forall r, o <> ReadArrayDone id r) ops1 ->
      Forall (fun o => ~ usesCallback cb o) ops2 ->
      callsOf cb (run ops1 s1) = callsOf cb s /\
      callsOf cb (run (ops1 ++ ReadArrayDone id result :: ops2) s1) =
        callsOf cb s ++ [delivered v address size (fetchedMemory result)].
Proof.
  intros Hs Hq Hv Hpage. pose proof (reachable_Inv s Hs) as HI.
  set (c := MemoryCallback v (NumberLoaded address size cb)).
  assert (Hstart : exists s1 id l,
    turn (CallReadNumber address size isUnsigned isFloat cb) s = Ok tt s1 /\
    requests s1 !! id = Some (fetchRequest (getPage address) l) /\
    (id ∉ answered s1) /\
    awaiting cb id l c (callsOf cb s) (uncachedFor cb s) s1).
  { destruct Hpage as [Hc|(l & Hc & Hm)].
    - eexists. exists (length (requests s)), (length (heap s)).
      split; [|split; [|split]].
      + simpl. unfold readNumber, bind. rewrite Hv.
        by rewrite loadPage_fresh.
      + rewrite requests_fresh by done.
        rewrite lookup_app_r by lia. by rewrite Nat.sub_diag.
      + unfold issueFetch, enqueue, touch, withEntry. rewrite Hc.
        cbn [answered setRequests setHeap setCache].
        by apply fresh_unanswered.
      + by apply awaiting_fresh.
    - destruct (cache_coherent s Hs) as [_ Hreq].
      destruct (Hreq _ l Hc) as [id Hid].
      assert (Hfetch : isFetchAt id l s).
      { eexists. split; [exact Hid|]. by apply isFetchOf_fetchRequest. }
      destruct (Inv_entry s _ l HI Hc) as [He Hok].
      exists (enqueue l c (touch l s)), id, l.
      split; [|split; [|split]].
      + simpl. unfold readNumber, bind. rewrite Hv.
        by rewrite (loadPage_pending _ v _ s l).
      + exact Hid.
      + intros Hin. by apply (eo_answered _ _ _ Hok id Hfetch) in Hin.
      + by apply (awaiting_pending cb s (getPage address)). }
  destruct Hstart as (s1 & id & l & Hturn & Hreq & Hans & HA).
  exists s1, id, l. split; [done|]. split; [done|]. split; [done|].
  intros ops1 result ops2 Hops1 Hops2.
  assert (HI1 : Inv s1).
  { destruct (turn_ok (CallReadNumber address size isUnsigned isFloat cb) s HI)
      as (s' & Hs' & HI'). rewrite Hturn in Hs'.
    injection Hs' as <-. exact HI'. }
  pose proof (awaiting_run cb id l c _ _ ops1 s1 HI1 Hops1 HA) as HA1.
  split; [apply (aw_calls _ _ _ _ _ _ _ HA1)|].
  destruct (answered_once cb id l v address size _ _ result (run ops1 s1)
              (Inv_run ops1 s1 HI1) HA1) as (s2 & Hdone & Hsil).
  unfold run. rewrite fold_left_app. cbn [fold_left].
  fold (run ops1 s1). unfold step at 2. rewrite Hdone. cbn [stateOf].
  fold (run ops2 s2).
  apply (sl_calls _ _ _ _ (silent_run cb _ _ ops2 s2 Hops2 Hsil)).
Qed.

Lemma X17_witness :
  exists s1 id l,
    turn (CallReadNumber 4100 4 true false 7%nat)
      (run [CallReadNumber 4096 2 true false 1%nat] init) = Ok tt s1 /\
    requests s1 !! id = Some (fetchRequest (getPage 4100) l) /\
    id ∉ answered s1.
Proof.
  destruct (X17_waiting_read_is_answered_exactly_once
              (run [CallReadNumber 4096 2 true false 1%nat] init)
              4100 4 true false Uint32Array 7%nat)
    as (s1 & id & l & H1 & H2 & H3 & _).
  - by eexists.
  - split.
    + intros l e k a sz. vm_compute.
      destruct l as [|l]; [|destruct l; discriminate].
      intros [= <-] Hk. apply list_elem_of_singleton in Hk. subst k.
      discriminate.
    + intros r f. vm_compute. intros H. discriminate H.
    + intros id a. destruct id as [|[|id]]; discriminate.
  - reflexivity.
  - right. exists 0%nat. split; reflexivity.
  - exists s1, id, l. split; [exact H1|]. split; [exact H2 | exact H3].
Defined.

(** X18. In a reachable state, a [ReadNumber] of a supported element kind
    with a continuation that the module holds nowhere yet, on a page whose
    fetch has ended, calls the continuation once within its own turn, with
    the stored error or with the element at the offset of the address in
    the stored buffer; whatever turns follow, the continuation is never
    called again. *)
Theorem X18_served_read_is_answered_exactly_once (s : State)
    (address size : Z) (isUnsigned isFloat : bool) (v : viewer)
    (cb : userCallback) (l : nat) (m : memoryValue) (ops : list op) :
  reachable s -> quiet cb s ->
  getArrayViewer size isUnsigned isFloat = Some v ->
  cache s !! getPage address = Some l -> memory (entryAt l s) = Some m ->
  Forall (fun o => ~ usesCallback cb o) ops ->
  exists s1,
    turn (CallReadNumber address size isUnsigned isFloat cb) s = Ok tt s1 /\
    callsOf cb s1 = callsOf cb s ++ [delivered v address size m] /\
    callsOf cb (run ops s1) = callsOf cb s ++ [delivered v address size m].
Proof.
  intros Hs Hq Hv Hc Hm Hops. pose proof (reachable_Inv s Hs) as HI.
  destruct (Inv_entry s _ l HI Hc) as [He Hok].
  assert (Hl : (l < length (heap s))%nat) by (by eapply lookup_lt_Some).
  set (s1 := setTrace (trace s ++ [Called cb (delivered v address size m)])
               (touch l s)).
  assert (Hturn : turn (CallReadNumber address size isUnsigned isFloat cb) s
                  = Ok tt s1).
  { simpl. destruct m as [b|x].
    - apply (readNumber_hit s address size isUnsigned isFloat v cb l b);
        try done.
      by apply (eo_buffer _ _ _ Hok).
    - by apply (readNumber_error s address size isUnsigned isFloat v cb l x). }
  assert (Hsil : silent cb (callsOf cb s ++ [delivered v address size m])
                   (uncachedFor cb s) s1).
  { destruct Hq as [q_number q_frame q_pointer]. split; [split|..]; try done.
    - intros l0 e0 k a sz. unfold s1, touch.
      cbn [heap setTrace setHeap]. intros He0 Hk.
      destruct (decide (l = l0)) as [<-|Hne].
      + rewrite list_lookup_alter_eq, He in He0. simpl in He0.
        inversion He0; subst e0. simpl in Hk.
        by apply (q_number l (entryAt l s) k a sz).
      + rewrite list_lookup_alter_ne in He0 by done.
        by apply (q_number l0 e0 k a sz).
    - apply (callsOf_called cb _ (touch l s)). }
  exists s1. split; [exact Hturn|]. split; [apply (sl_calls _ _ _ _ Hsil)|].
  apply (sl_calls _ _ _ _ (silent_run cb _ _ ops s1 Hops Hsil)).
Qed.

Lemma X18_witness :
  exists s1,
    turn (CallReadNumber 4100 4 true false 7%nat)
      (run [CallReadNumber 4096 2 true false 1%nat;
            ReadArrayDone 0 (ArrayData [10; 11])] init) = Ok tt s1 /\
    callsOf 7%nat s1 = [ValueOf (JNumber 11)].
Proof.
  destruct (X18_served_read_is_answered_exactly_once
              (run [CallReadNumber 4096 2 true false 1%nat;
                    ReadArrayDone 0 (ArrayData [10; 11])] init)
              4100 4 true false Uint32Array 7%nat 0%nat
              (Buffer (fillPage [10; 11])) [BreakFired])
    as (s1 & H1 & H2 & _).
  - by eexists.
  - split.
    + intros l e k a sz. vm_compute.
      destruct l as [|l]; [|destruct l; discriminate].
      intros [= <-] Hk. by apply not_elem_of_nil in Hk.
    + intros r f. vm_compute. intros H. discriminate H.
    + intros id a. destruct id as [|[|id]]; discriminate.
  - reflexivity.
  - reflexivity.
  - reflexivity.
  - repeat constructor. simpl. tauto.
  - exists s1. split; [exact H1 | exact H2].
Defined.

(** ** An array read waits for all its pages *)

Section Gathering.

Context (cb : userCallback) (r l0 r0 : nat) (v : viewer)
  (address itemSize count : Z).

Lemma forFrame_false (k : memoryCallback) :
  forFrame r k = false ->
  match mc_callback k with
  | PageLoaded r' _ => r' <> r
  | NumberLoaded _ _ _ => True
  end.
Proof.
  unfold forFrame. destruct (mc_callback k); [done|]. by apply Nat.eqb_neq.
Qed.

(** A page continuation of another activation record leaves [r] alone. *)
Lemma runMemoryCallback_frame (k : memoryCallback) (m : memoryValue)
    (s : State) :
  forFrame r k = false ->
  frames (stateOf (runMemoryCallback k m s)) !! r = frames s !! r.
Proof.
  intros Hk%forFrame_false.
  assert (Hpage : forall w,
    frames (stateOf (runPageCallback (mc_callback k) w s)) !! r = frames s !! r).
  { intros w. destruct (mc_callback k) as [a sz c'|r' i]; simpl.
    - unfold numberLoaded. destruct w as [v' b|e]; [|reflexivity].
      destruct (getOffset a sz); reflexivity.
    - unfold pageLoaded, bind, updateFrame, modify, gets. simpl.
      destruct (_ && _).
      + unfold arrayLoaded. destruct (getOffset _ _); simpl;
          by rewrite list_lookup_alter_ne.
      + simpl. by rewrite list_lookup_alter_ne. }
  unfold runMemoryCallback. destruct m as [b|e]; [|apply Hpage].
  unfold bind, newView. destruct (_ =? 0); [|reflexivity].
  apply Hpage.
Qed.

Lemma runMemoryCallback_hidden (k : memoryCallback) (m : memoryValue)
    (s : State) :
  forFrame r k = false ->
  runMemoryCallback k m (hidden r s) =
  match runMemoryCallback k m s with
  | Ok a s' => Ok a (hidden r s')
  | Throw s' => Throw (hidden r s')
  end.
Proof.
  intros Hk%forFrame_false.
  assert (Hpage : forall w,
    runPageCallback (mc_callback k) w (hidden r s) =
    match runPageCallback (mc_callback k) w s with
    | Ok a s' => Ok a (hidden r s')
    | Throw s' => Throw (hidden r s')
    end).
  { intros w. destruct (mc_callback k) as [a sz c'|r' i]; simpl.
    - unfold numberLoaded. destruct w as [v' b|e]; [|reflexivity].
      destruct (getOffset a sz); reflexivity.
    - unfold pageLoaded, bind, updateFrame, modify, gets.
      match goal with |- context [alter ?g r' (frames s)] => set (g0 := g) end.
      assert (E1 : setFrames (alter g0 r' (frames (hidden r s))) (hidden r s) =
                   hidden r (setFrames (alter g0 r' (frames s)) s)).
      { unfold hidden. simpl. by rewrite list_alter_alter_ne. }
      rewrite E1. set (s1 := setFrames (alter g0 r' (frames s)) s).
      assert (E2 : frameAt r' (hidden r s1) = frameAt r' s1).
      { unfold frameAt, hidden. simpl. by rewrite list_lookup_alter_ne. }
      rewrite E2. destruct (_ && _); [|reflexivity].
      unfold arrayLoaded. destruct (getOffset _ _); reflexivity. }
  unfold runMemoryCallback. destruct m as [b|e]; [|apply Hpage].
  unfold bind, newView. destruct (_ =? 0); [|reflexivity].
  apply Hpage.
Qed.

Context (got : list (option memoryValue)) (calls : list result)
  (reads : list request).

Local Abbreviation G :=
  (gathering cb r l0 r0 v address itemSize count got calls reads).

Lemma gathering_hidden (s : State) : G s -> silent cb calls reads (hidden r s).
Proof.
  intros [ga_frame ga_fetch ga_pending ga_done ga_others ga_number ga_frames
          ga_pointer ga_calls ga_reads].
  split; [split|done|done]; [| |done].
  - intros l e k a sz. simpl. by rewrite lookup_nil.
  - intros r' f. unfold hidden. simpl. intros Hf Hcb.
    destruct (decide (r = r')) as [<-|Hne].
    + rewrite list_lookup_alter_eq, ga_frame in Hf. simpl in Hf.
      inversion Hf. by left.
    + rewrite list_lookup_alter_ne in Hf by done. by apply (ga_frames r' f).
Qed.

Lemma gathering_ext (s s' : State) :
  heap s' = heap s -> requests s' = requests s ->
  frames s' !! r = frames s !! r ->
  silent cb calls reads (hidden r s') -> G s -> G s'.
Proof.
  intros Hh Hr Hf [[_ q_frame q_pointer] Hc Hrd]
    [ga_frame ga_fetch ga_pending ga_done ga_others ga_number ga_frames
     ga_pointer ga_calls ga_reads].
  split; try done.
  - by rewrite Hf.
  - intros i g Hi. unfold isFetchAt. rewrite Hr. by apply (ga_fetch i g).
  - intros i. rewrite Hh. apply ga_pending.
  - intros i m. rewrite Hh. apply ga_done.
  - intros l e k. rewrite Hh. apply ga_others.
  - intros l e k a sz. rewrite Hh. apply ga_number.
  - intros r' f Hne Hf' Hcb. apply (q_frame r' f); [|done].
    unfold hidden. simpl. by rewrite list_lookup_alter_ne.
Qed.

Lemma gathering_effect (k : memoryCallback) (m : memoryValue) :
  forFrame r k = false -> ~ holds cb (mc_callback k) ->
  keeps G (runMemoryCallback k m).
Proof.
  intros Hf Hk s HG.
  pose proof (silent_runMemoryCallback cb calls reads k m Hk (hidden r s)
                (gathering_hidden s HG)) as Hs.
  rewrite (runMemoryCallback_hidden k m s Hf) in Hs.
  pose proof (runMemoryCallback_effect k m s) as Heff.
  pose proof (runMemoryCallback_frame k m s Hf) as Hfr.
  destruct (runMemoryCallback k m s) as [a s'|s']; simpl in *;
    apply (gathering_ext s s'); try done;
    [apply (ce_heap _ _ Heff) | apply (ce_requests _ _ Heff)
    |apply (ce_heap _ _ Heff) | apply (ce_requests _ _ Heff)].
Qed.

(** A continuation that touches neither [cb] nor [r]. *)
Local Abbreviation benign :=
  (fun k : memoryCallback =>
     forFrame r k = false /\ ~ holds cb (mc_callback k)).

(** A change of the entries. *)
Lemma gathering_heap (h : list cacheEntry) (s : State) :
  (forall i g e,
     got !! i = Some g -> heap s !! (l0 + i)%nat = Some e ->
     exists e', h !! (l0 + i)%nat = Some e' /\ memory e' = memory e /\
                List.filter (forFrame r) (callbacks e') =
                List.filter (forFrame r) (callbacks e)) ->
  (forall l e' k,
     h !! l = Some e' -> k ∈ callbacks e' ->
     benign k \/ exists e, heap s !! l = Some e /\ k ∈ callbacks e) ->
  G s -> G (setHeap h s).
Proof.
  intros H1 H2
    [ga_frame ga_fetch ga_pending ga_done ga_others ga_number ga_frames
     ga_pointer ga_calls ga_reads].
  split; try done.
  - intros i Hi. destruct (ga_pending i Hi) as (e & He & Hm & Hf).
    destruct (H1 i None e Hi He) as (e' & He' & Hm' & Hf').
    exists e'. split; [done|]. split; congruence.
  - intros i m Hi. destruct (ga_done i m Hi) as (e & He & Hm).
    destruct (H1 i (Some m) e Hi He) as (e' & He' & Hm' & _).
    exists e'. split; [done|]. congruence.
  - intros l e' k He' Hk Hfk. simpl in He'.
    destruct (H2 l e' k He' Hk) as [[Hb _]|(e & He & Hke)]; [congruence|].
    by apply (ga_others l e k).
  - intros l e' k a sz He' Hk Hcb. simpl in He'.
    destruct (H2 l e' k He' Hk) as [[_ Hb]|(e & He & Hke)].
    + apply Hb. rewrite Hcb. reflexivity.
    + by apply (ga_number l e k a sz).
Qed.

Lemma gathering_alter (l' : nat) (g : cacheEntry -> cacheEntry) :
  ((forall e, memory (g e) = memory e /\
              List.filter (forFrame r) (callbacks (g e)) =
              List.filter (forFrame r) (callbacks e)) \/
   (forall i, (i < length got)%nat -> l' <> (l0 + i)%nat)) ->
  (forall e k, k ∈ callbacks (g e) -> benign k \/ k ∈ callbacks e) ->
  keeps G (updateEntry l' g).
Proof.
  intros Hin Hcb. apply keeps_modify. intros s HG.
  apply gathering_heap; [| |done].
  - intros i g0 e Hi He.
    destruct (decide (l' = (l0 + i)%nat)) as [->|Hne].
    + destruct Hin as [Hin|Hout].
      * exists (g e). rewrite list_lookup_alter_eq, He.
        destruct (Hin e) as [-> ->]. done.
      * exfalso. apply (Hout i); [|done]. by eapply lookup_lt_Some.
    + exists e. by rewrite list_lookup_alter_ne.
  - intros l e' k He' Hk.
    destruct (decide (l' = l)) as [->|Hne].
    + rewrite list_lookup_alter_eq in He'.
      destruct (heap s !! l) as [e|] eqn:He; [|done].
      simpl in He'. inversion He'; subst e'.
      destruct (Hcb e k Hk) as [H|H]; [by left | right; eauto].
    + rewrite list_lookup_alter_ne in He' by done. right. eauto.
Qed.

Lemma gathering_updateEntry (l' : nat) (g : cacheEntry -> cacheEntry) :
  (forall e, memory (g e) = memory e /\ callbacks (g e) = callbacks e) ->
  keeps G (updateEntry l' g).
Proof.
  intros Hg. apply gathering_alter.
  - left. intros e. destruct (Hg e) as [-> ->]. done.
  - intros e k Hk. right. destruct (Hg e) as [_ H]. by rewrite H in Hk.
Qed.

Lemma gathering_push (l' : nat) (c' : memoryCallback) :
  benign c' -> keeps G (updateEntry l' (pushCallback c')).
Proof.
  intros [Hf Hh]. apply gathering_alter.
  - left. intros e. split; [done|]. simpl.
    rewrite List.filter_app. simpl. rewrite Hf. by rewrite app_nil_r.
  - intros e k. simpl.
    intros [H|H%list_elem_of_singleton]%elem_of_app; [by right|].
    subst k. by left.
Qed.

Lemma gathering_getCacheEntry (page : Z) : keeps G (getCacheEntry page).
Proof.
  intros s HG. rewrite getCacheEntry_run. simpl. unfold withEntry.
  destruct (cache s !! page); [done|].
  assert (HG' : G (setHeap (heap s ++ [newCacheEntry]) s)).
  { apply gathering_heap; [| |done].
    - intros i g e Hi He. exists e. split; [by apply lookup_app_l_Some|done].
    - intros l e' k He' Hk.
      apply lookup_snoc_Some in He' as [[_ He']|[_ <-]]; [right; eauto|].
      simpl in Hk. by apply not_elem_of_nil in Hk. }
  destruct HG' as [? ? ? ? ? ? ? ? ? ?]. by split.
Qed.

Lemma gathering_callJsDbg (q : request) :
  isUncachedFor cb q = false ->
  (forall a, q <> GetPointerSizeRequest (PointerSizeKnown a cb)) ->
  keeps G (callJsDbg q).
Proof.
  intros Hu Hp. apply keeps_modify. intros s
    [ga_frame ga_fetch ga_pending ga_done ga_others ga_number ga_frames
     ga_pointer ga_calls ga_reads].
  split; try done.
  - intros i g Hi. destruct (ga_fetch i g Hi) as (q0 & Hq0 & Hf).
    exists q0. split; [|done]. simpl. by apply lookup_app_l_Some.
  - intros i a. simpl. intros [[_ H]|[_ H]]%lookup_snoc_Some.
    + by apply (ga_pointer i a).
    + by apply (Hp a).
  - unfold uncachedFor in *. simpl. rewrite List.filter_app. simpl.
    rewrite Hu. by rewrite app_nil_r.
Qed.

Lemma gathering_newFrame (f : frame) :
  fr_callback f <> cb ->
  keeps G (modify (fun s => setFrames (frames s ++ [f]) s)).
Proof.
  intros Hf. apply keeps_modify. intros s
    [ga_frame ga_fetch ga_pending ga_done ga_others ga_number ga_frames
     ga_pointer ga_calls ga_reads].
  split; try done.
  - simpl. by apply lookup_app_l_Some.
  - intros r' f' Hne. simpl.
    intros [[_ H]|[_ <-]]%lookup_snoc_Some Hcb; [eauto | congruence].
Qed.

Lemma gathering_ineligible (r' : nat) :
  r' <> r -> keeps G (updateFrame r' ineligible).
Proof.
  intros Hr'. apply keeps_modify. intros s
    [ga_frame ga_fetch ga_pending ga_done ga_others ga_number ga_frames
     ga_pointer ga_calls ga_reads].
  split; try done.
  - simpl. by rewrite list_lookup_alter_ne.
  - intros r2 f2 Hne. simpl. intros Hf2 Hcb.
    destruct (decide (r' = r2)) as [<-|Hne2].
    + rewrite list_lookup_alter_eq in Hf2.
      destruct (frames s !! r') as [f|]; [|done]. simpl in Hf2.
      inversion Hf2. by left.
    + rewrite list_lookup_alter_ne in Hf2 by done. eauto.
Qed.

Lemma gathering_loadPage (page : Z) (viewer : option viewer)
    (pc : pageCallback) :
  (forall v', benign (MemoryCallback v' pc)) ->
  keeps G (loadPage page viewer pc).
Proof.
  intros Hc. unfold loadPage. destruct viewer as [v'|]; [|apply keeps_ret].
  destruct (Hc v') as [Hf Hh].
  apply keeps_bind; [apply gathering_getCacheEntry|]. intros l'.
  apply keeps_bind; [by apply gathering_updateEntry|].
  intros _. apply keeps_bind; [apply keeps_gets|]. intros e.
  destruct (memory e) as [m|].
  - apply keeps_bind; [by apply gathering_effect | intros; apply keeps_ret].
  - destruct (_ =? _).
    + apply keeps_bind; [by apply gathering_updateEntry|].
      intros _. apply keeps_bind; [by apply gathering_push|].
      intros _. apply keeps_bind; [by apply gathering_callJsDbg|].
      intros _. apply keeps_ret.
    + destruct (inflight e); [|apply keeps_ret].
      apply keeps_bind; [by apply gathering_push | intros; apply keeps_ret].
Qed.

Lemma gathering_readNumber (a sz : Z) (u f : bool) (c' : userCallback) :
  c' <> cb -> keeps G (readNumber a sz u f c').
Proof.
  intros Hc. unfold readNumber. apply keeps_bind.
  - apply gathering_loadPage. intros v'. split; [done|]. simpl. done.
  - intros [|]; simpl; [apply keeps_ret|].
    apply gathering_callJsDbg; [|done]. simpl. by apply Nat.eqb_neq.
Qed.

Lemma gathering_readPointer (a : Z) (c' : userCallback) :
  c' <> cb -> keeps G (readPointer a c').
Proof.
  intros Hc. unfold readPointer. apply keeps_bind; [apply keeps_gets|].
  intros [size|]; [by apply gathering_readNumber|].
  apply gathering_callJsDbg; [done|]. congruence.
Qed.

Lemma gathering_readArray (a sz : Z) (u f : bool) (n : Z) (c' : userCallback) :
  c' <> cb -> keeps G (readArray a sz u f n c').
Proof.
  intros Hc. unfold readArray. apply keeps_bind.
  - unfold requestPages. apply keeps_bind_gets. intros s Hs.
    assert (Hr : length (frames s) <> r).
    { pose proof (ga_frame _ _ _ _ _ _ _ _ _ _ _ _ Hs) as Hf.
      apply lookup_lt_Some in Hf. lia. }
    refine (keeps_bind _ _ _ _ _ s Hs); [by apply gathering_newFrame|].
    intros _. apply keeps_bind; [|intros; apply keeps_gets].
    apply keeps_forEachFrom. intros page j _.
    apply keeps_bind.
    + apply gathering_loadPage. intros v'. split; [|simpl; tauto].
      unfold forFrame. simpl. by apply Nat.eqb_neq.
    + intros [|]; simpl; [apply keeps_ret | by apply gathering_ineligible].
  - intros [|]; simpl; [apply keeps_ret|].
    apply gathering_callJsDbg; [|done]. simpl. by apply Nat.eqb_neq.
Qed.

Lemma gathering_outside (s : State) (l' : nat) (k : memoryCallback) :
  G s -> (forall i, got !! i = Some None -> l' <> (l0 + i)%nat) ->
  k ∈ callbacks (entryAt l' s) -> benign k.
Proof.
  intros HG Hout. unfold entryAt.
  destruct (heap s !! l') as [e|] eqn:He; simpl.
  - intros Hk. split.
    + destruct (forFrame r k) eqn:Hf; [|done].
      destruct (ga_others _ _ _ _ _ _ _ _ _ _ _ _ HG l' e k He Hk Hf)
        as (i & -> & Hi).
      by destruct (Hout i Hi).
    + intros Hh. destruct (mc_callback k) as [a sz c'|r' i] eqn:E; [|done].
      simpl in Hh. subst c'.
      by apply (ga_number _ _ _ _ _ _ _ _ _ _ _ _ HG l' e k a sz).
  - intros H. by apply not_elem_of_nil in H.
Qed.

Lemma gathering_pageFetched (l' : nat) (result : arrayResult) :
  (forall i, (i < length got)%nat -> l' <> (l0 + i)%nat) ->
  keeps G (pageFetched l' result).
Proof.
  intros Hl'. unfold pageFetched.
  assert (Hup : forall g,
            (forall e k, k ∈ callbacks (g e) -> k ∈ callbacks e) ->
            keeps G (updateEntry l' g)).
  { intros g Hg. apply gathering_alter; [by right|].
    intros e k Hk. right. by apply Hg. }
  apply keeps_bind.
  { destruct result.
    - by apply Hup.
    - apply keeps_bind; [|intros _]; by apply Hup. }
  intros _. apply keeps_bind_gets. intros s Hs.
  assert (Hcs : forall k, k ∈ callbacks (entryAt l' s) -> benign k).
  { intros k. apply (gathering_outside s l' k Hs).
    intros i Hi. apply Hl'. by eapply lookup_lt_Some. }
  refine (keeps_bind _ _ _ _ _ s Hs).
  - unfold forEach. apply keeps_forEachFrom. intros k j Hk.
    apply keeps_bind; [apply keeps_gets|]. intros e.
    destruct (memory e); [|apply keeps_throw].
    destruct (Hcs k Hk). by apply gathering_effect.
  - intros _. apply Hup. intros e k. simpl.
    intros H. by apply not_elem_of_nil in H.
Qed.

Lemma gathering_other (g : State -> State) :
  (forall s, heap (g s) = heap s /\ frames (g s) = frames s /\
             requests (g s) = requests s /\ trace (g s) = trace s) ->
  keeps G (modify g).
Proof.
  intros Hg. apply keeps_modify. intros s HG.
  destruct (Hg s) as (Hh & Hf & Hr & Ht).
  apply (gathering_ext s); [done|done|by rewrite Hf| |done].
  apply (silent_same cb calls reads (hidden r s)); try done.
  - unfold hidden. simpl. by rewrite Hf.
  - by apply gathering_hidden.
Qed.

(** A turn that neither uses [cb] nor brings the answer to one of the
    fetches of the array. *)
Lemma gathering_step (o : op) (s : State) :
  Inv s -> ~ usesCallback cb o ->
  (forall i q, (i < length got)%nat -> o <> ReadArrayDone (r0 + i) q) ->
  G s -> G (step o s).
Proof.
  intros HI Ho Hid HG. unfold step.
  destruct o as [a c'|a sz u f c'|a sz u f n c'| |id' result|id' x]; simpl.
  - by apply gathering_readPointer.
  - by apply gathering_readNumber.
  - by apply gathering_readArray.
  - by apply (gathering_other (setCache ∅)).
  - unfold bind, gets.
    destruct (requests s !! id') as [[a sz u f n [l'|c'|a' c']| |]|] eqn:E;
      try exact HG.
    destruct (bool_decide (id' ∈ answered s)) eqn:Hans; [exact HG|].
    unfold markAnswered, modify.
    apply gathering_pageFetched.
    + intros i Hi ->. apply (Hid i result Hi). f_equal.
      destruct (lookup_lt_is_Some_2 got i Hi) as [g Hg].
      pose proof (ga_fetch _ _ _ _ _ _ _ _ _ _ _ _ HG i g Hg) as Hf.
      assert (He : exists e, heap s !! (l0 + i)%nat = Some e).
      { destruct g as [m|].
        - destruct (ga_done _ _ _ _ _ _ _ _ _ _ _ _ HG i m Hg) as (e & He & _).
          eauto.
        - destruct (ga_pending _ _ _ _ _ _ _ _ _ _ _ _ HG i Hg) as (e & He & _).
          eauto. }
      destruct He as [e He].
      apply (eo_unique _ _ _ (inv_entries s HI _ e He)); [|done].
      eexists. split; [exact E|]. simpl. apply Nat.eqb_refl.
    + by apply (gathering_other (fun s => setAnswered ({[id']} ∪ answered s) s)).
  - unfold bind, gets.
    destruct (requests s !! id') as [[| |[l'|c'|a c']]|] eqn:E; try exact HG.
    destruct (bool_decide (id' ∈ answered s)); [exact HG|].
    unfold markAnswered, modify, pointerSizeKnown, bind, modify.
    apply gathering_readPointer.
    + intros ->. by apply (ga_pointer _ _ _ _ _ _ _ _ _ _ _ _ HG id' a).
    + apply (gathering_other (fun s => setPointerSize x s)); [done|].
      by apply (gathering_other (fun s => setAnswered ({[id']} ∪ answered s) s)).
Qed.

End Gathering.

(** *** The answer to one of the fetches of the array *)

Section GatherAnswer.

Context (cb : userCallback) (r l0 r0 : nat) (v : viewer)
  (address itemSize count : Z).

Lemma awaited_insert (got : list (option memoryValue)) (i : nat)
    (m : memoryValue) :
  got !! i = Some None -> awaited got = S (awaited (<[i := Some m]> got)).
Proof.
  unfold awaited. revert i. induction got as [|g got IH]; intros i Hi.
  - by rewrite lookup_nil in Hi.
  - destruct i as [|i]; simpl in Hi.
    + inversion Hi; subst g. reflexivity.
    + simpl. destruct g; simpl; by rewrite (IH i Hi).
Qed.

Lemma map_insert {A B} (f : A -> B) (xs : list A) (i : nat) (x : A) :
  map f (<[i := x]> xs) = <[i := f x]> (map f xs).
Proof.
  revert i. induction xs as [|y xs IH]; intros i; [done|].
  destruct i; simpl; [done|]. by rewrite IH.
Qed.

Lemma arraySet_insert {A} (i : nat) (x : A) (xs : list (option A)) :
  (i < length xs)%nat -> arraySet i x xs = <[i := Some x]> xs.
Proof.
  intros Hi. unfold arraySet.
  by rewrite (proj2 (Nat.ltb_lt i (length xs)) Hi).
Qed.

(** [pageLoaded] of the page that ends: the view goes into its slot, and
    when it was the last one awaited the array is assembled and handed to
    the client. *)
Lemma pageLoaded_gather (got : list (option memoryValue)) (i : nat)
    (m : memoryValue) (index : Z) (s : State) :
  frames s !! r = Some (gatherFrame v address itemSize count cb got) ->
  got !! i = Some None ->
  getOffset address itemSize = Some index ->
  let got' := <[i := Some m]> got in
  let s1 := setFrames
              (<[r := gatherFrame v address itemSize count cb got']> (frames s))
              s in
  pageLoaded r i (viewOf v m) s =
  if (awaited got' =? 0)%nat
  then Ok tt (setTrace
                (trace s1 ++
                 [Called cb (assembled (assemble index count
                                          (map (option_map (viewOf v)) got')))])
                s1)
  else Ok tt s1.
Proof.
  intros Hf Hi Hoff got' s1.
  unfold pageLoaded, bind, updateFrame, modify, gets.
  match goal with |- context [setFrames (alter ?g r (frames s)) s] =>
    assert (Ha : alter g r (frames s) =
                 <[r := gatherFrame v address itemSize count cb got']> (frames s))
  end.
  { apply list_eq. intros j. destruct (decide (r = j)) as [<-|Hne].
    - rewrite list_lookup_alter_eq, Hf.
      rewrite list_lookup_insert_eq by (by eapply lookup_lt_Some).
      cbn [fmap option_fmap option_map]. f_equal. unfold gatherFrame.
      cbn [areAllPagesEligible loadedViews remainingViews fr_address
           fr_itemSize fr_count fr_callback].
      rewrite arraySet_insert
        by (rewrite length_map; by eapply lookup_lt_Some).
      unfold got'. rewrite map_insert. f_equal.
      rewrite (awaited_insert got i m Hi). lia.
    - by rewrite list_lookup_alter_ne, list_lookup_insert_ne. }
  rewrite Ha. fold s1.
  assert (Hfr : frameAt r s1 = gatherFrame v address itemSize count cb got').
  { unfold frameAt, s1. simpl.
    by rewrite list_lookup_insert_eq by (by eapply lookup_lt_Some). }
  rewrite Hfr.
  cbn [gatherFrame areAllPagesEligible loadedViews remainingViews fr_address
       fr_itemSize fr_count fr_callback].
  rewrite andb_true_r.
  destruct (awaited got') as [|k] eqn:Hk.
  - simpl. unfold arrayLoaded. rewrite Hoff. reflexivity.
  - replace (Z.of_nat (S k) =? 0) with false by (symmetry; apply Z.eqb_neq; lia).
    reflexivity.
Qed.

Context (calls : list result) (reads : list request).

(** While a queue is notified: the entries are out of sight, and the
    activation record is as [got] tells. *)
Local Abbreviation during :=
  (fun (got : list (option memoryValue)) (s : State) =>
     silent cb calls reads (hidden r s) /\
     frames s !! r = Some (gatherFrame v address itemSize count cb got)).

Lemma during_benign (got : list (option memoryValue)) (k : memoryCallback)
    (m : memoryValue) (s s' : State) :
  forFrame r k = false -> ~ holds cb (mc_callback k) ->
  runMemoryCallback k m s = Ok tt s' ->
  during got s -> during got s'.
Proof.
  intros Hf Hk Hrun [Hs Hfr]. split.
  - pose proof (silent_runMemoryCallback cb calls reads k m Hk (hidden r s) Hs)
      as H1.
    by rewrite (runMemoryCallback_hidden r k m s Hf), Hrun in H1.
  - pose proof (runMemoryCallback_frame r k m s Hf) as H1.
    rewrite Hrun in H1. simpl in H1. by rewrite H1.
Qed.

(** What holds once the queue of the page that ended has been notified. *)
Local Abbreviation after :=
  (fun (got' : list (option memoryValue)) (index : Z) (s : State) =>
     if (awaited got' =? 0)%nat
     then silent cb
            (calls ++ [assembled (assemble index count
                                    (map (option_map (viewOf v)) got'))])
            reads (setHeap [] s)
     else during got' s).

Lemma after_benign (got' : list (option memoryValue)) (index : Z)
    (m : memoryValue) (cs : list memoryCallback) (s s' : State) :
  notified m cs s s' ->
  Forall (fun k => forFrame r k = false /\ ~ holds cb (mc_callback k)) cs ->
  after got' index s -> after got' index s'.
Proof.
  induction 1 as [s|k cs s s1 s2 Hrun _ IH]; intros Hcs Hs; [done|].
  apply Forall_cons in Hcs as [[Hf Hk] Hcs]. apply IH; [done|].
  destruct (awaited got' =? 0)%nat.
  - pose proof (silent_runMemoryCallback cb _ reads k m Hk (setHeap [] s) Hs)
      as H1.
    by rewrite runMemoryCallback_setHeap, Hrun in H1.
  - by apply (during_benign got' k m s s1).
Qed.

Lemma notified_gather (got : list (option memoryValue)) (i : nat)
    (index : Z) (m : memoryValue) (cs : list memoryCallback) (s s' : State) :
  notified m cs s s' ->
  got !! i = Some None ->
  getOffset address itemSize = Some index ->
  (forall b, m = Buffer b -> length b = Z.to_nat PAGE_SIZE) ->
  List.filter (forFrame r) cs = [MemoryCallback v (PageLoaded r i)] ->
  Forall (fun k => ~ holds cb (mc_callback k)) cs ->
  during got s -> after (<[i := Some m]> got) index s'.
Proof.
  intros Hn Hi Hoff Hb.
  induction Hn as [s|k cs s s1 s2 Hrun Hrest IH]; intros Hf Hcs Hs; [done|].
  apply Forall_cons in Hcs as [Hk Hcs].
  simpl in Hf. destruct (forFrame r k) eqn:Hfk.
  - inversion Hf as [[Hkc Hnone]]. subst k.
    assert (Hrest' : Forall (fun k => forFrame r k = false /\
                                      ~ holds cb (mc_callback k)) cs).
    { clear -Hnone Hcs. induction cs as [|k cs IH]; [constructor|].
      apply Forall_cons in Hcs as [Hk Hcs].
      simpl in Hnone. destruct (forFrame r k) eqn:Hfk; [discriminate|].
      constructor; auto. }
    apply (after_benign _ index m cs s1 s2 Hrest Hrest').
    destruct Hs as [Hs Hfr].
    assert (Hrun' : pageLoaded r i (viewOf v m) s = Ok tt s1).
    { unfold runMemoryCallback in Hrun. destruct m as [b|e]; [|exact Hrun].
      unfold bind in Hrun. rewrite newView_page in Hrun by (by apply Hb).
      exact Hrun. }
    rewrite (pageLoaded_gather got i m index s Hfr Hi Hoff) in Hrun'.
    cbv zeta in Hrun'.
    destruct Hs as [[_ q_frame q_pointer] Hc Hr].
    assert (Hq : forall r' f,
              r' <> r -> frames s !! r' = Some f -> fr_callback f = cb ->
              areAllPagesEligible f = false \/ remainingViews f <= 0).
    { intros r' f Hne Hf' Hcb. apply (q_frame r' f); [|done].
      unfold hidden. simpl. by rewrite list_lookup_alter_ne. }
    destruct (awaited (<[i := Some m]> got) =? 0)%nat eqn:Hz;
      injection Hrun' as <-.
    + apply Nat.eqb_eq in Hz. split; [split|..].
      * intros l e k a sz. simpl. by rewrite lookup_nil.
      * intros r' f. simpl. intros Hf' Hcb.
        destruct (decide (r = r')) as [<-|Hne].
        -- rewrite list_lookup_insert_eq in Hf' by (by eapply lookup_lt_Some).
           inversion Hf'. right. simpl. lia.
        -- rewrite list_lookup_insert_ne in Hf' by done. by apply (Hq r' f).
      * exact q_pointer.
      * unfold callsOf in *. simpl. rewrite omap_app. simpl.
        rewrite Nat.eqb_refl. by rewrite <- Hc.
      * exact Hr.
    + split; [split; [split|..]|].
      * intros l e k a sz. simpl. by rewrite lookup_nil.
      * intros r' f. unfold hidden. simpl. intros Hf' Hcb.
        destruct (decide (r = r')) as [<-|Hne].
        -- rewrite list_lookup_alter_eq in Hf'.
           rewrite list_lookup_insert_eq in Hf' by (by eapply lookup_lt_Some).
           simpl in Hf'. inversion Hf'. by left.
        -- rewrite list_lookup_alter_ne in Hf' by done.
           rewrite list_lookup_insert_ne in Hf' by done. by apply (Hq r' f).
      * exact q_pointer.
      * exact Hc.
      * exact Hr.
      * simpl. by rewrite list_lookup_insert_eq by (by eapply lookup_lt_Some).
  - apply IH; [done|done|]. by apply (during_benign got k m s s1).
Qed.

(** The turn that brings the answer to the fetch of page [i] of the array:
    the page is recorded, and when it was the last one awaited [cb] is
    called with the assembled array and nothing holds it any more. *)
Lemma gathering_answer (got : list (option memoryValue)) (i : nat)
    (result : arrayResult) (s : State) :
  Inv s ->
  gathering cb r l0 r0 v address itemSize count got calls reads s ->
  got !! i = Some None ->
  exists s' index,
    turn (ReadArrayDone (r0 + i) result) s = Ok tt s' /\
    getOffset address itemSize = Some index /\
    let got' := <[i := Some (fetchedMemory result)]> got in
    if (awaited got' =? 0)%nat
    then silent cb
           (calls ++ [assembled (assemble index count
                                   (map (option_map (viewOf v)) got'))])
           reads s'
    else gathering cb r l0 r0 v address itemSize count got' calls reads s'.
Proof.
  intros HI HG Hi.
  pose proof HG as
    [ga_frame ga_fetch ga_pending ga_done ga_others ga_number ga_frames
     ga_pointer ga_calls ga_reads].
  destruct (ga_pending i Hi) as (e & He & Hm & Hf).
  pose proof (ga_fetch i None Hi) as Hfetch.
  pose proof Hfetch as (rq & Hr & Hfl).
  destruct rq as [page size u f n [l'|c'|a' c']| |]; try discriminate.
  simpl in Hfl. apply Nat.eqb_eq in Hfl. subst l'.
  set (id := (r0 + i)%nat) in *. set (l := (l0 + i)%nat) in *.
  assert (Hans : id ∉ answered s).
  { intros Hin.
    by apply (eo_answered _ _ _ (inv_entries s HI l e He) id Hfetch) in Hin. }
  assert (Hin : MemoryCallback v (PageLoaded r i) ∈ callbacks e).
  { apply list_elem_of_In.
    apply (proj1 (List.filter_In (forFrame r) _ (callbacks e))).
    rewrite Hf. by left. }
  assert (Hsz : itemSize <> 0).
  { pose proof (eo_callbacks _ _ _ (inv_entries s HI l e He)) as Hok.
    rewrite Forall_forall in Hok. destruct (Hok _ Hin) as (f0 & Hf0 & Hne).
    rewrite ga_frame in Hf0. inversion Hf0; subst f0. exact Hne. }
  assert (Hoff : getOffset address itemSize =
                 Some (Z.quot (Z.rem address PAGE_SIZE) itemSize)).
  { unfold getOffset.
    by rewrite (proj2 (Z.eqb_neq itemSize 0) Hsz). }
  destruct (fetch_answered s id page size n u f l result HI Hr Hans)
    as [(s0 & Hrun & Hn & _) _].
  rewrite (entryAt_lookup l s e He) in Hn.
  exists (emptied l s0), (Z.quot (Z.rem address PAGE_SIZE) itemSize).
  split; [exact Hrun|]. split; [exact Hoff|].
  assert (Hcs : Forall (fun k => ~ holds cb (mc_callback k)) (callbacks e)).
  { apply Forall_forall. intros k Hk Hh.
    destruct k as [vk [a sz c'|r' i']]; simpl in Hh; [|done]. subst c'.
    by apply (ga_number l e _ a sz He Hk). }
  assert (Hpre : silent cb calls reads (hidden r (stored id l result s)) /\
                 frames (stored id l result s) !! r =
                 Some (gatherFrame v address itemSize count cb got)).
  { split.
    - apply (silent_same cb calls reads (hidden r s)).
      + reflexivity.
      + by destruct result.
      + by destruct result.
      + by destruct result.
      + exact (gathering_hidden cb r l0 r0 v address itemSize count got
                 calls reads s HG).
    - by destruct result. }
  pose proof (notified_gather got i _ (fetchedMemory result) (callbacks e)
                _ _ Hn Hi Hoff (fetchedMemory_page result) Hf Hcs Hpre)
    as Hpost.
  pose proof (notified_effect _ _ _ _ Hn) as Heff.
  assert (Hheap : heap (emptied l s0) =
                  alter (setCallbacks [] ∘ storeResult result) l (heap s)).
  { unfold emptied. simpl. rewrite (ce_heap _ _ Heff), stored_heap.
    by rewrite list_alter_alter_eq. }
  assert (Hreq : requests (emptied l s0) = requests s).
  { unfold emptied. simpl. rewrite (ce_requests _ _ Heff).
    by destruct result. }
  assert (Hnum : forall l1 e1 k a sz,
            heap (emptied l s0) !! l1 = Some e1 -> k ∈ callbacks e1 ->
            mc_callback k <> NumberLoaded a sz cb).
  { intros l1 e1 k a sz. rewrite Hheap. intros He1 Hk.
    destruct (decide (l = l1)) as [<-|Hne].
    - rewrite list_lookup_alter_eq, He in He1. simpl in He1.
      inversion He1; subst e1. simpl in Hk. by apply not_elem_of_nil in Hk.
    - rewrite list_lookup_alter_ne in He1 by done.
      by apply (ga_number l1 e1 k a sz He1). }
  cbv zeta. cbv beta in Hpost.
  destruct (awaited (<[i := Some (fetchedMemory result)]> got) =? 0)%nat.
  - destruct Hpost as [[_ q_frame q_pointer] Hc Hrd].
    split; [split|done|done]; [exact Hnum|done|done].
  - destruct Hpost as [[[_ q_frame q_pointer] Hc Hrd] Hfr].
    split.
    + exact Hfr.
    + intros j g Hj. unfold isFetchAt. rewrite Hreq.
      destruct (lookup_lt_is_Some_2 got j) as [g0 Hg0].
      { apply lookup_lt_Some in Hj. by rewrite length_insert in Hj. }
      by apply (ga_fetch j g0).
    + intros j Hj. rewrite Hheap.
      destruct (decide (i = j)) as [<-|Hne].
      { rewrite list_lookup_insert_eq in Hj by (by eapply lookup_lt_Some).
        discriminate. }
      rewrite list_lookup_insert_ne in Hj by done.
      rewrite list_lookup_alter_ne by (unfold l; lia).
      by apply ga_pending.
    + intros j m Hj. rewrite Hheap.
      destruct (decide (i = j)) as [<-|Hne].
      * rewrite list_lookup_insert_eq in Hj by (by eapply lookup_lt_Some).
        inversion Hj; subst m.
        exists ((setCallbacks [] ∘ storeResult result) e). split.
        -- fold l. by rewrite list_lookup_alter_eq, He.
        -- simpl. apply memory_storeResult.
      * rewrite list_lookup_insert_ne in Hj by done.
        rewrite list_lookup_alter_ne by (unfold l; lia).
        by apply ga_done.
    + intros l1 e1 k. rewrite Hheap. intros He1 Hk Hfk.
      destruct (decide (l = l1)) as [<-|Hne].
      * rewrite list_lookup_alter_eq, He in He1. simpl in He1.
        inversion He1; subst e1. simpl in Hk. by apply not_elem_of_nil in Hk.
      * rewrite list_lookup_alter_ne in He1 by done.
        destruct (ga_others l1 e1 k He1 Hk Hfk) as (j & -> & Hj).
        exists j. split; [done|].
        rewrite list_lookup_insert_ne; [done|]. intros ->. by apply Hne.
    + exact Hnum.
    + intros r' f0 Hne Hf0 Hcb. apply (q_frame r' f0); [|done].
      unfold hidden. simpl. by rewrite list_lookup_alter_ne.
    + exact q_pointer.
    + exact Hc.
    + exact Hrd.
Qed.

End GatherAnswer.

(** *** The answers to the fetches of the array, in any order *)

Section GatherRun.

Lemma awaited_pending (got : list (option memoryValue)) (i : nat) :
  got !! i = Some None -> awaited got <> 0%nat.
Proof.
  intros Hi. rewrite (awaited_insert got i (Buffer []) Hi). lia.
Qed.

Lemma gotAfter_lookup (r0 : nat) (got : list (option memoryValue))
    (ops : list op) (j : nat) :
  gotAfter r0 got ops !! j =
  match got !! j with
  | Some (Some m) => Some (Some m)
  | Some None => Some (firstAnswer (r0 + j) ops)
  | None => None
  end.
Proof.
  unfold gotAfter. rewrite list_lookup_imap.
  by destruct (got !! j) as [[m|]|].
Qed.

Lemma gotAfter_nil (r0 : nat) (got : list (option memoryValue)) :
  gotAfter r0 got [] = got.
Proof.
  apply list_eq. intros j. rewrite gotAfter_lookup.
  by destruct (got !! j) as [[m|]|].
Qed.

Lemma gotAfter_full (r0 : nat) (got : list (option memoryValue))
    (ops : list op) :
  awaited got = 0%nat -> gotAfter r0 got ops = got.
Proof.
  intros H. apply list_eq. intros j. rewrite gotAfter_lookup.
  destruct (got !! j) as [[m|]|] eqn:E; try done.
  by destruct (awaited_pending got j E).
Qed.

Lemma gotAfter_skip (r0 : nat) (got : list (option memoryValue)) (o : op)
    (ops : list op) :
  (forall i q, got !! i = Some None -> o <> ReadArrayDone (r0 + i) q) ->
  gotAfter r0 got (o :: ops) = gotAfter r0 got ops.
Proof.
  intros H. apply list_eq. intros j. rewrite !gotAfter_lookup.
  destruct (got !! j) as [[m|]|] eqn:E; try done.
  f_equal. destruct o as [| | | |id' q|]; try done. simpl.
  destruct (Nat.eqb_spec id' (r0 + j)) as [->|]; [|done].
  by destruct (H j q E).
Qed.

Lemma gotAfter_answer (r0 : nat) (got : list (option memoryValue))
    (i : nat) (q : arrayResult) (ops : list op) :
  got !! i = Some None ->
  gotAfter r0 got (ReadArrayDone (r0 + i) q :: ops) =
  gotAfter r0 (<[i := Some (fetchedMemory q)]> got) ops.
Proof.
  intros Hi. apply list_eq. intros j. rewrite !gotAfter_lookup.
  destruct (decide (i = j)) as [<-|Hne].
  - rewrite Hi, list_lookup_insert_eq by (by eapply lookup_lt_Some).
    simpl. by rewrite Nat.eqb_refl.
  - rewrite list_lookup_insert_ne by done.
    destruct (got !! j) as [[m|]|]; try done. simpl.
    destruct (Nat.eqb_spec (r0 + i) (r0 + j)); [lia|done].
Qed.

Context (cb : userCallback) (r l0 r0 : nat) (v : viewer)
  (address itemSize count : Z) (calls : list result) (reads : list request).

(** Whatever turns follow, in whatever order the answers come: [cb] has
    been called once, with the array assembled in page order from what
    the fetches brought, if every fetch has been answered, and has not
    been called otherwise. *)
Lemma gathering_run (index : Z) (ops : list op) :
  getOffset address itemSize = Some index ->
  Forall (fun o => ~ usesCallback cb o) ops ->
  forall (got : list (option memoryValue)) (s : State),
    Inv s -> awaited got <> 0%nat ->
    gathering cb r l0 r0 v address itemSize count got calls reads s ->
    callsOf cb (run ops s) =
    calls ++
    (if (awaited (gotAfter r0 got ops) =? 0)%nat
     then [assembled (assemble index count
                        (map (option_map (viewOf v)) (gotAfter r0 got ops)))]
     else []).
Proof.
  intros Hoff Hops. induction Hops as [|o ops Ho Hops IH]; intros got s HI Hw HG.
  - rewrite gotAfter_nil. simpl.
    rewrite (proj2 (Nat.eqb_neq _ _) Hw), app_nil_r.
    apply (ga_calls _ _ _ _ _ _ _ _ _ _ _ _ HG).
  - change (run (o :: ops) s) with (run ops (step o s)).
    assert (Hcase :
      (exists i q, got !! i = Some None /\ o = ReadArrayDone (r0 + i) q) \/
      (exists i q m, got !! i = Some (Some m) /\ o = ReadArrayDone (r0 + i) q) \/
      (forall i q, (i < length got)%nat -> o <> ReadArrayDone (r0 + i) q)).
    { destruct o as [| | | |id' q|]; try (right; right; intros; discriminate).
      destruct (decide (r0 <= id')%nat) as [Hle|Hlt].
      - destruct (got !! (id' - r0)%nat) as [[m|]|] eqn:E.
        + right. left. exists (id' - r0)%nat, q, m. split; [done|].
          f_equal. lia.
        + left. exists (id' - r0)%nat, q. split; [done|]. f_equal. lia.
        + right. right. intros i q' Hi [= -> _].
          apply lookup_ge_None in E. lia.
      - right. right. intros i q' Hi [= -> _]. lia. }
    destruct Hcase as [(i & q & Hi & ->)|[(i & q & m & Hi & ->)|Hout]].
    + rewrite (gotAfter_answer r0 got i q ops Hi).
      destruct (gathering_answer cb r l0 r0 v address itemSize count calls
                  reads got i q s HI HG Hi) as (s' & index' & Hturn & Hoff' & Hpost).
      rewrite Hoff in Hoff'. injection Hoff' as <-.
      assert (Hstep : step (ReadArrayDone (r0 + i) q) s = s').
      { unfold step. by rewrite Hturn. }
      rewrite Hstep. cbv zeta in Hpost.
      destruct (awaited (<[i := Some (fetchedMemory q)]> got) =? 0)%nat eqn:Hz.
      * apply Nat.eqb_eq in Hz. rewrite (gotAfter_full r0 _ ops Hz).
        rewrite (proj2 (Nat.eqb_eq _ _) Hz).
        apply (sl_calls _ _ _ _ (silent_run cb _ _ ops s' Hops Hpost)).
      * apply Nat.eqb_neq in Hz. apply IH; [|done|done].
        rewrite <- Hstep. by apply Inv_step.
    + rewrite gotAfter_skip.
      2:{ intros j q' Hj [= Hij _].
          assert (i = j) by lia. subst j. congruence. }
      assert (Hskip : step (ReadArrayDone (r0 + i) q) s = s).
      { unfold step. rewrite turn_fetched_skip; [done|]. right.
        destruct (ga_done _ _ _ _ _ _ _ _ _ _ _ _ HG i m Hi) as (e & He & Hm).
        apply (eo_answered _ _ _ (inv_entries s HI _ e He) (r0 + i)%nat).
        - apply (ga_fetch _ _ _ _ _ _ _ _ _ _ _ _ HG i _ Hi).
        - by rewrite Hm. }
      rewrite Hskip. by apply IH.
    + rewrite gotAfter_skip.
      2:{ intros j q' Hj. apply Hout. by eapply lookup_lt_Some. }
      apply IH; [by apply Inv_step|done|].
      by apply gathering_step.
Qed.

End GatherRun.

(** *** The array read whose pages have no entry yet *)

Section GatherStart.

Lemma pages_NoDup (address itemSize count : Z) :
  NoDup (calculatePagesForArray address itemSize count).
Proof.
  rewrite calculatePagesForArray_unfold.
  assert (Hinj : Inj eq eq
            (fun k : nat => getPage address + PAGE_SIZE * Z.of_nat k)).
  { intros j k H. unfold PAGE_SIZE in H. lia. }
  apply (NoDup_fmap_2 _ _ (NoDup_seq 0 _)).
Qed.

Lemma awaited_replicate (n : nat) :
  awaited (replicate n (@None memoryValue)) = n.
Proof. unfold awaited. induction n as [|n IH]; simpl; [done|by rewrite IH]. Qed.

Lemma newFrame_gather (v : viewer) (pages : list Z)
    (address itemSize count : Z) (cb : userCallback) :
  newFrame pages address itemSize count cb =
  gatherFrame v address itemSize count cb (replicate (length pages) None).
Proof.
  unfold newFrame, gatherFrame. rewrite awaited_replicate. f_equal.
  induction (length pages) as [|n IH]; simpl; [done|by rewrite <- IH].
Qed.

Lemma cache_fresh (page : Z) (c : memoryCallback) (s : State) :
  cache s !! page = None ->
  cache (issueFetch page (length (heap s)) c
           (touch (length (heap s)) (withEntry page s))) =
  <[page := length (heap s)]> (cache s).
Proof.
  intros Hc. unfold issueFetch, enqueue, touch, withEntry. by rewrite Hc.
Qed.

(** The loop of [requestPages] over pages none of which has an entry:
    every page gets a new entry, touched once, with the continuation of
    the array in its queue, and its fetch is issued. *)
Lemma cold_loop (v : viewer) (r : nat) (pages : list Z) :
  forall (i : nat) (s : State),
    NoDup pages ->
    (forall p, p ∈ pages -> cache s !! p = None) ->
    exists s',
      forEachFrom i (requestPage (Some v) r) pages s = Ok tt s' /\
      heap s' = heap s ++ imap (fun j _ => firstTouched v r (i + j)) pages /\
      requests s' =
        requests s ++
        imap (fun j p => fetchRequest p (length (heap s) + j)) pages /\
      frames s' = frames s /\ trace s' = trace s.
Proof.
  induction pages as [|page pages IH]; intros i s Hnd Hc.
  - exists s. simpl. by rewrite !app_nil_r.
  - apply NoDup_cons in Hnd as [Hnotin Hnd].
    assert (Hpage : cache s !! page = None) by (apply Hc; by left).
    set (c := MemoryCallback v (PageLoaded r i)).
    set (s1 := issueFetch page (length (heap s)) c
                 (touch (length (heap s)) (withEntry page s))).
    assert (Hone : requestPage (Some v) r page i s = Ok tt s1).
    { unfold requestPage, bind. by rewrite loadPage_fresh. }
    assert (Hheap : heap s1 = heap s ++ [firstTouched v r i])
      by (by apply heap_fresh).
    assert (Hreq : requests s1 =
                   requests s ++ [fetchRequest page (length (heap s))])
      by (by apply requests_fresh).
    assert (Hfr : frames s1 = frames s).
    { unfold s1, issueFetch, enqueue, touch, withEntry. by rewrite Hpage. }
    assert (Htr : trace s1 = trace s).
    { unfold s1, issueFetch, enqueue, touch, withEntry. by rewrite Hpage. }
    assert (Hcache : cache s1 = <[page := length (heap s)]> (cache s))
      by (by apply cache_fresh).
    clearbody s1.
    destruct (IH (S i) s1 Hnd) as (s' & Hrun & Hh & Hr & Hf & Ht).
    { intros p Hp. rewrite Hcache.
      rewrite lookup_insert_ne; [apply Hc; by right|].
      intros ->. by apply Hnotin. }
    exists s'. split; [|split; [|split; [|split]]].
    + cbn [forEachFrom]. unfold bind. by rewrite Hone.
    + rewrite Hh, Hheap, <- app_assoc. f_equal. simpl.
      rewrite Nat.add_0_r. f_equal. apply imap_ext. intros j p _.
      simpl. f_equal. lia.
    + rewrite Hr, Hreq, <- app_assoc. f_equal. simpl.
      rewrite Nat.add_0_r. f_equal. apply imap_ext. intros j p _.
      simpl. f_equal. rewrite Hheap, length_app. simpl. lia.
    + by rewrite Hf.
    + by rewrite Ht.
Qed.

Lemma uncachedFor_fetches (cb : userCallback) (l : nat) (pages : list Z) :
  List.filter (isUncachedFor cb)
    (imap (fun j p => fetchRequest p (l + j)) pages) = [].
Proof.
  revert l. induction pages as [|p pages IH]; intros l; [done|].
  simpl. rewrite <- (IH (S l)). f_equal. apply imap_ext.
  intros j q _. simpl. f_equal. lia.
Qed.

(** The state in which an array read starts to wait, on pages that had no
    entry. *)
Lemma gathering_cold (cb : userCallback) (v : viewer) (pages : list Z)
    (address itemSize count : Z) (s s1 : State) :
  Inv s -> quiet cb s ->
  heap s1 =
    heap s ++ imap (fun j _ => firstTouched v (length (frames s)) (0 + j)) pages ->
  requests s1 =
    requests s ++ imap (fun j p => fetchRequest p (length (heap s) + j)) pages ->
  frames s1 = frames s ++ [newFrame pages address itemSize count cb] ->
  trace s1 = trace s ->
  gathering cb (length (frames s)) (length (heap s)) (length (requests s)) v
    address itemSize count (replicate (length pages) None)
    (callsOf cb s) (uncachedFor cb s) s1.
Proof.
  intros HI Hq Hh Hr Hf Ht.
  assert (Hnew : forall i, (i < length pages)%nat ->
            heap s1 !! (length (heap s) + i)%nat =
            Some (firstTouched v (length (frames s)) i)).
  { intros i Hi. rewrite Hh, lookup_app_r by lia.
    replace (length (heap s) + i - length (heap s))%nat with i by lia.
    rewrite list_lookup_imap.
    destruct (lookup_lt_is_Some_2 pages i Hi) as [p ->]. done. }
  assert (Hold : forall l e, heap s1 !! l = Some e ->
            heap s !! l = Some e \/
            exists i, (i < length pages)%nat /\ l = (length (heap s) + i)%nat /\
                      e = firstTouched v (length (frames s)) i).
  { intros l e. rewrite Hh. intros [He|[Hl He]]%lookup_app_Some; [by left|].
    right. exists (l - length (heap s))%nat.
    assert (Hlt : (l - length (heap s) < length pages)%nat).
    { apply lookup_lt_Some in He. by rewrite length_imap in He. }
    split; [done|]. split; [lia|].
    rewrite list_lookup_imap in He.
    destruct (lookup_lt_is_Some_2 pages _ Hlt) as [p Hp].
    rewrite Hp in He. simpl in He. by inversion He. }
  split.
  - rewrite Hf, lookup_app_r by lia. rewrite Nat.sub_diag. simpl.
    by rewrite (newFrame_gather v).
  - intros i g Hi. apply lookup_replicate in Hi as [_ Hi].
    destruct (lookup_lt_is_Some_2 pages i Hi) as [p Hp].
    exists (fetchRequest p (length (heap s) + i)). split.
    + rewrite Hr, lookup_app_r by lia.
      replace (length (requests s) + i - length (requests s))%nat with i by lia.
      by rewrite list_lookup_imap, Hp.
    + by apply isFetchOf_fetchRequest.
  - intros i Hi. apply lookup_replicate in Hi as [_ Hi].
    exists (firstTouched v (length (frames s)) i).
    split; [by apply Hnew|]. split; [done|].
    simpl. unfold forFrame. simpl. by rewrite Nat.eqb_refl.
  - intros i m Hi. by apply lookup_replicate in Hi as [? _].
  - intros l e k He Hk Hfk.
    destruct (Hold l e He) as [He0|(i & Hi & -> & ->)].
    + pose proof (eo_callbacks _ _ _ (inv_entries s HI l e He0)) as Hok.
      rewrite Forall_forall in Hok. pose proof (Hok k Hk) as Hk0.
      unfold callbackOk in Hk0. unfold forFrame in Hfk.
      destruct (mc_callback k) as [a sz c|r' i']; [discriminate|].
      apply Nat.eqb_eq in Hfk. subst r'.
      destruct Hk0 as (f0 & Hf0 & _). apply lookup_lt_Some in Hf0. lia.
    + exists i. split; [done|]. by apply lookup_replicate.
  - intros l e k a sz He Hk.
    destruct (Hold l e He) as [He0|(i & Hi & -> & ->)].
    + by apply (q_number cb s Hq l e k a sz).
    + simpl in Hk. apply list_elem_of_singleton in Hk. by subst k.
  - intros r' f0 Hne. rewrite Hf.
    intros [[_ H0]|[Hi _]]%lookup_snoc_Some; [|done].
    by apply (q_frame cb s Hq r' f0).
  - intros id a. rewrite Hr. intros [H0|[Hl H0]]%lookup_app_Some.
    + by apply (q_pointer cb s Hq id a).
    + rewrite list_lookup_imap in H0.
      destruct (pages !! _); discriminate.
  - unfold callsOf. by rewrite Ht.
  - unfold uncachedFor. rewrite Hr, List.filter_app, uncachedFor_fetches.
    by rewrite app_nil_r.
Qed.

End GatherStart.

(** X19. Take, in a reachable state, a [ReadArray] of a supported element
    kind with a continuation that the module holds nowhere yet, whose
    pages (there is at least one) have no entry in the cache. The read
    returns without calling the continuation, having issued one fetch per
    page, in page order. Whatever turns follow, and in whatever order
    JsDbg answers the fetches: as long as one of them is unanswered the
    continuation has not been called; once each has been answered it has
    been called exactly once, with what the continuation of [readArray]
    assembles from the pages in page order (the first error among them,
    or the [count] elements from the offset of the address on). JsDbg
    answers a call once, so the answer to a fetch is the first turn of
    the list that answers it. A break in between does not change this. *)
Theorem X19_cold_array_is_answered_once_by_its_last_page (s : State)
    (address itemSize count : Z) (isUnsigned isFloat : bool) (v : viewer)
    (cb : userCallback) :
  reachable s -> quiet cb s ->
  getArrayViewer itemSize isUnsigned isFloat = Some v ->
  calculatePagesForArray address itemSize count <> [] ->
  (forall p, p ∈ calculatePagesForArray address itemSize count ->
             cache s !! p = None) ->
  exists s1,
    turn (CallReadArray address itemSize isUnsigned isFloat count cb) s
      = Ok tt s1 /\
    (forall i p,
       calculatePagesForArray address itemSize count !! i = Some p ->
       requests s1 !! (length (requests s) + i)%nat =
       Some (fetchRequest p (length (heap s) + i))) /\
    forall ops,
      Forall (fun o => ~ usesCallback cb o) ops ->
      let got := arrived (length (requests s))
                   (length (calculatePagesForArray address itemSize count))
                   ops in
      callsOf cb (run ops s1) =
      callsOf cb s ++
      (if (awaited got =? 0)%nat
       then [assembled
               (assemble (Z.quot (Z.rem address PAGE_SIZE) itemSize) count
                  (map (option_map (viewOf v)) got))]
       else []).
Proof.
  intros Hs Hq Hv Hne Hc. pose proof (reachable_Inv s Hs) as HI.
  assert (Hsz : itemSize <> 0).
  { apply getArrayViewer_size in Hv. pose proof (bytesPerElement_pos v). lia. }
  set (pages := calculatePagesForArray address itemSize count) in *.
  set (s0 := setFrames (frames s ++ [newFrame pages address itemSize count cb])
               s).
  destruct (cold_loop v (length (frames s)) pages 0 s0
              (pages_NoDup address itemSize count) Hc)
    as (s1 & Hrun & Hh & Hr & Hf & Ht).
  assert (Hturn : turn (CallReadArray address itemSize isUnsigned isFloat
                          count cb) s = Ok tt s1).
  { simpl. unfold readArray, bind. rewrite Hv. fold pages.
    rewrite requestPages_run. cbv zeta. fold s0. rewrite Hrun.
    unfold frameAt. rewrite Hf. unfold s0. cbn [frames setFrames].
    rewrite lookup_app_r by lia. by rewrite Nat.sub_diag. }
  exists s1. split; [exact Hturn|]. split.
  - intros i p Hp. rewrite Hr. unfold s0. cbn [requests heap setFrames].
    rewrite lookup_app_r by lia.
    replace (length (requests s) + i - length (requests s))%nat with i by lia.
    by rewrite list_lookup_imap, Hp.
  - intros ops Hops.
    assert (HI1 : Inv s1).
    { destruct (turn_ok (CallReadArray address itemSize isUnsigned isFloat
                           count cb) s HI) as (s' & Hs' & HI').
      rewrite Hturn in Hs'. injection Hs' as <-. exact HI'. }
    apply (gathering_run cb (length (frames s)) (length (heap s))
             (length (requests s)) v address itemSize count
             (callsOf cb s) (uncachedFor cb s) _ ops
             (getOffset_Some address itemSize Hsz) Hops
             (replicate (length pages) None) s1 HI1).
    + rewrite awaited_replicate. by destruct pages.
    + by apply (gathering_cold cb v pages address itemSize count s s1).
Qed.

Lemma X19_witness :
  exists s1,
    turn (CallReadArray 4090 4 true false 3 7%nat) init = Ok tt s1 /\
    callsOf 7%nat (run [ReadArrayDone 1 (ArrayError 5)] s1) = [] /\
    callsOf 7%nat
      (run [ReadArrayDone 1 (ArrayError 5); BreakFired;
            ReadArrayDone 0 (ArrayData [1; 2])] s1) = [ErrorOf 5].
Proof.
  destruct (X19_cold_array_is_answered_once_by_its_last_page
              init 4090 4 3 true false Uint32Array 7%nat)
    as (s1 & H1 & _ & H3).
  - by exists [].
  - split.
    + intros l e k a sz H. vm_compute in H. discriminate H.
    + intros r f H. vm_compute in H. discriminate H.
    + intros id a H. vm_compute in H. discriminate H.
  - reflexivity.
  - vm_compute. discriminate.
  - intros p _. apply lookup_empty.
  - exists s1. split; [exact H1|]. split.
    + apply (H3 [ReadArrayDone 1 (ArrayError 5)]).
      repeat constructor; simpl; tauto.
    + apply (H3 [ReadArrayDone 1 (ArrayError 5); BreakFired;
                 ReadArrayDone 0 (ArrayData [1; 2])]).
      repeat constructor; simpl; tauto.
Defined.

